(** * md-toc-generator: numbering of chapters and generation of the table of content

    A shallow embedding of [md-toc-generator.py].  Text is a list of
    characters, a character being a code point below 256; the dictionary of
    chapter indexes is a finite map from levels to counters; the lists the
    program appends to and the lines it prints are threaded as explicit state.
    The file is read and written by the caller: [generate_file_toc] is the
    function from the text read to the text written. *)

From Stdlib Require Import Ascii String ZArith DecimalString.
From Stdlib Require DecimalPos DecimalZ.
From stdpp Require Import gmap list sorting.

Open Scope Z_scope.

(** ** Text *)

Abbreviation str := (list ascii).

Definition lit (s : string) : str := list_ascii_of_string s.

Definition NL : ascii := "010"%char.
Definition DQUOTE : ascii := "034"%char.
Definition BACKSLASH : ascii := "092"%char.

Definition code (c : ascii) : N := N_of_ascii c.

Definition ascii_eqb (a b : ascii) : bool := bool_decide (a = b).

(** [sep.join(l)] *)
Fixpoint str_join (sep : str) (l : list str) : str :=
  match l with
  | [] => []
  | [x] => x
  | x :: l' => x ++ sep ++ str_join sep l'
  end.

(** [s.split(c)] for a separator of one character: the pieces between the
    occurrences of [c]; the empty text gives one empty piece. *)
Fixpoint split_on (c : ascii) (s : str) : list str :=
  match s with
  | [] => [[]]
  | x :: s' =>
      if ascii_eqb x c then [] :: split_on c s'
      else match split_on c s' with
           | [] => [[x]]
           | p :: ps => (x :: p) :: ps
           end
  end.

(** [s.replace(old, new)] for [old] of one character. *)
Definition str_replace (old : ascii) (new : str) (s : str) : str :=
  flat_map (fun x => if ascii_eqb x old then new else [x]) s.

(** [s.count(c)] for [c] of one character. *)
Definition str_count (c : ascii) (s : str) : Z :=
  Z.of_nat (length (filter (fun x => x = c) s)).

(** [s.lower()] on code points below 256: the letters A-Z and the
    capital letters of the Latin-1 supplement (all of 0xC0-0xDE but the
    multiplication sign 0xD7) move up by 32. *)
Definition lower_char (c : ascii) : ascii :=
  let n := code c in
  if ((65 <=? n) && (n <=? 90) || (192 <=? n) && (n <=? 222) && negb (n =? 215))%N
  then ascii_of_N (n + 32) else c.

Definition str_lower (s : str) : str := map lower_char s.

(** [str(z)] for an integer. *)
Definition str_of_Z (z : Z) : str := lit (NilZero.string_of_int (Z.to_int z)).

(** [c * n] for a text [c] of one character. *)
Definition str_mul (c : str) (n : Z) : str := concat (replicate (Z.to_nat n) c).

(** ** Outcomes

    A call returns a value or raises.  [OutOfFuel] belongs to the model only:
    it is what a fuel-bounded recursion answers when its fuel is spent, and
    the functions below are shown never to answer it. *)

Inductive exn := ValueError | StopIteration | ReError | IndexError.

Inductive outcome (A : Type) :=
| Returned (a : A)
| Raised (e : exn)
| OutOfFuel.
Arguments Returned {A} a.
Arguments Raised {A} e.
Arguments OutOfFuel {A}.

Definition obind {A B} (x : outcome A) (f : A -> outcome B) : outcome B :=
  match x with
  | Returned a => f a
  | Raised e => Raised e
  | OutOfFuel => OutOfFuel
  end.

(** ** Regular expressions

    The fragment of [re] the program uses, with the matching order of a
    backtracking engine: [rmatch] lists every way the expression matches at
    the cursor, the preferred one first, so that the match [re] finds is the
    head of the list. *)

Inductive regex :=
| Bol                          (* ^ *)
| Eol                          (* $ *)
| Chr (c : ascii)              (* one literal character *)
| Cls (p : ascii -> bool)      (* a character class *)
| Seq (r1 r2 : regex)
| Alt (r1 r2 : regex)
| Star (r : regex)             (* r*, greedy *)
| Grp (n : nat) (r : regex).   (* capturing group number n *)

(** [r+], greedy *)
Definition Plus (r : regex) : regex := Seq r (Star r).

(** [re.escape(s)]: the characters of [s], literally *)
Fixpoint Lits (s : str) : regex :=
  match s with
  | [] => Star (Cls (fun _ => false))
  | [c] => Chr c
  | c :: s' => Seq (Chr c) (Lits s')
  end.

(** Character classes of a [str] pattern, on code points below 256. *)
Definition is_space (c : ascii) : bool :=
  let n := code c in
  ((9 <=? n) && (n <=? 13) || (28 <=? n) && (n <=? 32) || (n =? 133) || (n =? 160))%N.

Definition is_digit (c : ascii) : bool :=
  let n := code c in ((48 <=? n) && (n <=? 57))%N.

Definition is_dot (c : ascii) : bool := negb (ascii_eqb c NL).

(** Captured groups, the latest capture of a group first. *)
Definition groups := list (nat * str).

Fixpoint group_lookup (n : nat) (g : groups) : option str :=
  match g with
  | [] => None
  | (k, s) :: g' => if Nat.eqb k n then Some s else group_lookup n g'
  end.

(** The character before the cursor after [consumed] has been read. *)
Definition prev_after (prev : option ascii) (consumed : str) : option ascii :=
  match last consumed with
  | Some c => Some c
  | None => prev
  end.

Definition at_bol (multiline : bool) (prev : option ascii) : bool :=
  match prev with
  | None => true
  | Some c => multiline && ascii_eqb c NL
  end.

Definition at_eol (multiline : bool) (s : str) : bool :=
  match s with
  | [] => true
  | c :: s' => ascii_eqb c NL && (multiline || bool_decide (s' = []))
  end.

Definition seq_results (xs : list (str * groups)) (prev : option ascii) (s : str)
    (k : option ascii -> str -> list (str * groups)) : list (str * groups) :=
  flat_map (fun '(c1, g1) =>
    map (fun '(c2, g2) => (c1 ++ c2, g2 ++ g1))
        (k (prev_after prev c1) (drop (length c1) s))) xs.

Definition nonempty_results (xs : list (str * groups)) : list (str * groups) :=
  filter (fun x => x.1 ≠ []) xs.

(** The repetitions of [step], most repetitions first; a repetition that
    reads nothing ends the loop, so [length s] repetitions are enough. *)
Fixpoint star_results (step : option ascii -> str -> list (str * groups))
    (n : nat) (prev : option ascii) (s : str) : list (str * groups) :=
  match n with
  | O => [([], [])]
  | S n' =>
      seq_results (nonempty_results (step prev s)) prev s (star_results step n')
      ++ [([], [])]
  end.

Fixpoint rmatch (multiline : bool) (r : regex) (prev : option ascii) (s : str)
    : list (str * groups) :=
  match r with
  | Bol => if at_bol multiline prev then [([], [])] else []
  | Eol => if at_eol multiline s then [([], [])] else []
  | Chr c =>
      match s with
      | x :: _ => if ascii_eqb x c then [([x], [])] else []
      | [] => []
      end
  | Cls p =>
      match s with
      | x :: _ => if p x then [([x], [])] else []
      | [] => []
      end
  | Seq r1 r2 => seq_results (rmatch multiline r1 prev s) prev s (rmatch multiline r2)
  | Alt r1 r2 => rmatch multiline r1 prev s ++ rmatch multiline r2 prev s
  | Star r' => star_results (rmatch multiline r') (length s) prev s
  | Grp n r' => map (fun '(c, g) => (c, (n, c) :: g)) (rmatch multiline r' prev s)
  end.

(** A compiled pattern: the expression, the MULTILINE flag and the number of
    groups. *)
Record pattern := { p_regex : regex; p_multiline : bool; p_groups : nat }.

(** A match object: the text matched (group 0) and the groups. *)
Record rematch := { m_text : str; m_groups : groups }.

(** [m.group(n)]; a group that took no part in the match is empty in a
    replacement. *)
Definition group (m : rematch) (n : nat) : str :=
  match n with
  | O => m_text m
  | _ => default [] (group_lookup n (m_groups m))
  end.

(** The match at the cursor, if any. *)
Definition match_here (p : pattern) (prev : option ascii) (s : str) : option rematch :=
  match rmatch (p_multiline p) (p_regex p) prev s with
  | [] => None
  | (c, g) :: _ => Some {| m_text := c; m_groups := g |}
  end.

(** The scan of [finditer] and [sub]: the leftmost match, then the leftmost
    match after its end, and so on.  [skip] counts the characters of the last
    match that are still to be passed.  An empty match is reported and the
    scan moves one character on (no pattern of this program matches the
    empty text). *)
Fixpoint finditer_from (p : pattern) (skip : nat) (prev : option ascii) (s : str)
    : list rematch :=
  match skip with
  | S k =>
      match s with
      | [] => []
      | x :: s' => finditer_from p k (Some x) s'
      end
  | O =>
      match match_here p prev s with
      | Some m =>
          m :: match s with
               | [] => []
               | x :: s' => finditer_from p (pred (length (m_text m))) (Some x) s'
               end
      | None =>
          match s with
          | [] => []
          | x :: s' => finditer_from p 0 (Some x) s'
          end
      end
  end.

Definition finditer (p : pattern) (s : str) : list rematch :=
  finditer_from p 0 None s.

(** [count] is the number of replacements still allowed, [None] for no
    limit (the [count=0] of [re]). *)
Definition count_left (count : option nat) : bool :=
  match count with
  | Some O => false
  | _ => true
  end.

Definition count_pred (count : option nat) : option nat :=
  match count with
  | Some n => Some (pred n)
  | None => None
  end.

Fixpoint sub_from (p : pattern) (repl : rematch -> str) (count : option nat)
    (skip : nat) (prev : option ascii) (s : str) : str :=
  match skip with
  | S k =>
      match s with
      | [] => []
      | x :: s' => sub_from p repl count k (Some x) s'
      end
  | O =>
      match (if count_left count then match_here p prev s else None) with
      | Some m =>
          repl m ++
          match s with
          | [] => []
          | x :: s' =>
              match m_text m with
              | [] => x :: sub_from p repl (count_pred count) 0 (Some x) s'
              | _ :: t => sub_from p repl (count_pred count) (length t) (Some x) s'
              end
          end
      | None =>
          match s with
          | [] => []
          | x :: s' => x :: sub_from p repl count 0 (Some x) s'
          end
      end
  end.

(** *** Replacement templates

    A replacement text is read as a template: a backslash starts an escape
    or a reference to a group.  The parser is the one of [re]; whatever it
    rejects raises [ReError], but for a well-formed name of a group the
    pattern does not have, which raises [IndexError]. *)

Inductive tpart := TLit (c : ascii) | TGroup (n : nat).

Inductive tstate := TNormal | TName (name : str).

Definition is_octdigit (c : ascii) : bool :=
  let n := code c in ((48 <=? n) && (n <=? 55))%N.

Definition digit_val (c : ascii) : N := (code c - 48)%N.

Definition is_ascii_letter (c : ascii) : bool :=
  let n := code c in ((65 <=? n) && (n <=? 90) || (97 <=? n) && (n <=? 122))%N.

(** [str.isidentifier] on code points below 256 *)
Definition is_id_start (c : ascii) : bool :=
  let n := code c in
  (is_ascii_letter c || (n =? 95) || (n =? 170) || (n =? 181) || (n =? 186)
   || (192 <=? n) && (n <=? 214) || (216 <=? n) && (n <=? 246) || (248 <=? n))%N.

Definition is_id_continue (c : ascii) : bool :=
  is_id_start c || is_digit c || (code c =? 183)%N.

Definition is_identifier (s : str) : bool :=
  match s with
  | [] => false
  | c :: s' => is_id_start c && forallb is_id_continue s'
  end.

Definition decimal_val (s : str) : N :=
  foldl (fun acc c => (10 * acc + digit_val c)%N) 0%N s.

(** the escapes of a template that stand for one character *)
Definition template_escape (c : ascii) : option ascii :=
  if ascii_eqb c "a" then Some "007"%char
  else if ascii_eqb c "b" then Some "008"%char
  else if ascii_eqb c "f" then Some "012"%char
  else if ascii_eqb c "n" then Some "010"%char
  else if ascii_eqb c "r" then Some "013"%char
  else if ascii_eqb c "t" then Some "009"%char
  else if ascii_eqb c "v" then Some "011"%char
  else if ascii_eqb c BACKSLASH then Some BACKSLASH
  else None.

Definition add_group (ngroups : nat) (index : N) (rest : outcome (list tpart))
    : outcome (list tpart) :=
  if (N.of_nat ngroups <? index)%N then Raised ReError
  else obind rest (fun t => Returned (TGroup (N.to_nat index) :: t)).

Definition add_lit (c : ascii) (rest : outcome (list tpart)) : outcome (list tpart) :=
  obind rest (fun t => Returned (TLit c :: t)).

Fixpoint parse_template (ngroups : nat) (st : tstate) (s : str) : outcome (list tpart) :=
  match st, s with
  | TNormal, [] => Returned []
  | TName _, [] => Raised ReError
  | TName name, x :: s' =>
      if ascii_eqb x ">" then
        if bool_decide (name = []) then Raised ReError
        else if forallb is_digit name then
          add_group ngroups (decimal_val name) (parse_template ngroups TNormal s')
        else if is_identifier name then Raised IndexError
        else Raised ReError
      else parse_template ngroups (TName (name ++ [x])) s'
  | TNormal, x :: s' =>
      if negb (ascii_eqb x BACKSLASH) then add_lit x (parse_template ngroups TNormal s')
      else
        match s' with
        | [] => Raised ReError
        | c :: s1 =>
            if ascii_eqb c "g" then
              match s1 with
              | [] => Raised ReError
              | b :: s2 =>
                  if ascii_eqb b "<" then parse_template ngroups (TName []) s2
                  else Raised ReError
              end
            else if ascii_eqb c "0" then
              match s1 with
              | [] => add_lit (ascii_of_N 0) (parse_template ngroups TNormal s1)
              | d1 :: s2 =>
                  if is_octdigit d1 then
                    match s2 with
                    | [] => add_lit (ascii_of_N (digit_val d1)) (parse_template ngroups TNormal s2)
                    | d2 :: s3 =>
                        if is_octdigit d2 then
                          add_lit (ascii_of_N ((8 * digit_val d1 + digit_val d2) mod 256))
                                  (parse_template ngroups TNormal s3)
                        else add_lit (ascii_of_N (digit_val d1)) (parse_template ngroups TNormal s2)
                    end
                  else add_lit (ascii_of_N 0) (parse_template ngroups TNormal s1)
              end
            else if is_digit c then
              match s1 with
              | [] => add_group ngroups (digit_val c) (parse_template ngroups TNormal s1)
              | d1 :: s2 =>
                  if is_digit d1 then
                    match s2 with
                    | [] =>
                        add_group ngroups (10 * digit_val c + digit_val d1)
                                  (parse_template ngroups TNormal s2)
                    | d2 :: s3 =>
                        if is_octdigit c && is_octdigit d1 && is_octdigit d2 then
                          let v := (64 * digit_val c + 8 * digit_val d1 + digit_val d2)%N in
                          if (255 <? v)%N then Raised ReError
                          else add_lit (ascii_of_N v) (parse_template ngroups TNormal s3)
                        else
                          add_group ngroups (10 * digit_val c + digit_val d1)
                                    (parse_template ngroups TNormal s2)
                    end
                  else add_group ngroups (digit_val c) (parse_template ngroups TNormal s1)
              end
            else
              match template_escape c with
              | Some e => add_lit e (parse_template ngroups TNormal s1)
              | None =>
                  if is_ascii_letter c then Raised ReError
                  else add_lit x (add_lit c (parse_template ngroups TNormal s1))
              end
        end
  end.

Definition expand_template (t : list tpart) (m : rematch) : str :=
  flat_map (fun part => match part with
                        | TLit c => [c]
                        | TGroup n => group m n
                        end) t.

(** the [count] argument of [sub]: 0 is no limit *)
Definition count_of_Z (count : Z) : option nat :=
  if count =? 0 then None else Some (Z.to_nat count).

(** [p.sub(repl, s, count)] *)
Definition re_sub (p : pattern) (repl : str) (s : str) (count : Z) : outcome str :=
  obind (parse_template (p_groups p) TNormal repl) (fun t =>
    Returned (sub_from p (expand_template t) (count_of_Z count) 0 None s)).

(** the value of [re.MULTILINE] *)
Definition RE_MULTILINE : Z := 8.

(** ** The constants of the program *)

Definition TOC_CHAPTER_NAME : str := lit "Table of content".
Definition TOC_BEGIN : str := lit "$%TOC_BEGIN$".
Definition TOC_END : str := lit "$%TOC_END$".
Definition TOC_MARK : str := lit "[TOC]".

(** the pattern [^ (#+) \s+ (.* ) \s* $], written here with spaces between its
    parts *)
Definition RE_HEADER : pattern :=
  {| p_regex :=
       Seq Bol (Seq (Grp 1 (Plus (Chr "#")))
               (Seq (Plus (Cls is_space))
               (Seq (Grp 2 (Star (Cls is_dot)))
               (Seq (Star (Cls is_space)) Eol))));
     p_multiline := false; p_groups := 2 |}.

(** the pattern [^ ([.\d]+) \s+ (.* ) $] *)
Definition is_dot_or_digit (c : ascii) : bool := ascii_eqb c "." || is_digit c.

Definition RE_NUMBERED_HEADER_NAME : pattern :=
  {| p_regex :=
       Seq Bol (Seq (Grp 1 (Plus (Cls is_dot_or_digit)))
               (Seq (Plus (Cls is_space))
               (Seq (Grp 2 (Star (Cls is_dot))) Eol)));
     p_multiline := false; p_groups := 2 |}.

(** [re.escape(TOC_MARK)] *)
Definition RE_TOC_INIT : pattern :=
  {| p_regex := Lits TOC_MARK; p_multiline := false; p_groups := 0 |}.

(** [re.escape(TOC_BEGIN)], any number of [(?:\n|.)], [re.escape(TOC_END)];
    compiled with MULTILINE *)
Definition RE_TOC_FINISHED : pattern :=
  {| p_regex := Seq (Lits TOC_BEGIN)
                    (Seq (Star (Alt (Chr NL) (Cls is_dot))) (Lits TOC_END));
     p_multiline := true; p_groups := 0 |}.

(** ** The state of a run

    The objects a call of [get_chapter_names] shares with its caller and with
    its recursive calls: the dictionary of chapter indexes, the list
    [new_content] (absent when the caller passes none) and what has been
    printed. *)

Record world := {
  chapter_indexes : gmap Z Z;
  new_content : option (list str);
  stdout : list str
}.

Definition M (A : Type) : Type := world -> world * outcome A.

Definition ret {A} (a : A) : M A := fun w => (w, Returned a).

Definition bind {A B} (m : M A) (f : A -> M B) : M B :=
  fun w =>
    match m w with
    | (w', Returned a) => f a w'
    | (w', Raised e) => (w', Raised e)
    | (w', OutOfFuel) => (w', OutOfFuel)
    end.

Notation "x <- m ;; k" := (bind m (fun x => k))
  (at level 100, m at next level, right associativity).
Notation "m ;;; k" := (bind m (fun _ => k))
  (at level 100, right associativity).

Definition lift {A} (x : outcome A) : M A := fun w => (w, x).

Definition get_indexes : M (gmap Z Z) := fun w => (w, Returned (chapter_indexes w)).

Definition set_indexes (m : gmap Z Z) : M unit :=
  fun w => ({| chapter_indexes := m; new_content := new_content w; stdout := stdout w |},
            Returned tt).

(** [print(s)] *)
Definition print (s : str) : M unit :=
  fun w => ({| chapter_indexes := chapter_indexes w; new_content := new_content w;
               stdout := stdout w ++ [s] |}, Returned tt).

(** [new_content is not None] *)
Definition output_new_content : M bool :=
  fun w => (w, Returned (bool_decide (is_Some (new_content w)))).

(** [new_content.append(s)] *)
Definition new_content_append (s : str) : M unit :=
  fun w => ({| chapter_indexes := chapter_indexes w;
               new_content := (fun l => l ++ [s]) <$> new_content w;
               stdout := stdout w |}, Returned tt).

(** ** The program *)

Fixpoint skip_n_from {T} (i : Z) (iterable : list T) (n : Z) : list T :=
  match iterable with
  | [] => []
  | x :: l => if i <? n then skip_n_from (i + 1) l n else x :: skip_n_from (i + 1) l n
  end.

Definition skip_n {T} (iterable : list T) (n : Z) : list T := skip_n_from 0 iterable n.

(** [list(indexes.keys())] *)
Definition keys (indexes : gmap Z Z) : list Z := map fst (map_to_list indexes).

(** [sorted(l)] *)
Definition sorted (l : list Z) : list Z := merge_sort Z.le l.

(** [max(l)], which raises on the empty list *)
Definition max_of (l : list Z) : outcome Z :=
  match l with
  | [] => Raised ValueError
  | x :: l' => Returned (foldl Z.max x l')
  end.

Definition get_new_chapter_name (current_name : str) (indexes : gmap Z Z) : outcome str :=
  obind (re_sub RE_NUMBERED_HEADER_NAME (lit "\2") current_name 0) (fun current_name =>
    Returned (str_join (lit ".") (map (fun x => str_of_Z (indexes !!! x)) (sorted (keys indexes)))
              ++ lit " " ++ current_name)).

(** lines 102-103: the entries of the levels above [level] are deleted *)
Definition close_levels (level : Z) (indexes : gmap Z Z) : gmap Z Z :=
  foldl (fun m key => delete key m) indexes (filter (fun x => x > level) (keys indexes)).

(** lines 108-112: while the largest key is below [level], the next key is
    entered with 0.  The loop runs [level - key] times at most, which is the
    fuel [open_levels] gives it. *)
Fixpoint open_levels_loop (fuel : nat) (level : Z) (indexes : gmap Z Z)
    : outcome (gmap Z Z) :=
  obind (max_of (keys indexes)) (fun key =>
    if key >=? level then Returned indexes
    else match fuel with
         | O => OutOfFuel
         | S fuel' => open_levels_loop fuel' level (<[key + 1 := 0]> indexes)
         end).

Definition open_levels (level : Z) (indexes : gmap Z Z) : outcome (gmap Z Z) :=
  match max_of (keys indexes) with
  | Returned key => open_levels_loop (Z.to_nat (level - key)) level indexes
  | _ => open_levels_loop 0 level indexes
  end.

(** line 114 *)
Definition increment_level (level : Z) (indexes : gmap Z Z) : gmap Z Z :=
  <[level := default 0 (indexes !! level) + 1]> indexes.

Definition warning (level : Z) (chapter_name : str) (current_chapter_level : Z) : str :=
  lit "WARN: level (" ++ str_of_Z level ++ lit ") of chapter " ++ [DQUOTE] ++ chapter_name
  ++ [DQUOTE] ++ lit " is larger than expected (" ++ str_of_Z (current_chapter_level + 1)
  ++ lit ")".

Section get_chapter_names_body.
Variable start_line_index : Z.
Variable current_chapter_level : Z.
Variable min_toc_level : Z.
(** the recursive call, given its [start_line_index] and its
    [current_chapter_level] *)
Variable recursive_call : Z -> Z -> M (list str).

(** lines 101-130, for a header of level [level >= min_toc_level] found at
    index [i]; the value is [chapter_names] at the [break] *)
Definition process_header (i : Z) (level : Z) (chapter_name : str) : M (list str) :=
  indexes <- get_indexes ;;
  (if level <? current_chapter_level then
     set_indexes (close_levels level indexes)
   else if level >? current_chapter_level then
     (if level - current_chapter_level >? 1
      then print (warning level chapter_name current_chapter_level)
      else ret tt) ;;;
     indexes' <- lift (open_levels level indexes) ;;
     set_indexes indexes'
   else ret tt) ;;;
  indexes <- get_indexes ;;
  set_indexes (increment_level level indexes) ;;;
  indexes <- get_indexes ;;
  new_chapter_name <- lift (get_new_chapter_name chapter_name indexes) ;;
  print new_chapter_name ;;;
  output <- output_new_content ;;
  chapter_name <-
    (if output : bool then
       new_content_append (str_mul (lit "#") level ++ lit " " ++ new_chapter_name) ;;;
       ret new_chapter_name
     else ret chapter_name) ;;
  names <- recursive_call (start_line_index + i + 1) level ;;
  ret ([chapter_name] ++ names).

(** the inner loop over the matches of [RE_HEADER] in a line: [Some] is
    [chapter_names] at the [break], [None] says that the loop came to its
    end, which is when the [else] of the loop runs *)
Fixpoint for_mach (i : Z) (machs : list rematch) : M (option (list str)) :=
  match machs with
  | [] => ret None
  | mach :: machs' =>
      let level := Z.of_nat (length (group mach 1)) in
      let chapter_name := group mach 2 in
      if level <? min_toc_level then for_mach i machs'
      else names <- process_header i level chapter_name ;; ret (Some names)
  end.

(** the outer loop, from index [i] on *)
Fixpoint for_line (i : Z) (lines : list str) : M (list str) :=
  match lines with
  | [] => ret []
  | line :: lines' =>
      r <- for_mach i (finditer RE_HEADER line) ;;
      match r with
      | Some chapter_names => ret chapter_names
      | None =>
          output <- output_new_content ;;
          (if output : bool then new_content_append line else ret tt) ;;;
          for_line (i + 1) lines'
      end
  end.
End get_chapter_names_body.

(** The body of [get_chapter_names] once [chapter_indexes] is a dictionary
    (line 88 leaves the dictionary of a recursive call as it is).  [fuel]
    bounds the depth of the recursion; the limit the interpreter puts on this
    depth is not modelled. *)
Fixpoint get_chapter_names_rec (fuel : nat) (content_lines : list str)
    (start_line_index current_chapter_level min_toc_level : Z) : M (list str) :=
  match fuel with
  | O => lift OutOfFuel
  | S fuel' =>
      let current_chapter_level := Z.max min_toc_level current_chapter_level in
      for_line start_line_index current_chapter_level min_toc_level
        (fun start level => get_chapter_names_rec fuel' content_lines start level min_toc_level)
        0 (skip_n content_lines start_line_index)
  end.

(** Every recursive call starts at a larger index, so the recursion is never
    deeper than the number of lines from [start_line_index] on. *)
Definition depth_bound (content_lines : list str) (start_line_index : Z) : nat :=
  S (Z.to_nat (Z.of_nat (length content_lines) - start_line_index)).

(** A call of [get_chapter_names] on the objects of a state, as the
    recursive calls are. *)
Definition get_chapter_names_in (content_lines : list str)
    (start_line_index current_chapter_level min_toc_level : Z) : M (list str) :=
  get_chapter_names_rec (depth_bound content_lines start_line_index)
    content_lines start_line_index current_chapter_level min_toc_level.

(** [get_chapter_names(content_lines, start_line_index, chapter_indexes,
    current_chapter_level, min_toc_level, new_content)]: the final state of
    the dictionary, of [new_content] and of the output, and the outcome.
    Line 88 makes the dictionary when the caller passes none. *)
Definition get_chapter_names (content_lines : list str) (start_line_index : Z)
    (chapter_indexes : option (gmap Z Z)) (current_chapter_level min_toc_level : Z)
    (new_content : option (list str)) : world * outcome (list str) :=
  get_chapter_names_in content_lines start_line_index current_chapter_level min_toc_level
    {| chapter_indexes := default {[min_toc_level := 0]} chapter_indexes;
       new_content := new_content;
       stdout := [] |}.

(** [list(map(f, l))], which is what [join] makes of [map(f, l)]: [map]
    hands a [StopIteration] that [f] raises on to its consumer, for which it
    is the end of the iteration. *)
Fixpoint list_of_map {A B} (f : A -> outcome B) (l : list A) : outcome (list B) :=
  match l with
  | [] => Returned []
  | x :: l' =>
      match f x with
      | Returned y => obind (list_of_map f l') (fun ys => Returned (y :: ys))
      | Raised StopIteration => Returned []
      | Raised e => Raised e
      | OutOfFuel => OutOfFuel
      end
  end.

Definition chapter_link (chapter_name : str) : str :=
  str_lower
    (str_replace " " (lit "-")
    (str_replace "&" []
    (str_replace "-" []
    (str_replace "#" []
    (str_replace "/" []
    (str_replace "." [] chapter_name)))))).

Definition chapter_name_to_md_item (chapter_name : str) : outcome str :=
  match finditer RE_NUMBERED_HEADER_NAME chapter_name with
  | [] => Raised StopIteration
  | mach :: _ =>
      let chapter_level := str_count "." (group mach 1) in
      Returned (str_mul (lit "  ") chapter_level ++ lit "- [" ++ chapter_name ++ lit "](#"
                ++ chapter_link chapter_name ++ lit ")")
  end.

Definition toc_content (toc_chapter_name : str) (items : list str) : str :=
  TOC_BEGIN ++ [NL] ++ lit "## " ++ toc_chapter_name ++ [NL] ++ str_join [NL] items
  ++ [NL] ++ TOC_END.

(** [generate_file_toc], from the text read to what is printed and the text
    written *)
Definition generate_file_toc (content : str) (toc_chapter_name : option str)
    : list str * outcome str :=
  let toc_chapter_name := default TOC_CHAPTER_NAME toc_chapter_name in
  match re_sub RE_TOC_FINISHED TOC_MARK content 0 with
  | Returned content =>
      let content_lines := split_on NL content in
      let '(w, r) := get_chapter_names content_lines 0 None 0 2 (Some []) in
      (stdout w,
       obind r (fun chapter_names =>
       obind (list_of_map chapter_name_to_md_item chapter_names) (fun items =>
       let new_content := str_join [NL] (default [] (new_content w)) in
       re_sub RE_TOC_INIT (toc_content toc_chapter_name items) new_content RE_MULTILINE)))
  | Raised e => ([], Raised e)
  | OutOfFuel => ([], OutOfFuel)
  end.

(** ** Properties used in the statements *)

(** The keys of [m] are the levels from [lo] to [hi]. *)
Definition contiguous (lo hi : Z) (m : gmap Z Z) : Prop :=
  forall k, is_Some (m !! k) <-> lo <= k <= hi.

(** What lines 101-114 do to the dictionary for a header of level [level]. *)
Definition step_indexes (current_chapter_level level : Z) (indexes : gmap Z Z)
    : outcome (gmap Z Z) :=
  obind (if level <? current_chapter_level then Returned (close_levels level indexes)
         else if level >? current_chapter_level then open_levels level indexes
         else Returned indexes)
        (fun indexes' => Returned (increment_level level indexes')).

(** The dotted index that [get_new_chapter_name] puts before a name. *)
Definition dotted_index (indexes : gmap Z Z) : str :=
  str_join (lit ".") (map (fun x => str_of_Z (indexes !!! x)) (sorted (keys indexes))).

(** The name of a header without its previous number: what line 63 makes of
    it. *)
Definition clean_name (name : str) : str :=
  sub_from RE_NUMBERED_HEADER_NAME (expand_template [TGroup 2]) None 0 None name.

(** The line a numbered header is rewritten to. *)
Definition header_line (level : Z) (chapter_name : str) : str :=
  str_mul (lit "#") level ++ lit " " ++ chapter_name.

(** The state after lines 101-120 for a header of level [level], when the
    dictionary has become [indexes']. *)
Definition world_after_header (current_chapter_level level : Z) (chapter_name : str)
    (indexes' : gmap Z Z) (w : world) : world :=
  let new_chapter_name := dotted_index indexes' ++ lit " " ++ clean_name chapter_name in
  {| chapter_indexes := indexes';
     new_content := (fun l => l ++ [header_line level new_chapter_name]) <$> new_content w;
     stdout := stdout w
               ++ (if (level >? current_chapter_level)
                      && (level - current_chapter_level >? 1)
                   then [warning level chapter_name current_chapter_level] else [])
               ++ [new_chapter_name] |}.

(** The name that enters [chapter_names]: the numbered one when the lines
    are rewritten. *)
Definition listed_name (chapter_name : str) (indexes' : gmap Z Z) (w : world) : str :=
  if bool_decide (is_Some (new_content w))
  then dotted_index indexes' ++ lit " " ++ clean_name chapter_name
  else chapter_name.

(** The header the inner loop takes among the matches of a line: the first
    one whose level is not below [min_toc_level]. *)
Fixpoint first_chapter (min_toc_level : Z) (machs : list rematch) : option (Z * str) :=
  match machs with
  | [] => None
  | mach :: machs' =>
      let level := Z.of_nat (length (group mach 1)) in
      if level <? min_toc_level then first_chapter min_toc_level machs'
      else Some (level, group mach 2)
  end.

(** A line is a chapter when it is a header of level [min_toc_level] or
    more: its level and its name. *)
Definition chapter_of (min_toc_level : Z) (line : str) : option (Z * str) :=
  first_chapter min_toc_level (finditer RE_HEADER line).

(** The state after a line that is no chapter has been passed. *)
Definition world_after_line (line : str) (w : world) : world :=
  {| chapter_indexes := chapter_indexes w;
     new_content := (fun l => l ++ [line]) <$> new_content w;
     stdout := stdout w |}.

(** The state when lines 101-112 raise: only the warning has been printed. *)
Definition world_after_warning (current_chapter_level level : Z) (chapter_name : str)
    (w : world) : world :=
  {| chapter_indexes := chapter_indexes w;
     new_content := new_content w;
     stdout := stdout w
               ++ (if (level >? current_chapter_level)
                      && (level - current_chapter_level >? 1)
                   then [warning level chapter_name current_chapter_level] else []) |}.

(** [chapter_names.append(name); chapter_names.extend(...)] on the outcome
    of the recursive call *)
Definition cons_name (name : str) (r : world * outcome (list str))
    : world * outcome (list str) :=
  match r with
  | (w, Returned names) => (w, Returned (name :: names))
  | (w, Raised e) => (w, Raised e)
  | (w, OutOfFuel) => (w, OutOfFuel)
  end.

(** The pass as one loop over the lines: every chapter is treated with the
    level of the chapter before it as [current_chapter_level].  This is what
    the recursion amounts to ([get_chapter_names_in_scan]). *)
Fixpoint scan_lines (current_chapter_level min_toc_level : Z) (lines : list str)
    : M (list str) :=
  match lines with
  | [] => ret []
  | line :: lines' =>
      match chapter_of min_toc_level line with
      | Some (level, name) => fun w =>
          match step_indexes current_chapter_level level (chapter_indexes w) with
          | Returned m' =>
              cons_name (listed_name name m' w)
                (scan_lines level min_toc_level lines'
                   (world_after_header current_chapter_level level name m' w))
          | Raised e => (world_after_warning current_chapter_level level name w, Raised e)
          | OutOfFuel => (world_after_warning current_chapter_level level name w, OutOfFuel)
          end
      | None => fun w =>
          scan_lines current_chapter_level min_toc_level lines' (world_after_line line w)
      end
  end.

(** What the results of [rmatch] are: [matches ml r prev s c g] says that
    [r] matches the text [c] at the head of [s], after the character [prev],
    with the groups [g]. *)
Inductive matches (ml : bool) : regex -> option ascii -> str -> str -> groups -> Prop :=
| matches_bol prev s : at_bol ml prev = true -> matches ml Bol prev s [] []
| matches_eol prev s : at_eol ml s = true -> matches ml Eol prev s [] []
| matches_chr c prev s : matches ml (Chr c) prev (c :: s) [c] []
| matches_cls p x prev s : p x = true -> matches ml (Cls p) prev (x :: s) [x] []
| matches_seq r1 r2 prev s c1 g1 c2 g2 :
    matches ml r1 prev s c1 g1 ->
    matches ml r2 (prev_after prev c1) (drop (length c1) s) c2 g2 ->
    matches ml (Seq r1 r2) prev s (c1 ++ c2) (g2 ++ g1)
| matches_alt_l r1 r2 prev s c g :
    matches ml r1 prev s c g -> matches ml (Alt r1 r2) prev s c g
| matches_alt_r r1 r2 prev s c g :
    matches ml r2 prev s c g -> matches ml (Alt r1 r2) prev s c g
| matches_star_nil r prev s : matches ml (Star r) prev s [] []
| matches_star_cons r prev s c1 g1 c2 g2 :
    c1 <> [] ->
    matches ml r prev s c1 g1 ->
    matches ml (Star r) (prev_after prev c1) (drop (length c1) s) c2 g2 ->
    matches ml (Star r) prev s (c1 ++ c2) (g2 ++ g1)
| matches_grp n r prev s c g :
    matches ml r prev s c g -> matches ml (Grp n r) prev s c ((n, c) :: g).

(** The invariant of the pass: the keys of the dictionary go from
    [min_toc_level] to the level of the last chapter, which is the
    [current_chapter_level] of the next one; in the first call
    [current_chapter_level] is [max(min_toc_level, 0)], which is above the
    only key when [min_toc_level] is negative. *)
Definition indexes_inv (min_toc_level current_chapter_level : Z) (m : gmap Z Z) : Prop :=
  exists top, contiguous min_toc_level top m /\ min_toc_level <= top
    /\ top <= current_chapter_level /\ (top = current_chapter_level \/ current_chapter_level < 1).

(** The chapters of a document: level and name of the lines that are
    headers of level [min_toc_level] or more. *)
Definition chapters (min_toc_level : Z) (lines : list str) : list (Z * str) :=
  omap (chapter_of min_toc_level) lines.

(** The dictionary after each chapter, for the levels of the chapters in
    their order. *)
Fixpoint indexes_trace (current_chapter_level : Z) (m : gmap Z Z) (levels : list Z)
    : list (gmap Z Z) :=
  match levels with
  | [] => []
  | level :: levels' =>
      match step_indexes current_chapter_level level m with
      | Returned m' => m' :: indexes_trace level m' levels'
      | _ => []
      end
  end.

(** The dotted indexes of the chapters. *)
Definition dotted_indexes (current_chapter_level : Z) (m : gmap Z Z) (levels : list Z)
    : list str :=
  map dotted_index (indexes_trace current_chapter_level m levels).

(** The numbered names of the chapters: the dotted index, a space and the
    name without its previous number. *)
Definition numbered_names (current_chapter_level : Z) (m : gmap Z Z)
    (chs : list (Z * str)) : list str :=
  zip_with (fun index ch => index ++ lit " " ++ clean_name ch.2)
           (dotted_indexes current_chapter_level m (map fst chs)) chs.

(** The lines with the chapters rewritten to their numbered names. *)
Fixpoint rewrite_lines (min_toc_level : Z) (lines : list str) (names : list str)
    : list str :=
  match lines with
  | [] => []
  | line :: lines' =>
      match chapter_of min_toc_level line, names with
      | Some (level, _), name :: names' =>
          header_line level name :: rewrite_lines min_toc_level lines' names'
      | Some _, [] => []
      | None, _ => line :: rewrite_lines min_toc_level lines' names
      end
  end.

(** What the pass prints: for every chapter the warning, if its level is
    more than one above the level before it, and the numbered name. *)
Fixpoint printed_lines (current_chapter_level : Z) (chs : list (Z * str))
    (names : list str) : list str :=
  match chs, names with
  | (level, chapter_name) :: chs', name :: names' =>
      (if (level >? current_chapter_level) && (level - current_chapter_level >? 1)
       then [warning level chapter_name current_chapter_level] else [])
      ++ [name] ++ printed_lines level chs' names'
  | _, _ => []
  end.

(** The text after line 172: a table of content written by a previous run
    is back to [TOC_MARK]. *)
Definition collapse (content : str) : str :=
  sub_from RE_TOC_FINISHED (expand_template (map TLit TOC_MARK)) None 0 None content.

(** [names.extend(...)] on the outcome of a call *)
Definition extend_names (names : list str) (r : world * outcome (list str))
    : world * outcome (list str) :=
  match r with
  | (w, Returned names') => (w, Returned (names ++ names'))
  | (w, Raised e) => (w, Raised e)
  | (w, OutOfFuel) => (w, OutOfFuel)
  end.

(** [p] occurs in [s]. *)
Definition occurs_in (p s : str) : Prop := exists a b, s = a ++ p ++ b.

(** The match of [RE_TOC_INIT]: the mark, no group. *)
Definition mark_match : rematch := {| m_text := TOC_MARK; m_groups := [] |}.

(** The length of the longest prefix of [s] whose characters satisfy [p]. *)
Fixpoint span (p : ascii -> bool) (s : str) : nat :=
  match s with
  | x :: s' => if p x then S (span p s') else O
  | [] => O
  end.

(** A text that starts with characters of the class [p] and blanks after
    them: the characters of [p] and what follows the blanks.  This is how
    [RE_HEADER] and [RE_NUMBERED_HEADER_NAME] read a text without line
    break. *)
Definition prefixed_parts (p : ascii -> bool) (s : str) : option (str * str) :=
  let r := drop (span p s) s in
  if (0 <? span p s)%nat && (0 <? span is_space r)%nat
  then Some (take (span p s) s, drop (span is_space r) r)
  else None.

Definition is_hash (c : ascii) : bool := ascii_eqb c "#".

(** The shape of the two anchored patterns: at the start of the text a run
    of [a] as group 1, blanks, the rest of the line as group 2, and [tail]. *)
Definition prefixed_regex (a tail : regex) : regex :=
  Seq Bol (Seq (Grp 1 (Plus a))
          (Seq (Plus (Cls is_space))
          (Seq (Grp 2 (Star (Cls is_dot))) tail))).

(** Reading a text character by character to see whether one of its lines
    is a chapter for [min_toc_level = 2]: the number of hashes read since
    the start of the line, or the rest of a line that is no chapter, or a
    chapter found. *)
Inductive line_state := ChapterFound | AtHashes (j : nat) | InLine.

Definition line_step (st : line_state) (x : ascii) : line_state :=
  match st with
  | ChapterFound => ChapterFound
  | AtHashes j =>
      if is_hash x then AtHashes (S j)
      else if ascii_eqb x NL then AtHashes 0
      else if is_space x && (2 <=? j)%nat then ChapterFound
      else InLine
  | InLine => if ascii_eqb x NL then AtHashes 0 else InLine
  end.

(** [t'] is [t] with some pieces replaced by [TOC_MARK]. *)
Inductive replaced : str -> str -> Prop :=
| replaced_nil : replaced [] []
| replaced_copy x t t' : replaced t t' -> replaced (x :: t) (x :: t')
| replaced_piece piece t t' : replaced t t' -> replaced (piece ++ t) (TOC_MARK ++ t').

(** The number of places of [s] where [p] occurs. *)
Fixpoint occurrences (p s : str) : nat :=
  match s with
  | [] => O
  | x :: s' => ((if decide (p `prefix_of` s) then 1 else 0) + occurrences p s')%nat
  end.

(** The characters the renumbering of a header adds or removes: hashes,
    blanks, digits, dots and the sign of a number.  None is in [TOC_MARK]. *)
Definition is_numbering_char (c : ascii) : bool :=
  is_hash c || is_space c || is_dot_or_digit c || ascii_eqb c "-".

(** [t'] is [t] but for pieces of numbering characters that are replaced by
    other such pieces, neither being empty. *)
Inductive renumbered : str -> str -> Prop :=
| renumbered_nil : renumbered [] []
| renumbered_copy x t t' : renumbered t t' -> renumbered (x :: t) (x :: t')
| renumbered_piece a a' t t' :
    a <> [] -> a' <> [] ->
    Forall (fun c => is_numbering_char c = true) a ->
    Forall (fun c => is_numbering_char c = true) a' ->
    renumbered t t' -> renumbered (a ++ t) (a' ++ t').

(** *** The numbers of the chapters, from their levels *)

(** The counter of level [k] after chapters of the levels [levels], in
    their order: the number of chapters of level [k] since the last chapter
    of a level below [k]. *)
Definition count_since (k : Z) (levels : list Z) : Z :=
  foldl (fun n level => if level <? k then 0 else if level =? k then n + 1 else n)
        0 levels.

(** The index of the last chapter of [levels]: the counters of the levels
    from [min_toc_level] to its own, with dots between them. *)
Definition index_of (min_toc_level : Z) (levels : list Z) : str :=
  str_join (lit ".")
    (map (fun k => str_of_Z (count_since k levels))
         (seqZ min_toc_level (default min_toc_level (last levels) - min_toc_level + 1))).

(** The indexes of the chapters of the levels [levels] that come after
    chapters of the levels [seen]. *)
Fixpoint numbering_from (min_toc_level : Z) (seen levels : list Z) : list str :=
  match levels with
  | [] => []
  | level :: levels' =>
      index_of min_toc_level (seen ++ [level])
      :: numbering_from min_toc_level (seen ++ [level]) levels'
  end.

Definition numbering (min_toc_level : Z) (levels : list Z) : list str :=
  numbering_from min_toc_level [] levels.

(** The dictionary holds the counters of the levels [seen]. *)
Definition counters_of (min_toc_level : Z) (seen : list Z) (m : gmap Z Z) : Prop :=
  forall k, m !! k = if decide (min_toc_level <= k <= default min_toc_level (last seen))
                     then Some (count_since k seen) else None.

(** An index: digits and dots, not empty. *)
Definition index_shape (index : str) : Prop :=
  index <> [] /\ Forall (fun c => is_dot_or_digit c = true) index.

(** The number of chapters whose level is more than one above the level
    before: the warnings of a pass. *)
Fixpoint level_skips (current_chapter_level : Z) (levels : list Z) : nat :=
  match levels with
  | [] => O
  | level :: levels' =>
      ((if (level >? current_chapter_level) && (level - current_chapter_level >? 1)
        then 1 else 0) + level_skips level levels')%nat
  end.

(** * Proofs *)

(** ** The dictionary of chapter indexes *)

Lemma elem_of_keys (m : gmap Z Z) (k : Z) : k ∈ keys m <-> is_Some (m !! k).
Proof.
  unfold keys. rewrite list_elem_of_fmap. split.
  - intros [[k' v] [-> Hin]]. apply elem_of_map_to_list in Hin. simpl. eauto.
  - intros [v Hv]. exists (k, v). split; [done|]. by apply elem_of_map_to_list.
Qed.

Lemma keys_empty_inv (m : gmap Z Z) : keys m = [] -> m = ∅.
Proof.
  intros H. apply map_empty. intros k. apply eq_None_not_Some.
  rewrite <- elem_of_keys, H. apply not_elem_of_nil.
Qed.

Lemma foldl_max_spec (l : list Z) (x : Z) :
  (foldl Z.max x l = x \/ foldl Z.max x l ∈ l)
  /\ x <= foldl Z.max x l /\ (forall j, j ∈ l -> j <= foldl Z.max x l).
Proof.
  revert x. induction l as [|y l IH]; intros x; simpl.
  - split; [by left|]. split; [lia|]. intros j Hj. by apply elem_of_nil in Hj.
  - destruct (IH (Z.max x y)) as (Hin & Hle & Hall).
    split; [|split].
    + destruct Hin as [Heq|Hin].
      * rewrite Heq. destruct (Z.max_spec x y) as [[_ ->]|[_ ->]];
          [right; apply list_elem_of_here | by left].
      * right. by apply list_elem_of_further.
    + lia.
    + intros j Hj. apply elem_of_cons in Hj as [->|Hj]; [lia | by apply Hall].
Qed.

Lemma max_of_returned (l : list Z) (k : Z) :
  max_of l = Returned k <-> k ∈ l /\ forall j, j ∈ l -> j <= k.
Proof.
  destruct l as [|x l]; simpl.
  - split; [done|]. intros [H _]. by apply elem_of_nil in H.
  - destruct (foldl_max_spec l x) as (Hin & Hle & Hall). split.
    + intros [= <-]. split.
      * destruct Hin as [->|Hin]; [apply list_elem_of_here | by apply list_elem_of_further].
      * intros j Hj. apply elem_of_cons in Hj as [->|Hj]; [done | by apply Hall].
    + intros [Hk Hmax]. f_equal. apply Z.le_antisymm.
      * apply Hmax. destruct Hin as [->|Hin];
          [apply list_elem_of_here | by apply list_elem_of_further].
      * apply elem_of_cons in Hk as [->|Hk]; [done | by apply Hall].
Qed.

Lemma max_of_cases (l : list Z) :
  (l = [] /\ max_of l = Raised ValueError) \/ (exists k, max_of l = Returned k).
Proof. destruct l; simpl; eauto. Qed.

Lemma max_of_keys_contiguous (lo hi : Z) (m : gmap Z Z) :
  contiguous lo hi m -> lo <= hi -> max_of (keys m) = Returned hi.
Proof.
  intros Hc Hle. apply max_of_returned. split.
  - apply elem_of_keys, Hc. lia.
  - intros j Hj. apply elem_of_keys, Hc in Hj. lia.
Qed.

Lemma lookup_foldl_delete (l : list Z) (m : gmap Z Z) (k : Z) :
  foldl (fun m key => delete key m) m l !! k = if decide (k ∈ l) then None else m !! k.
Proof.
  revert m. induction l as [|x l IH]; intros m; cbn [foldl].
  - rewrite decide_False; [done | apply not_elem_of_nil].
  - rewrite IH. destruct (decide (k ∈ l)) as [Hin|Hnin].
    + rewrite decide_True; [done | by apply list_elem_of_further].
    + destruct (decide (k = x)) as [->|Hne].
      * rewrite lookup_delete_eq, decide_True; [done | apply list_elem_of_here].
      * rewrite lookup_delete_ne by done. rewrite decide_False; [done|].
        intros H. apply elem_of_cons in H as [?|?]; done.
Qed.

Lemma lookup_close_levels (level : Z) (m : gmap Z Z) (k : Z) :
  close_levels level m !! k = if decide (k <= level) then m !! k else None.
Proof.
  unfold close_levels. rewrite lookup_foldl_delete.
  destruct (decide (k <= level)) as [Hle|Hgt].
  - rewrite decide_False; [done|]. intros H. apply list_elem_of_filter in H as [H _]. lia.
  - case_decide as Hnin; [done|].
    apply eq_None_not_Some. intros Hs. apply Hnin.
    apply list_elem_of_filter. split; [lia | by apply elem_of_keys].
Qed.

Lemma lookup_increment_level (level : Z) (m : gmap Z Z) (k : Z) :
  increment_level level m !! k
  = if decide (k = level) then Some (default 0 (m !! level) + 1) else m !! k.
Proof.
  unfold increment_level. destruct (decide (k = level)) as [->|Hne].
  - by rewrite lookup_insert_eq.
  - by rewrite lookup_insert_ne.
Qed.

(** The loop that opens levels: with fuel for [level - key] rounds it enters
    0 at every level above the largest key [key] up to [level]. *)
Lemma open_levels_loop_returned (fuel : nat) (level key : Z) (m : gmap Z Z) :
  max_of (keys m) = Returned key ->
  level - key <= Z.of_nat fuel ->
  exists m', open_levels_loop fuel level m = Returned m'
    /\ forall k, m' !! k = if decide (key < k <= level) then Some 0 else m !! k.
Proof.
  revert key m. induction fuel as [|fuel IH]; intros key m Hmax Hfuel.
  - exists m. simpl. rewrite Hmax. simpl.
    destruct (key >=? level) eqn:E; [|lia]. split; [done|].
    intros k. rewrite decide_False; [done | lia].
  - simpl. rewrite Hmax. simpl. destruct (key >=? level) eqn:E.
    + exists m. split; [done|]. intros k. rewrite decide_False; [done | lia].
    + assert (Hmax' : max_of (keys (<[key + 1 := 0]> m)) = Returned (key + 1)).
      { apply max_of_returned. apply max_of_returned in Hmax as [Hin Hall]. split.
        - apply elem_of_keys. rewrite lookup_insert_eq. eauto.
        - intros j Hj. apply elem_of_keys in Hj.
          destruct (decide (j = key + 1)) as [->|Hne]; [lia|].
          rewrite lookup_insert_ne in Hj by done.
          apply elem_of_keys, Hall in Hj. lia. }
      destruct (IH (key + 1) _ Hmax' ltac:(lia)) as (m' & Hm' & Hlook).
      exists m'. split; [done|]. intros k. rewrite Hlook.
      destruct (decide (k = key + 1)) as [->|Hne].
      * rewrite lookup_insert_eq.
        destruct (decide (key + 1 < key + 1 <= level)); [lia|].
        rewrite decide_True; [done | lia].
      * rewrite lookup_insert_ne by done.
        destruct (decide (key + 1 < k <= level)), (decide (key < k <= level));
          try done; lia.
Qed.

Lemma open_levels_returned (level key : Z) (m : gmap Z Z) :
  max_of (keys m) = Returned key ->
  exists m', open_levels level m = Returned m'
    /\ forall k, m' !! k = if decide (key < k <= level) then Some 0 else m !! k.
Proof.
  intros Hmax. unfold open_levels. rewrite Hmax.
  apply open_levels_loop_returned; [done | lia].
Qed.

Lemma open_levels_empty (level : Z) : open_levels level ∅ = Raised ValueError.
Proof. reflexivity. Qed.

Lemma open_levels_not_out_of_fuel (level : Z) (m : gmap Z Z) :
  open_levels level m <> OutOfFuel.
Proof.
  destruct (max_of_cases (keys m)) as [[Hnil Hmax]|[key Hmax]].
  - unfold open_levels. rewrite Hmax. simpl. by rewrite Hmax.
  - destruct (open_levels_returned level key m Hmax) as (m' & -> & _). done.
Qed.

Lemma contiguous_initial (lo : Z) : contiguous lo lo {[lo := 0]}.
Proof.
  intros k. destruct (decide (k = lo)) as [->|Hne].
  - rewrite lookup_singleton_eq. split; [lia | eauto].
  - rewrite lookup_singleton_ne by done. split; [by intros [? ?] | lia].
Qed.

Lemma contiguous_close_levels (lo hi level : Z) (m : gmap Z Z) :
  contiguous lo hi m -> level <= hi -> contiguous lo level (close_levels level m).
Proof.
  intros Hc Hle k. rewrite lookup_close_levels. case_decide as Hk.
  - rewrite (Hc k). lia.
  - split; [by intros [? ?] | lia].
Qed.

Lemma contiguous_open_levels (lo hi level : Z) (m : gmap Z Z) :
  contiguous lo hi m -> lo <= hi -> hi <= level ->
  exists m', open_levels level m = Returned m' /\ contiguous lo level m'
    /\ forall k, m' !! k = if decide (hi < k <= level) then Some 0 else m !! k.
Proof.
  intros Hc Hlo Hle.
  destruct (open_levels_returned level hi m) as (m' & Hm' & Hlook).
  { by eapply max_of_keys_contiguous. }
  exists m'. split; [done|]. split; [|done].
  intros k. rewrite Hlook. case_decide as Hk.
  - split; [lia | eauto].
  - rewrite (Hc k). lia.
Qed.

Lemma contiguous_increment_level (lo hi : Z) (m : gmap Z Z) :
  contiguous lo hi m -> lo <= hi -> contiguous lo hi (increment_level hi m).
Proof.
  intros Hc Hle k. rewrite lookup_increment_level. case_decide as Hk.
  - subst k. split; [lia | eauto].
  - apply Hc.
Qed.

(** ** One header *)

Lemma get_new_chapter_name_eq (name : str) (m : gmap Z Z) :
  get_new_chapter_name name m = Returned (dotted_index m ++ lit " " ++ clean_name name).
Proof. reflexivity. Qed.

Arguments lit : simpl never.
Arguments warning : simpl never.
Arguments str_mul : simpl never.
Arguments dotted_index : simpl never.
Arguments clean_name : simpl never.
Arguments close_levels : simpl never.
Arguments open_levels : simpl never.
Arguments increment_level : simpl never.
Arguments str_of_Z : simpl never.
Arguments get_new_chapter_name : simpl never.
Arguments finditer : simpl never.

(** What [process_header] does, by the outcome of the update of the
    dictionary. *)
Lemma process_header_eq (start cur : Z) (rec : Z -> Z -> M (list str))
    (i level : Z) (name : str) (w : world) :
  process_header start cur rec i level name w
  = match step_indexes cur level (chapter_indexes w) with
    | Returned m' =>
        cons_name (listed_name name m' w)
                  (rec (start + i + 1) level (world_after_header cur level name m' w))
    | Raised e => (world_after_warning cur level name w, Raised e)
    | OutOfFuel => (world_after_warning cur level name w, OutOfFuel)
    end.
Proof.
  unfold step_indexes, process_header, world_after_header, listed_name, header_line,
    world_after_warning, cons_name.
  destruct w as [m nc out].
  unfold bind, ret, lift, get_indexes, set_indexes, print, output_new_content,
    new_content_append. cbn [chapter_indexes new_content stdout] in *.
  destruct (level <? cur) eqn:E1.
  - replace (level >? cur) with false by lia.
    destruct nc as [l|]; cbn; rewrite get_new_chapter_name_eq; cbn;
      destruct (rec _ _ _) as [w2 [names|e|]]; reflexivity.
  - destruct (level >? cur) eqn:E2; cbn [andb].
    + destruct (open_levels level m) as [m1|e|] eqn:E3;
        destruct (level - cur >? 1) eqn:E4; cbn;
        rewrite ?get_new_chapter_name_eq, <- ?app_assoc, ?app_nil_r; try reflexivity;
        destruct nc as [l|]; cbn; destruct (rec _ _ _) as [w2 [names|e'|]]; reflexivity.
    + destruct nc as [l|]; cbn; rewrite get_new_chapter_name_eq; cbn;
      destruct (rec _ _ _) as [w2 [names|e|]]; reflexivity.
Qed.

Lemma for_mach_eq (start cur min : Z) (rec : Z -> Z -> M (list str)) (i : Z)
    (machs : list rematch) :
  for_mach start cur min rec i machs
  = match first_chapter min machs with
    | Some (level, name) =>
        names <- process_header start cur rec i level name ;; ret (Some names)
    | None => ret None
    end.
Proof.
  induction machs as [|mach machs IH]; cbn [for_mach first_chapter]; [done|].
  destruct (_ <? min); done.
Qed.

(** One round of the outer loop. *)
Lemma for_line_cons (start cur min : Z) (rec : Z -> Z -> M (list str)) (i : Z)
    (line : str) (lines : list str) (w : world) :
  for_line start cur min rec i (line :: lines) w
  = match chapter_of min line with
    | Some (level, name) => process_header start cur rec i level name w
    | None => for_line start cur min rec (i + 1) lines (world_after_line line w)
    end.
Proof.
  cbn [for_line]. rewrite for_mach_eq. unfold chapter_of.
  destruct (first_chapter min (finditer RE_HEADER line)) as [[level name]|].
  - unfold bind, ret. destruct (process_header _ _ _ _ _ _ _) as [w' [names|e|]]; done.
  - unfold bind, ret, output_new_content, new_content_append, world_after_line.
    destruct w as [m [l|] out]; done.
Qed.

(** ** The recursion *)

Lemma skip_n_from_drop {T} (l : list T) (i n : Z) :
  skip_n_from i l n = drop (Z.to_nat (n - i)) l.
Proof.
  revert i. induction l as [|x l IH]; intros i; cbn [skip_n_from].
  - by rewrite drop_nil.
  - destruct (i <? n) eqn:E.
    + rewrite IH. replace (Z.to_nat (n - i)) with (S (Z.to_nat (n - (i + 1)))) by lia.
      done.
    + replace (Z.to_nat (n - i)) with O by lia. cbn [drop]. f_equal.
      rewrite IH. replace (Z.to_nat (n - (i + 1))) with O by lia. done.
Qed.

Lemma skip_n_drop {T} (l : list T) (n : Z) : skip_n l n = drop (Z.to_nat n) l.
Proof. unfold skip_n. rewrite skip_n_from_drop. by rewrite Z.sub_0_r. Qed.

Lemma skip_n_nonempty {T} (l : list T) (n : Z) :
  skip_n l n <> [] -> n < Z.of_nat (length l).
Proof.
  rewrite skip_n_drop. intros H.
  destruct (decide (length l <= Z.to_nat n)%nat) as [Hle|Hgt]; [|lia].
  by rewrite drop_ge in H.
Qed.

Lemma step_indexes_not_out_of_fuel (cur level : Z) (m : gmap Z Z) :
  step_indexes cur level m <> OutOfFuel.
Proof.
  unfold step_indexes. destruct (level <? cur); [done|].
  destruct (level >? cur); [|done].
  pose proof (open_levels_not_out_of_fuel level m) as H.
  destruct (open_levels level m); done.
Qed.

(** The outer loop calls [rec] at indexes beyond [start + i] only. *)
Lemma for_line_congr (start cur min : Z) (rec1 rec2 : Z -> Z -> M (list str))
    (lines : list str) :
  forall (i : Z) (w : world),
  (forall j level w', i <= j -> rec1 (start + j + 1) level w' = rec2 (start + j + 1) level w') ->
  for_line start cur min rec1 i lines w = for_line start cur min rec2 i lines w.
Proof.
  induction lines as [|line lines IH]; intros i w Hrec; [done|].
  rewrite !for_line_cons. destruct (chapter_of min line) as [[level name]|].
  - rewrite !process_header_eq. destruct (step_indexes _ _ _); [|done..].
    by rewrite Hrec.
  - apply IH. intros j level w' Hj. apply Hrec. lia.
Qed.

Lemma for_line_fuel (start cur min : Z) (rec : Z -> Z -> M (list str))
    (lines : list str) :
  forall (i : Z) (w : world),
  (forall j level w', i <= j -> (rec (start + j + 1) level w').2 <> OutOfFuel) ->
  (for_line start cur min rec i lines w).2 <> OutOfFuel.
Proof.
  induction lines as [|line lines IH]; intros i w Hrec; [done|].
  rewrite for_line_cons. destruct (chapter_of min line) as [[level name]|].
  - rewrite process_header_eq.
    pose proof (step_indexes_not_out_of_fuel cur level (chapter_indexes w)) as Hs.
    destruct (step_indexes _ _ _) as [m'|e|]; [|done..].
    specialize (Hrec i level (world_after_header cur level name m' w) ltac:(lia)).
    unfold cons_name. destruct (rec _ _ _) as [w2 [names|e|]]; done.
  - apply IH. intros j level w' Hj. apply Hrec. lia.
Qed.

Lemma depth_bound_next (lines : list str) (start j : Z) :
  start < Z.of_nat (length lines) -> 0 <= j ->
  (depth_bound lines (start + j + 1) < depth_bound lines start)%nat.
Proof. unfold depth_bound. lia. Qed.

(** With fuel for [depth_bound] nested calls the fuel is never spent... *)
Lemma get_chapter_names_rec_fuel (fuel : nat) :
  forall (lines : list str) (start cur min : Z) (w : world),
  (depth_bound lines start <= fuel)%nat ->
  (get_chapter_names_rec fuel lines start cur min w).2 <> OutOfFuel.
Proof.
  induction fuel as [|fuel IH]; intros lines start cur min w Hfuel.
  - unfold depth_bound in Hfuel. lia.
  - cbn [get_chapter_names_rec].
    destruct (decide (skip_n lines start = [])) as [->|Hne]; [done|].
    apply skip_n_nonempty in Hne. apply for_line_fuel.
    intros j level w' Hj. apply IH.
    pose proof (depth_bound_next lines start j Hne Hj). lia.
Qed.

(** ... and more fuel changes nothing. *)
Lemma get_chapter_names_rec_more_fuel (fuel1 : nat) :
  forall (fuel2 : nat) (lines : list str) (start cur min : Z) (w : world),
  (depth_bound lines start <= fuel1)%nat -> (depth_bound lines start <= fuel2)%nat ->
  get_chapter_names_rec fuel1 lines start cur min w
  = get_chapter_names_rec fuel2 lines start cur min w.
Proof.
  induction fuel1 as [|fuel1 IH]; intros fuel2 lines start cur min w H1 H2.
  - unfold depth_bound in H1. lia.
  - destruct fuel2 as [|fuel2]; [unfold depth_bound in H2; lia|].
    cbn [get_chapter_names_rec].
    destruct (decide (skip_n lines start = [])) as [->|Hne]; [done|].
    apply skip_n_nonempty in Hne. apply for_line_congr.
    intros j level w' Hj.
    pose proof (depth_bound_next lines start j Hne Hj).
    apply IH; lia.
Qed.

(** The equation of the recursion: a call is the outer loop over the lines
    from [start_line_index] on, with the calls of [get_chapter_names] in it. *)
Lemma get_chapter_names_in_eq (lines : list str) (start cur min : Z) (w : world) :
  get_chapter_names_in lines start cur min w
  = for_line start (Z.max min cur) min
      (fun start' level => get_chapter_names_in lines start' level min)
      0 (skip_n lines start) w.
Proof.
  unfold get_chapter_names_in at 1. unfold depth_bound at 1.
  cbn [get_chapter_names_rec].
  destruct (decide (skip_n lines start = [])) as [->|Hne]; [done|].
  apply skip_n_nonempty in Hne. apply for_line_congr.
  intros j level w' Hj. unfold get_chapter_names_in.
  pose proof (depth_bound_next lines start j Hne Hj) as Hlt. unfold depth_bound in Hlt.
  apply get_chapter_names_rec_more_fuel; unfold depth_bound; lia.
Qed.

Lemma get_chapter_names_in_fuel (lines : list str) (start cur min : Z) (w : world) :
  (get_chapter_names_in lines start cur min w).2 <> OutOfFuel.
Proof. by apply get_chapter_names_rec_fuel. Qed.

Lemma first_chapter_level (min level : Z) (name : str) (machs : list rematch) :
  first_chapter min machs = Some (level, name) -> min <= level.
Proof.
  induction machs as [|mach machs IH]; cbn [first_chapter]; [done|].
  destruct (_ <? min) eqn:E; [done|]. intros [= <- _]. by apply Z.ltb_ge.
Qed.

Lemma chapter_of_level (min level : Z) (name line : str) :
  chapter_of min line = Some (level, name) -> min <= level.
Proof. apply first_chapter_level. Qed.

Lemma for_line_scan (lines : list str) (start cur min : Z) (rest : list str) :
  forall (i : Z) (w : world),
  0 <= start -> 0 <= i ->
  drop (Z.to_nat (start + i)) lines = rest ->
  (forall j level w', i <= j ->
     get_chapter_names_in lines (start + j + 1) level min w'
     = scan_lines (Z.max min level) min (drop (Z.to_nat (start + j + 1)) lines) w') ->
  for_line start cur min (fun start' level => get_chapter_names_in lines start' level min)
    i rest w
  = scan_lines cur min rest w.
Proof.
  induction rest as [|line rest IH]; intros i w Hstart Hi Hdrop Hrec; [done|].
  assert (Hrest : drop (Z.to_nat (start + i + 1)) lines = rest).
  { replace (Z.to_nat (start + i + 1)) with (Z.to_nat (start + i) + 1)%nat by lia.
    by rewrite <- drop_drop, Hdrop. }
  rewrite for_line_cons. cbn [scan_lines].
  destruct (chapter_of min line) as [[level name]|] eqn:Hch.
  - rewrite process_header_eq. destruct (step_indexes _ _ _) as [m'|e|]; [|done..].
    rewrite Hrec by lia. rewrite Hrest.
    apply chapter_of_level in Hch. by rewrite Z.max_r.
  - apply IH; [done | lia | by rewrite Z.add_assoc |].
    intros j level w' Hj. apply Hrec. lia.
Qed.

(** The recursion is a loop over the lines. *)
Lemma get_chapter_names_in_scan (lines : list str) (start cur min : Z) (w : world) :
  0 <= start ->
  get_chapter_names_in lines start cur min w
  = scan_lines (Z.max min cur) min (drop (Z.to_nat start) lines) w.
Proof.
  intros Hstart.
  remember (Z.to_nat (Z.of_nat (length lines) - start)) as n eqn:Hn.
  revert start cur w Hstart Hn.
  induction (lt_wf n) as [n _ IH]. intros start cur w Hstart Hn.
  rewrite get_chapter_names_in_eq, skip_n_drop.
  destruct (decide (Z.of_nat (length lines) <= start)) as [Hge|Hlt].
  - rewrite drop_ge by lia. done.
  - apply for_line_scan; [done | done | by rewrite Z.add_0_r |].
    intros j level w' Hj.
    eapply (IH (Z.to_nat (Z.of_nat (length lines) - (start + j + 1)))); [lia | lia | done].
Qed.

(** ** Regular expressions *)

Lemma elem_of_seq_results (xs : list (str * groups)) (prev : option ascii) (s : str)
    (k : option ascii -> str -> list (str * groups)) (c : str) (g : groups) :
  (c, g) ∈ seq_results xs prev s k <->
  exists c1 g1 c2 g2, (c1, g1) ∈ xs
    /\ (c2, g2) ∈ k (prev_after prev c1) (drop (length c1) s)
    /\ c = c1 ++ c2 /\ g = g2 ++ g1.
Proof.
  unfold seq_results. rewrite list_elem_of_In, in_flat_map. split.
  - intros [[c1 g1] [Hin1 Hin2]]. apply list_elem_of_In, list_elem_of_fmap in Hin2.
    destruct Hin2 as [[c2 g2] [[= -> ->] Hin2]].
    exists c1, g1, c2, g2. by rewrite list_elem_of_In.
  - intros (c1 & g1 & c2 & g2 & Hin1 & Hin2 & -> & ->).
    exists (c1, g1). split; [by apply list_elem_of_In|].
    apply list_elem_of_In, list_elem_of_fmap. by exists (c2, g2).
Qed.

Lemma star_results_sound (ml : bool) (r : regex) (n : nat) :
  (forall prev s c g, (c, g) ∈ rmatch ml r prev s -> matches ml r prev s c g) ->
  forall prev s c g,
  (c, g) ∈ star_results (rmatch ml r) n prev s -> matches ml (Star r) prev s c g.
Proof.
  intros Hr. induction n as [|n IH]; intros prev s c g; cbn [star_results].
  - intros [= -> ->]%list_elem_of_singleton. constructor.
  - rewrite elem_of_app, elem_of_seq_results.
    intros [(c1 & g1 & c2 & g2 & Hin1 & Hin2 & -> & ->) | [= -> ->]%list_elem_of_singleton];
      [|constructor].
    apply list_elem_of_filter in Hin1 as [Hne Hin1]. constructor; auto.
Qed.

(** Every result of [rmatch] is a match. *)
Lemma rmatch_sound (ml : bool) (r : regex) :
  forall prev s c g, (c, g) ∈ rmatch ml r prev s -> matches ml r prev s c g.
Proof.
  induction r as [| |a|p|r1 IH1 r2 IH2|r1 IH1 r2 IH2|r IH|n r IH];
    intros prev s c g; cbn [rmatch].
  - destruct (at_bol ml prev) eqn:E; [|by intros ?%elem_of_nil].
    intros [= -> ->]%list_elem_of_singleton. by constructor.
  - destruct (at_eol ml s) eqn:E; [|by intros ?%elem_of_nil].
    intros [= -> ->]%list_elem_of_singleton. by constructor.
  - destruct s as [|x s]; [by intros ?%elem_of_nil|].
    unfold ascii_eqb. case_bool_decide as E; [|by intros ?%elem_of_nil].
    intros [= -> ->]%list_elem_of_singleton. subst. constructor.
  - destruct s as [|x s]; [by intros ?%elem_of_nil|].
    destruct (p x) eqn:E; [|by intros ?%elem_of_nil].
    intros [= -> ->]%list_elem_of_singleton. by constructor.
  - rewrite elem_of_seq_results.
    intros (c1 & g1 & c2 & g2 & Hin1 & Hin2 & -> & ->). constructor; auto.
  - rewrite elem_of_app. intros [H|H]; [apply matches_alt_l | apply matches_alt_r]; auto.
  - by apply star_results_sound.
  - intros ([c' g'] & [= -> ->] & Hin)%list_elem_of_fmap. constructor. auto.
Qed.

Lemma matches_prefix (ml : bool) (r : regex) (prev : option ascii) (s c : str) (g : groups) :
  matches ml r prev s c g -> s = c ++ drop (length c) s.
Proof.
  induction 1; cbn; try done.
  - rewrite length_app, <- drop_drop, <- app_assoc. by rewrite <- IHmatches2, <- IHmatches1.
  - rewrite length_app, <- drop_drop, <- app_assoc. by rewrite <- IHmatches2, <- IHmatches1.
Qed.

Lemma matches_star_cls (ml : bool) (p : ascii -> bool) (prev : option ascii)
    (s c : str) (g : groups) :
  matches ml (Star (Cls p)) prev s c g -> Forall (fun x => p x = true) c /\ g = [].
Proof.
  remember (Star (Cls p)) as r eqn:Hr. induction 1; try discriminate.
  - done.
  - injection Hr as ->. destruct (IHmatches2 eq_refl) as [Hall ->].
    inversion H0; subst. split; [by constructor | done].
Qed.

Lemma matches_star_chr (ml : bool) (a : ascii) (prev : option ascii)
    (s c : str) (g : groups) :
  matches ml (Star (Chr a)) prev s c g -> Forall (fun x => x = a) c /\ g = [].
Proof.
  remember (Star (Chr a)) as r eqn:Hr. induction 1; try discriminate.
  - done.
  - injection Hr as ->. destruct (IHmatches2 eq_refl) as [Hall ->].
    inversion H0; subst. split; [by constructor | done].
Qed.

Ltac inv_matches :=
  repeat match goal with
  | H : matches _ (Seq _ _) _ _ _ _ |- _ => inversion H; subst; clear H
  | H : matches _ (Plus _) _ _ _ _ |- _ => unfold Plus in H
  | H : matches _ (Grp _ _) _ _ _ _ |- _ => inversion H; subst; clear H
  | H : matches _ (Chr _) _ _ _ _ |- _ => inversion H; subst; clear H
  | H : matches _ (Cls _) _ _ _ _ |- _ => inversion H; subst; clear H
  | H : matches _ Bol _ _ _ _ |- _ => inversion H; subst; clear H
  | H : matches _ Eol _ _ _ _ |- _ => inversion H; subst; clear H
  | H : matches _ (Star (Cls _)) _ _ _ _ |- _ => apply matches_star_cls in H as [? ->]
  | H : matches _ (Star (Chr _)) _ _ _ _ |- _ => apply matches_star_chr in H as [? ->]
  end.

(** The matches of [RE_HEADER]: hashes, blanks, a name without line break,
    blanks, at the start of the text and up to its end. *)
Lemma RE_HEADER_matches_inv (prev : option ascii) (s c : str) (g : groups) :
  matches false (p_regex RE_HEADER) prev s c g ->
  exists h w d w2,
    c = h ++ w ++ d ++ w2 /\ g = [(2%nat, d); (1%nat, h)]
    /\ h <> [] /\ Forall (fun x => x = "#"%char) h
    /\ w <> [] /\ Forall (fun x => is_space x = true) w
    /\ Forall (fun x => is_dot x = true) d
    /\ Forall (fun x => is_space x = true) w2
    /\ prev = None.
Proof.
  cbn [RE_HEADER p_regex]. intros H. inv_matches.
  exists ("#"%char :: c8), (x :: c7), c3, c4. cbn. rewrite app_nil_r.
  repeat split; try done; try by constructor.
  by destruct prev.
Qed.

Lemma match_here_matches (p : pattern) (prev : option ascii) (s : str) (m : rematch) :
  match_here p prev s = Some m ->
  matches (p_multiline p) (p_regex p) prev s (m_text m) (m_groups m).
Proof.
  unfold match_here. destruct (rmatch _ _ _ _) as [|[c g] l] eqn:E; [done|].
  intros [= <-]. apply rmatch_sound. rewrite E. apply list_elem_of_here.
Qed.

Lemma finditer_from_match_here (p : pattern) (s : str) :
  forall (skip : nat) (prev : option ascii) (m : rematch),
  m ∈ finditer_from p skip prev s -> exists prev' s', match_here p prev' s' = Some m.
Proof.
  induction s as [|x s IH]; intros skip prev m; destruct skip as [|skip];
    cbn [finditer_from].
  - destruct (match_here p prev []) as [m'|] eqn:E; [|by intros ?%elem_of_nil].
    intros ->%list_elem_of_singleton. eauto.
  - by intros ?%elem_of_nil.
  - destruct (match_here p prev (x :: s)) as [m'|] eqn:E.
    + intros [->|Hin]%elem_of_cons; eauto.
    + eauto.
  - eauto.
Qed.

(** The level of a header is 1 at least. *)
Lemma RE_HEADER_level (line : str) (mach : rematch) :
  mach ∈ finditer RE_HEADER line -> 1 <= Z.of_nat (length (group mach 1)).
Proof.
  intros (prev & s & Hm%match_here_matches)%finditer_from_match_here.
  apply RE_HEADER_matches_inv in Hm as (h & w & d & w2 & _ & Hg & Hh & _).
  unfold group. rewrite Hg. cbn. destruct h; [done | cbn; lia].
Qed.

Lemma first_chapter_level_pos (min level : Z) (name : str) (machs : list rematch) :
  (forall mach, mach ∈ machs -> 1 <= Z.of_nat (length (group mach 1))) ->
  first_chapter min machs = Some (level, name) -> 1 <= level.
Proof.
  induction machs as [|mach machs IH]; cbn [first_chapter]; [done|]. intros Hall.
  destruct (_ <? min) eqn:E.
  - apply IH. intros m Hm. apply Hall. by apply list_elem_of_further.
  - intros [= <- _]. apply Hall, list_elem_of_here.
Qed.

Lemma chapter_of_level_pos (min level : Z) (name line : str) :
  chapter_of min line = Some (level, name) -> 1 <= level.
Proof. apply first_chapter_level_pos. intros mach. apply RE_HEADER_level. Qed.

(** ** The pass over the lines *)

Lemma step_indexes_inv (min cur level : Z) (m : gmap Z Z) :
  indexes_inv min cur m -> min <= level -> 1 <= level ->
  exists m', step_indexes cur level m = Returned m' /\ contiguous min level m'.
Proof.
  intros (top & Hc & Hmin & Htop & Hcur) Hlevel Hpos. unfold step_indexes.
  destruct (level <? cur) eqn:E1.
  - eexists. split; [done|]. apply contiguous_increment_level; [|done].
    eapply contiguous_close_levels; [done | lia].
  - destruct (level >? cur) eqn:E2.
    + destruct (contiguous_open_levels min top level m) as (m' & -> & Hc' & _);
        [done | done | lia |].
      eexists. split; [done|]. by apply contiguous_increment_level.
    + assert (level = cur) as -> by lia. assert (top = cur) as -> by lia.
      eexists. split; [done|]. by apply contiguous_increment_level.
Qed.

Lemma indexes_inv_contiguous (min level : Z) (m : gmap Z Z) :
  contiguous min level m -> min <= level -> indexes_inv min level m.
Proof. intros Hc Hle. exists level. split; [done|]. split; [done|]. split; [lia | by left]. Qed.

Lemma indexes_inv_initial (min : Z) : indexes_inv min (Z.max min 0) {[min := 0]}.
Proof.
  exists min. split; [apply contiguous_initial|]. lia.
Qed.

Lemma chapters_cons (min : Z) (line : str) (lines : list str) :
  chapters min (line :: lines)
  = match chapter_of min line with
    | Some ch => ch :: chapters min lines
    | None => chapters min lines
    end.
Proof. unfold chapters. cbn [omap list_omap]. by destruct (chapter_of min line). Qed.

Lemma indexes_trace_cons (cur level : Z) (m m' : gmap Z Z) (levels : list Z) :
  step_indexes cur level m = Returned m' ->
  indexes_trace cur m (level :: levels) = m' :: indexes_trace level m' levels.
Proof. intros H. cbn [indexes_trace]. by rewrite H. Qed.

Lemma numbered_names_cons (cur level : Z) (name : str) (m m' : gmap Z Z)
    (chs : list (Z * str)) :
  step_indexes cur level m = Returned m' ->
  numbered_names cur m ((level, name) :: chs)
  = (dotted_index m' ++ lit " " ++ clean_name name) :: numbered_names level m' chs.
Proof.
  intros H. unfold numbered_names, dotted_indexes. cbn [map fst].
  by rewrite (indexes_trace_cons _ _ _ _ _ H).
Qed.

Lemma last_cons_default {A} (x y : A) (l : list A) :
  default x (last (y :: l)) = default y (last l).
Proof. rewrite last_cons. by destruct (last l). Qed.

(** The pass, in terms of the chapters of the document. *)
Lemma scan_lines_spec (min : Z) (lines : list str) :
  forall (cur : Z) (w : world),
  indexes_inv min cur (chapter_indexes w) ->
  let chs := chapters min lines in
  let m := chapter_indexes w in
  let names := numbered_names cur m chs in
  scan_lines cur min lines w
  = ({| chapter_indexes := default m (last (indexes_trace cur m (map fst chs)));
        new_content := (fun l => l ++ rewrite_lines min lines names) <$> new_content w;
        stdout := stdout w ++ printed_lines cur chs names |},
     Returned (if bool_decide (is_Some (new_content w)) then names else map snd chs)).
Proof.
  induction lines as [|line lines IH]; intros cur w Hinv; cbn zeta.
  - cbn. destruct w as [m [l|] out]; cbn; rewrite ?app_nil_r; reflexivity.
  - cbn [scan_lines rewrite_lines]. rewrite chapters_cons.
    destruct (chapter_of min line) as [[level name]|] eqn:Hch.
    + destruct (step_indexes_inv min cur level (chapter_indexes w)) as (m' & Hstep & Hc');
        [done | by eapply chapter_of_level | by eapply chapter_of_level_pos |].
      rewrite Hstep.
      rewrite IH by (cbn; apply indexes_inv_contiguous;
                     [done | by eapply chapter_of_level]).
      rewrite (numbered_names_cons _ _ _ _ _ _ Hstep). cbn [map fst snd].
      rewrite (indexes_trace_cons _ _ _ _ _ Hstep), last_cons_default.
      cbn [printed_lines].
      unfold cons_name, listed_name, world_after_header.
      destruct w as [m [l|] out]; cbn; rewrite <- ?app_assoc; reflexivity.
    + rewrite IH by done.
      unfold world_after_line. destruct w as [m [l|] out]; cbn;
        rewrite <- ?app_assoc; reflexivity.
Qed.

(** The first call, as [generate_file_toc] makes it: from the first line,
    with a new dictionary. *)
Lemma get_chapter_names_spec (lines : list str) (min : Z) (nc : option (list str)) :
  let chs := chapters min lines in
  let m := {[min := 0]} in
  let cur := Z.max min 0 in
  let names := numbered_names cur m chs in
  get_chapter_names lines 0 None 0 min nc
  = ({| chapter_indexes := default m (last (indexes_trace cur m (map fst chs)));
        new_content := (fun l => l ++ rewrite_lines min lines names) <$> nc;
        stdout := printed_lines cur chs names |},
     Returned (if bool_decide (is_Some nc) then names else map snd chs)).
Proof.
  cbn zeta. unfold get_chapter_names.
  rewrite get_chapter_names_in_scan by done. cbn [Z.to_nat drop default].
  rewrite scan_lines_spec by apply indexes_inv_initial. reflexivity.
Qed.

Lemma indexes_trace_length (min : Z) (levels : list Z) :
  forall (cur : Z) (m : gmap Z Z),
  indexes_inv min cur m -> Forall (fun level => min <= level /\ 1 <= level) levels ->
  length (indexes_trace cur m levels) = length levels.
Proof.
  induction levels as [|level levels IH]; intros cur m Hinv Hall; [done|].
  apply Forall_cons in Hall as [[Hmin Hpos] Hall].
  destruct (step_indexes_inv min cur level m) as (m' & Hstep & Hc); [done..|].
  rewrite (indexes_trace_cons _ _ _ _ _ Hstep). cbn [length]. f_equal.
  apply IH; [by apply indexes_inv_contiguous | done].
Qed.

Lemma chapters_levels (min : Z) (lines : list str) :
  Forall (fun level => min <= level /\ 1 <= level) (map fst (chapters min lines)).
Proof.
  induction lines as [|line lines IH]; [constructor|]. rewrite chapters_cons.
  destruct (chapter_of min line) as [[level name]|] eqn:E; [|done].
  cbn [map fst]. constructor; [|done].
  split; [by eapply chapter_of_level | by eapply chapter_of_level_pos].
Qed.

Lemma numbered_names_length (min : Z) (lines : list str) :
  length (numbered_names (Z.max min 0) {[min := 0]} (chapters min lines))
  = length (chapters min lines).
Proof.
  unfold numbered_names, dotted_indexes.
  rewrite length_zip_with, length_map.
  rewrite (indexes_trace_length min); [rewrite length_map; lia | apply indexes_inv_initial |].
  apply chapters_levels.
Qed.

Lemma Sorted_seqZ (k : nat) : forall m, Sorted Z.le (seqZ m (Z.of_nat k)).
Proof.
  induction k as [|k IH]; intros m.
  - constructor.
  - rewrite seqZ_cons by lia. replace (Z.pred (Z.of_nat (S k))) with (Z.of_nat k) by lia.
    constructor; [apply IH|].
    destruct k as [|k]; [constructor|].
    rewrite seqZ_cons by lia. constructor. lia.
Qed.

(** The keys of a contiguous dictionary, sorted, are the levels in order. *)
Lemma sorted_keys_contiguous (lo hi : Z) (m : gmap Z Z) :
  contiguous lo hi m -> sorted (keys m) = seqZ lo (hi - lo + 1).
Proof.
  intros Hc. unfold sorted.
  apply (Sorted_unique Z.le).
  - apply Sorted_merge_sort. apply _.
  - destruct (decide (0 <= hi - lo + 1)) as [Hle|Hgt].
    + rewrite <- (Z2Nat.id (hi - lo + 1)) by done. apply Sorted_seqZ.
    + replace (seqZ lo (hi - lo + 1)) with (@nil Z); [constructor|].
      unfold seqZ. replace (Z.to_nat (hi - lo + 1)) with O by lia. done.
  - rewrite merge_sort_Permutation. apply NoDup_Permutation.
    + apply NoDup_fst_map_to_list.
    + apply NoDup_seqZ.
    + intros x. rewrite elem_of_keys, elem_of_seqZ, (Hc x). lia.
Qed.

Lemma dotted_index_contiguous (lo hi : Z) (m : gmap Z Z) :
  contiguous lo hi m ->
  dotted_index m
  = str_join (lit ".") (map (fun level => str_of_Z (m !!! level)) (seqZ lo (hi - lo + 1))).
Proof. intros Hc. unfold dotted_index. by rewrite (sorted_keys_contiguous lo hi). Qed.

(** ** The claims on the numbering *)

(** C1: for every document whose chapters (headers of level 2 or more, with
    [min_toc_level = 2]) have the levels 2, 3, 3, 2, 3 in this order, the
    numbering pass returns the names numbered 1, 1.1, 1.2, 2, 2.1 in this
    order, each the dotted index, a space and the name of the header without
    its previous number, and rewrites the lines with them; each dotted index
    is the join with "." of the counters of the levels from 2 to the level
    of the chapter, in ascending order. *)
Theorem numbering_of_levels_2_3_3_2_3 (lines : list str) (nc : list str) :
  map fst (chapters 2 lines) = [2; 3; 3; 2; 3] ->
  let indexes := [lit "1"; lit "1.1"; lit "1.2"; lit "2"; lit "2.1"] in
  let names :=
    zip_with (fun index ch => index ++ lit " " ++ clean_name ch.2) indexes (chapters 2 lines) in
  let r := get_chapter_names lines 0 None 0 2 (Some nc) in
  r.2 = Returned names
  /\ new_content r.1 = Some (nc ++ rewrite_lines 2 lines names)
  /\ indexes = map dotted_index (indexes_trace 2 {[2 := 0]} [2; 3; 3; 2; 3])
  /\ Forall2 (fun m level =>
                contiguous 2 level m
                /\ dotted_index m
                   = str_join (lit ".") (map (fun k => str_of_Z (m !!! k))
                                             (seqZ 2 (level - 2 + 1))))
             (indexes_trace 2 {[2 := 0]} [2; 3; 3; 2; 3]) [2; 3; 3; 2; 3].
Proof.
  intros Hlevels indexes names r.
  assert (Hidx : dotted_indexes 2 {[2 := 0]} [2; 3; 3; 2; 3] = indexes)
    by (vm_compute; reflexivity).
  assert (Hnames : numbered_names (Z.max 2 0) {[2 := 0]} (chapters 2 lines) = names).
  { unfold numbered_names. rewrite Hlevels. change (Z.max 2 0) with 2. by rewrite Hidx. }
  subst r. rewrite get_chapter_names_spec. cbn zeta. rewrite Hnames.
  split; [done|]. split; [done|]. split; [by rewrite <- Hidx|].
  assert (Htrace : forall cur m levels, indexes_inv 2 cur m ->
            Forall (fun level => 2 <= level) levels ->
            Forall2 (fun m level =>
                contiguous 2 level m
                /\ dotted_index m
                   = str_join (lit ".") (map (fun k => str_of_Z (m !!! k))
                                             (seqZ 2 (level - 2 + 1))))
              (indexes_trace cur m levels) levels).
  { intros cur m levels. revert cur m.
    induction levels as [|level levels IH]; intros cur m Hinv Hall; [constructor|].
    apply Forall_cons in Hall as [Hlevel Hall].
    destruct (step_indexes_inv 2 cur level m) as (m' & Hstep & Hc); [done | done | lia |].
    rewrite (indexes_trace_cons _ _ _ _ _ Hstep). constructor.
    - split; [done | by apply dotted_index_contiguous].
    - apply IH; [by apply indexes_inv_contiguous | done]. }
  apply Htrace; [apply (indexes_inv_initial 2) | repeat constructor; lia].
Qed.

Lemma numbering_of_levels_2_3_3_2_3_witness :
  let lines := [lit "## Intro"; lit "### 1. Goals"; lit "text"; lit "### 7.7 Scope";
                lit "# Top"; lit "## Use"; lit "### Setup"] in
  map fst (chapters 2 lines) = [2; 3; 3; 2; 3]
  /\ (get_chapter_names lines 0 None 0 2 (Some [])).2
     = Returned [lit "1 Intro"; lit "1.1 Goals"; lit "1.2 Scope"; lit "2 Use";
                 lit "2.1 Setup"].
Proof.
  cbn zeta. split; [vm_compute; reflexivity|].
  etransitivity;
    [apply (numbering_of_levels_2_3_3_2_3 _ []); vm_compute; reflexivity|].
  vm_compute. reflexivity.
Defined.

(** C4: for every document whose chapters are a header of level 2 followed
    by a header of level 4, with no header of level 3 between them, the pass
    raises no exception: it returns the names numbered 1 and 1.0.1 (the
    missing level 3 is entered with the counter 0), and it prints, between
    the two numbered names, the warning that the level 4 of the second
    chapter is larger than the expected 3. *)
Theorem level_skip_2_4 (lines : list str) (nc : list str) :
  map fst (chapters 2 lines) = [2; 4] ->
  exists name1 name2,
    map snd (chapters 2 lines) = [name1; name2]
    /\ let r := get_chapter_names lines 0 None 0 2 (Some nc) in
       r.2 = Returned [lit "1 " ++ clean_name name1; lit "1.0.1 " ++ clean_name name2]
       /\ stdout r.1
          = [lit "1 " ++ clean_name name1;
             lit "WARN: level (4) of chapter " ++ [DQUOTE] ++ name2 ++ [DQUOTE]
             ++ lit " is larger than expected (3)";
             lit "1.0.1 " ++ clean_name name2]
       /\ indexes_trace 2 {[2 := 0]} [2; 4]
          = [{[2 := 1]}; <[4 := 1]> (<[3 := 0]> {[2 := 1]})].
Proof.
  intros Hlevels.
  destruct (chapters 2 lines) as [|[l1 name1] [|[l2 name2] [|? ?]]] eqn:Hchs;
    try discriminate.
  injection Hlevels as -> ->. exists name1, name2. split; [done|]. cbn zeta.
  rewrite get_chapter_names_spec. cbn zeta. rewrite Hchs.
  assert (Hidx : dotted_indexes 2 {[2 := 0]} [2; 4] = [lit "1"; lit "1.0.1"])
    by (vm_compute; reflexivity).
  assert (Hnames : numbered_names (Z.max 2 0) {[2 := 0]} [(2, name1); (4, name2)]
                   = [lit "1 " ++ clean_name name1; lit "1.0.1 " ++ clean_name name2]).
  { unfold numbered_names. cbn [map fst]. change (Z.max 2 0) with 2. by rewrite Hidx. }
  rewrite Hnames. split; [done|]. split; [|vm_compute; reflexivity].
  reflexivity.
Qed.

Lemma level_skip_2_4_witness :
  let lines := [lit "intro"; lit "## Install"; lit "#### Notes"] in
  map fst (chapters 2 lines) = [2; 4]
  /\ exists name1 name2,
    map snd (chapters 2 lines) = [name1; name2]
    /\ let r := get_chapter_names lines 0 None 0 2 (Some []) in
       r.2 = Returned [lit "1 " ++ clean_name name1; lit "1.0.1 " ++ clean_name name2]
       /\ stdout r.1
          = [lit "1 " ++ clean_name name1;
             lit "WARN: level (4) of chapter " ++ [DQUOTE] ++ name2 ++ [DQUOTE]
             ++ lit " is larger than expected (3)";
             lit "1.0.1 " ++ clean_name name2]
       /\ indexes_trace 2 {[2 := 0]} [2; 4]
          = [{[2 := 1]}; <[4 := 1]> (<[3 := 0]> {[2 := 1]})].
Proof.
  cbn zeta. split; [vm_compute; reflexivity|].
  apply (level_skip_2_4 _ []). vm_compute. reflexivity.
Defined.

(** ** The items of the table of content *)

Lemma str_replace_nil (old : ascii) (s : str) :
  str_replace old [] s = filter (fun x => x <> old) s.
Proof.
  unfold str_replace. induction s as [|x s IH]; [done|]. cbn [flat_map].
  rewrite IH, filter_cons. unfold ascii_eqb.
  case_bool_decide; case_decide; done.
Qed.

Lemma str_replace_char (old new : ascii) (s : str) :
  str_replace old [new] s = map (fun x => if ascii_eqb x old then new else x) s.
Proof.
  unfold str_replace. induction s as [|x s IH]; [done|]. cbn [flat_map map].
  rewrite IH. by destruct (ascii_eqb x old).
Qed.

(** C5: the anchor of an item is the numbered name with the characters ".",
    "/", "#", "-" and "&" removed, the spaces that remain turned into
    hyphens, in lower case; the item is the indentation, the name as the
    text of the link and the anchor; the name "1.2 Getting Started & Setup"
    gives the link text "1.2 Getting Started & Setup" and the anchor
    "12-getting-started--setup". *)
Theorem anchor_of_chapter_name :
  (forall chapter_name,
     chapter_link chapter_name
     = str_lower (map (fun c => if ascii_eqb c " " then "-"%char else c)
                      (filter (fun c => c ∉ lit "./#-&") chapter_name)))
  /\ (forall chapter_name,
        chapter_name_to_md_item chapter_name
        = match finditer RE_NUMBERED_HEADER_NAME chapter_name with
          | [] => Raised StopIteration
          | mach :: _ =>
              Returned (str_mul (lit "  ") (str_count "." (group mach 1))
                        ++ lit "- [" ++ chapter_name ++ lit "](#"
                        ++ chapter_link chapter_name ++ lit ")")
          end)
  /\ chapter_link (lit "1.2 Getting Started & Setup") = lit "12-getting-started--setup"
  /\ chapter_name_to_md_item (lit "1.2 Getting Started & Setup")
     = Returned (lit "  - [1.2 Getting Started & Setup](#12-getting-started--setup)").
Proof.
  split; [|split; [done|split; vm_compute; reflexivity]].
  intros chapter_name. unfold chapter_link.
  rewrite !str_replace_nil, (str_replace_char " " "-"). f_equal. f_equal.
  rewrite !list_filter_filter.
  induction chapter_name as [|c s IH]; [done|].
  rewrite !filter_cons, IH.
  assert (Hiff : c ∉ lit "./#-&" <->
                 c <> "&"%char /\ c <> "-"%char /\ c <> "#"%char /\ c <> "/"%char
                 /\ c <> "."%char).
  { unfold lit. cbn. rewrite !not_elem_of_cons. pose proof (not_elem_of_nil c). tauto. }
  repeat case_decide; tauto.
Qed.

(** ** Lines that are no chapter *)

Lemma rewrite_lines_length (min : Z) (lines : list str) :
  forall names, length names = length (chapters min lines) ->
  length (rewrite_lines min lines names) = length lines.
Proof.
  induction lines as [|line lines IH]; intros names; [done|].
  rewrite chapters_cons. cbn [rewrite_lines].
  destruct (chapter_of min line) as [[level name]|].
  - destruct names as [|n names]; [done|]. cbn [length]. intros [= H]. by rewrite IH.
  - intros H. cbn [length]. by rewrite IH.
Qed.

Lemma rewrite_lines_lookup (min : Z) (lines : list str) :
  forall names (i : nat) line,
  length names = length (chapters min lines) ->
  lines !! i = Some line -> chapter_of min line = None ->
  rewrite_lines min lines names !! i = Some line.
Proof.
  induction lines as [|l lines IH]; intros names i line; [done|].
  rewrite chapters_cons. cbn [rewrite_lines].
  destruct (chapter_of min l) as [[level name]|] eqn:E.
  - destruct names as [|n names]; [done|]. intros [= H].
    destruct i as [|i]; cbn.
    + intros [= ->]. congruence.
    + by apply IH.
  - intros H. destruct i as [|i]; cbn.
    + by intros [= ->].
    + by apply IH.
Qed.

Lemma chapters_filter (min : Z) (lines : list str) :
  chapters min (filter (fun line => is_Some (chapter_of min line)) lines)
  = chapters min lines.
Proof.
  induction lines as [|line lines IH]; [done|].
  rewrite filter_cons, (chapters_cons min line lines).
  case_decide as H.
  - rewrite chapters_cons, IH. done.
  - rewrite IH. destruct (chapter_of min line); [|done]. by destruct H.
Qed.

Lemma first_chapter_None (min : Z) (machs : list rematch) :
  first_chapter min machs = None
  <-> Forall (fun mach => Z.of_nat (length (group mach 1)) < min) machs.
Proof.
  induction machs as [|mach machs IH]; cbn [first_chapter].
  - split; [constructor | done].
  - rewrite Forall_cons. destruct (_ <? min) eqn:E.
    + rewrite IH. apply Z.ltb_lt in E. tauto.
    + apply Z.ltb_ge in E. split; [done | lia].
Qed.

Lemma re_sub_collapse (content : str) :
  re_sub RE_TOC_FINISHED TOC_MARK content 0 = Returned (collapse content).
Proof. reflexivity. Qed.

(** [generate_file_toc], with the pass in terms of the chapters. *)
Lemma generate_file_toc_eq (content : str) (title : option str) :
  let lines := split_on NL (collapse content) in
  let chs := chapters 2 lines in
  let names := numbered_names 2 {[2 := 0]} chs in
  generate_file_toc content title
  = (printed_lines 2 chs names,
     obind (list_of_map chapter_name_to_md_item names) (fun items =>
       re_sub RE_TOC_INIT (toc_content (default TOC_CHAPTER_NAME title) items)
         (str_join [NL] (rewrite_lines 2 lines names)) RE_MULTILINE)).
Proof.
  cbn zeta. unfold generate_file_toc. rewrite re_sub_collapse.
  rewrite get_chapter_names_spec. reflexivity.
Qed.

(** C6: for every document, the pass puts one line into the output buffer
    for every line of the document, and a line that is no header, or a
    header of a level below [min_toc_level], is there unchanged, at its own
    position.  Such a line gives nothing to the list of chapter names: the
    list has one name for every chapter and nothing else, it is the same for
    the document without these lines, and [generate_file_toc] makes the table
    of content from this list alone. *)
Theorem lines_that_are_no_chapter (lines : list str) (min : Z) (nc : list str) :
  let r := get_chapter_names lines 0 None 0 min (Some nc) in
  let names := numbered_names (Z.max min 0) {[min := 0]} (chapters min lines) in
  (forall line,
     chapter_of min line = None
     <-> Forall (fun mach => Z.of_nat (length (group mach 1)) < min)
                (finditer RE_HEADER line))
  /\ (exists out,
        new_content r.1 = Some (nc ++ out)
        /\ length out = length lines
        /\ forall (i : nat) line,
             lines !! i = Some line -> chapter_of min line = None ->
             out !! i = Some line)
  /\ r.2 = Returned names
  /\ length names = length (chapters min lines)
  /\ (get_chapter_names (filter (fun line => is_Some (chapter_of min line)) lines)
        0 None 0 min (Some nc)).2 = Returned names
  /\ (forall content title,
        let lines := split_on NL (collapse content) in
        let names := numbered_names 2 {[2 := 0]} (chapters 2 lines) in
        (generate_file_toc content title).2
        = obind (list_of_map chapter_name_to_md_item names) (fun items =>
            re_sub RE_TOC_INIT (toc_content (default TOC_CHAPTER_NAME title) items)
              (str_join [NL] (rewrite_lines 2 lines names)) RE_MULTILINE)).
Proof.
  cbn zeta. rewrite !get_chapter_names_spec. cbn zeta.
  rewrite chapters_filter. cbn [fst snd new_content].
  pose proof (numbered_names_length min lines) as Hlen.
  split; [intros line; apply first_chapter_None|].
  split; [|split; [done|split; [done|split; [done|]]]].
  - eexists. split; [done|]. split; [by apply rewrite_lines_length|].
    intros i line. by apply rewrite_lines_lookup.
  - intros content title. by rewrite generate_file_toc_eq.
Qed.

(** ** The invariant of the dictionary *)

Lemma scan_lines_app (min : Z) (lines1 lines2 : list str) :
  forall (cur : Z) (w : world),
  scan_lines cur min (lines1 ++ lines2) w
  = match scan_lines cur min lines1 w with
    | (w1, Returned names1) =>
        extend_names names1
          (scan_lines (default cur (last (map fst (chapters min lines1)))) min lines2 w1)
    | r => r
    end.
Proof.
  induction lines1 as [|line lines1 IH]; intros cur w.
  - cbn. by destruct (scan_lines cur min lines2 w) as [w2 [n2|e|]].
  - cbn [app scan_lines]. rewrite chapters_cons.
    destruct (chapter_of min line) as [[level name]|].
    + destruct (step_indexes _ _ _) as [m'|e|]; [|done..].
      rewrite IH. cbn [map fst]. rewrite last_cons_default.
      destruct (scan_lines level min lines1 _) as [w1 [n1|e|]]; cbn; [|done..].
      by destruct (scan_lines _ min lines2 w1) as [w2 [n2|e|]].
    + by rewrite IH.
Qed.

Lemma indexes_trace_last (min : Z) (levels : list Z) :
  forall (cur top : Z) (m : gmap Z Z),
  contiguous min top m -> indexes_inv min cur m ->
  Forall (fun level => min <= level /\ 1 <= level) levels ->
  contiguous min (default top (last levels)) (default m (last (indexes_trace cur m levels)))
  /\ indexes_inv min (default cur (last levels))
                 (default m (last (indexes_trace cur m levels))).
Proof.
  induction levels as [|level levels IH]; intros cur top m Hc Hinv Hall; [done|].
  apply Forall_cons in Hall as [[Hmin Hpos] Hall].
  destruct (step_indexes_inv min cur level m) as (m' & Hstep & Hc'); [done..|].
  rewrite (indexes_trace_cons _ _ _ _ _ Hstep), !last_cons_default.
  apply IH; [done | by apply indexes_inv_contiguous | done].
Qed.

Lemma last_level_max (min : Z) (lines : list str) :
  default (Z.max min 0) (last (map fst (chapters min lines)))
  = Z.max min (default 0 (last (map fst (chapters min lines)))).
Proof.
  destruct (last (map fst (chapters min lines))) as [level|] eqn:E; [|done]. cbn.
  pose proof (chapters_levels min lines) as Hall.
  apply last_Some_elem_of in E. rewrite Forall_forall in Hall.
  apply Hall in E. lia.
Qed.

(** C8: the keys of the dictionary of chapter indexes are the levels from
    [min_toc_level] to the deepest open level.  This holds for the dictionary
    the first call makes; deleting the keys above the level of a header,
    entering the levels up to the level of a header with 0 and incrementing
    the counter of a level keep it; and it holds at every point of the pass
    over every document: after any first part [lines1] of the lines the keys
    go from [min_toc_level] to the level of the last chapter so far
    ([min_toc_level] when there is none yet), and the pass goes on from this
    state with the call at the next line. *)
Theorem chapter_indexes_contiguous :
  (forall min, contiguous min min {[min := 0]})
  /\ (forall lo hi level m,
        contiguous lo hi m -> level < hi -> contiguous lo level (close_levels level m))
  /\ (forall lo hi level m,
        contiguous lo hi m -> lo <= hi -> hi < level ->
        exists m', open_levels level m = Returned m' /\ contiguous lo level m')
  /\ (forall lo level m,
        contiguous lo level m -> lo <= level ->
        contiguous lo level (increment_level level m))
  /\ (forall lines1 lines2 min nc,
        let r1 := get_chapter_names lines1 0 None 0 min nc in
        contiguous min (default min (last (map fst (chapters min lines1))))
                   (chapter_indexes r1.1)
        /\ get_chapter_names (lines1 ++ lines2) 0 None 0 min nc
           = match r1 with
             | (w1, Returned names1) =>
                 extend_names names1
                   (get_chapter_names_in (lines1 ++ lines2) (Z.of_nat (length lines1))
                      (default 0 (last (map fst (chapters min lines1)))) min w1)
             | _ => r1
             end).
Proof.
  split; [apply contiguous_initial|].
  split; [intros lo hi level m Hc Hlt; eapply contiguous_close_levels; [done | lia]|].
  split.
  { intros lo hi level m Hc Hlo Hlt.
    destruct (contiguous_open_levels lo hi level m) as (m' & Hm' & Hc' & _);
      [done | done | lia |]. eauto. }
  split; [intros lo level m; apply contiguous_increment_level|].
  intros lines1 lines2 min nc r1. split.
  - subst r1. rewrite get_chapter_names_spec. cbn [fst chapter_indexes].
    apply (indexes_trace_last min _ (Z.max min 0));
      [apply contiguous_initial | apply indexes_inv_initial | apply chapters_levels].
  - subst r1. unfold get_chapter_names.
    rewrite !(get_chapter_names_in_scan _ 0) by done.
    change (Z.to_nat 0) with O. rewrite !drop_0, scan_lines_app.
    destruct (scan_lines (Z.max min 0) min lines1 _) as [w1 [names1|e|]]; [|done..].
    rewrite get_chapter_names_in_scan by lia.
    rewrite Nat2Z.id, drop_app_length. by rewrite last_level_max.
Qed.

Lemma chapter_indexes_contiguous_witness :
  contiguous 2 4 (<[4 := 1]> (<[3 := 0]> {[2 := 1]}))
  /\ contiguous 2 2 (close_levels 2 (<[4 := 1]> (<[3 := 0]> {[2 := 1]}))).
Proof.
  assert (H : contiguous 2 4 (<[4 := 1]> (<[3 := 0]> {[2 := 1]}))).
  { intros k. rewrite !lookup_insert, lookup_singleton.
    repeat case_decide; split; try lia; try (intros [? ?]; done); eauto. }
  split; [done|].
  destruct chapter_indexes_contiguous as (_ & Hclose & _).
  apply (Hclose 2 4); [done | lia].
Defined.

(** ** Termination *)

Lemma max_of_keys_insert_next (m : gmap Z Z) (key : Z) :
  max_of (keys m) = Returned key ->
  max_of (keys (<[key + 1 := 0]> m)) = Returned (key + 1).
Proof.
  intros Hmax. apply max_of_returned. apply max_of_returned in Hmax as [Hin Hall]. split.
  - apply elem_of_keys. rewrite lookup_insert_eq. eauto.
  - intros j Hj. apply elem_of_keys in Hj.
    destruct (decide (j = key + 1)) as [->|Hne]; [lia|].
    rewrite lookup_insert_ne in Hj by done.
    apply elem_of_keys, Hall in Hj. lia.
Qed.

(** C10: [get_chapter_names] terminates for every list of lines, every
    start index, every dictionary and all levels: the recursion of the model
    never spends the fuel [depth_bound] gives it, more fuel changes nothing,
    every recursive call is made at an index above [start_line_index] (the
    equation of the recursion holds with recursive calls that are answered
    at larger indexes only), and the loop that enters the missing levels
    ends, each round raising the largest key by one. *)
Theorem get_chapter_names_terminates (lines : list str) (start cur min : Z)
    (ci : option (gmap Z Z)) (nc : option (list str)) (w : world) (k : nat) :
  (get_chapter_names lines start ci cur min nc).2 <> OutOfFuel
  /\ (get_chapter_names_in lines start cur min w).2 <> OutOfFuel
  /\ get_chapter_names_rec (depth_bound lines start + k) lines start cur min w
     = get_chapter_names_in lines start cur min w
  /\ get_chapter_names_in lines start cur min w
     = for_line start (Z.max min cur) min
         (fun start' level =>
            if start <? start' then get_chapter_names_in lines start' level min
            else lift OutOfFuel)
         0 (skip_n lines start) w
  /\ (forall level m,
        open_levels level m <> OutOfFuel
        /\ forall key,
             max_of (keys m) = Returned key -> key < level ->
             max_of (keys (<[key + 1 := 0]> m)) = Returned (key + 1)
             /\ open_levels level m = open_levels level (<[key + 1 := 0]> m)).
Proof.
  split; [apply get_chapter_names_in_fuel|].
  split; [apply get_chapter_names_in_fuel|].
  split; [apply get_chapter_names_rec_more_fuel; lia|].
  split.
  - rewrite get_chapter_names_in_eq. apply for_line_congr.
    intros j level w' Hj. destruct (start <? start + j + 1) eqn:E; [done | lia].
  - intros level m. split; [apply open_levels_not_out_of_fuel|].
    intros key Hmax Hlt. pose proof (max_of_keys_insert_next m key Hmax) as Hnext.
    split; [done|]. unfold open_levels. rewrite Hmax, Hnext.
    replace (Z.to_nat (level - key)) with (S (Z.to_nat (level - (key + 1)))) by lia.
    cbn [open_levels_loop]. rewrite Hmax. cbn [obind].
    destruct (key >=? level) eqn:E; [lia | done].
Qed.

(** ** A header that is not deeper than the current chapter *)

Lemma for_line_no_chapter (start cur min : Z) (rec : Z -> Z -> M (list str))
    (pre rest : list str) :
  forall (i : Z) (w : world),
  Forall (fun x => chapter_of min x = None) pre ->
  for_line start cur min rec i (pre ++ rest) w
  = for_line start cur min rec (i + Z.of_nat (length pre)) rest
      (foldl (fun w x => world_after_line x w) w pre).
Proof.
  induction pre as [|x pre IH]; intros i w Hpre.
  - cbn. by rewrite Z.add_0_r.
  - apply Forall_cons in Hpre as [Hx Hpre]. cbn [app]. rewrite for_line_cons, Hx.
    rewrite IH by done. cbn [foldl length]. f_equal. lia.
Qed.

(** C3, as the code has it: a call with [current_chapter_level = L] whose
    first chapter at or after its start index has a level [l] with
    [min_toc_level <= l <= L] does not return early.  It passes the lines
    before the header, treats the header itself (it deletes the keys above
    [l] when [l < L], increments the counter of [l], puts the name at the
    head of its result and, when there is an output buffer, the rewritten
    line into it) and goes on with the call from the next line with
    [current_chapter_level = l]; its result is the name followed by the
    result of that call, so that no loop meets the header a second time. *)
Theorem header_not_deeper_is_processed (lines pre rest : list str) (line name : str)
    (start L l min : Z) (w : world) :
  0 <= start ->
  drop (Z.to_nat start) lines = pre ++ line :: rest ->
  Forall (fun x => chapter_of min x = None) pre ->
  chapter_of min line = Some (l, name) ->
  l <= L ->
  let w' := foldl (fun w x => world_after_line x w) w pre in
  let m' := increment_level l (if l <? L then close_levels l (chapter_indexes w')
                               else chapter_indexes w') in
  min <= l
  /\ get_chapter_names_in lines start L min w
     = cons_name (listed_name name m' w')
         (get_chapter_names_in lines (start + Z.of_nat (length pre) + 1) l min
            (world_after_header L l name m' w')).
Proof.
  intros Hstart Hdrop Hpre Hch HlL w' m'.
  pose proof (chapter_of_level _ _ _ _ Hch) as Hmin. split; [done|].
  rewrite get_chapter_names_in_eq, skip_n_drop, Hdrop.
  rewrite for_line_no_chapter by done. fold w'.
  rewrite for_line_cons, Hch, process_header_eq.
  rewrite Z.max_r by lia. unfold step_indexes.
  replace (l >? L) with false by lia. rewrite Z.add_0_l.
  subst m'. by destruct (l <? L).
Qed.

Lemma header_not_deeper_is_processed_witness :
  let lines := [lit "## A"; lit "### B"; lit "## C"] in
  let w := {| chapter_indexes := <[3 := 1]> {[2 := 1]};
              new_content := Some [lit "## 1 A"; lit "### 1.1 B"];
              stdout := [] |} in
  chapter_of 2 (lit "## C") = Some (2, lit "C")
  /\ get_chapter_names_in lines 2 3 2 w
     = cons_name (lit "2 C")
         (get_chapter_names_in lines 3 2 2
            {| chapter_indexes := {[2 := 2]};
               new_content := Some [lit "## 1 A"; lit "### 1.1 B"; lit "## 2 C"];
               stdout := [lit "2 C"] |}).
Proof.
  cbn zeta. split; [vm_compute; reflexivity|].
  refine (eq_trans (proj2 (header_not_deeper_is_processed
            [lit "## A"; lit "### B"; lit "## C"] [] [] (lit "## C") (lit "C") 2 3 2 2 _
            _ _ _ _ _)) _).
  - lia.
  - reflexivity.
  - constructor.
  - vm_compute; reflexivity.
  - lia.
  - vm_compute; reflexivity.
Defined.

(** C3, the claim as it is written, fails: in the run on the lines "## A",
    "### B", "## C" the call at index 2 has [current_chapter_level = 3] and
    meets the header "## C" of level 2; it does not return an empty list and
    leave the header alone, it returns the name "2 C", having rewritten the
    line and set the counter of level 2 to 2. *)
Lemma header_not_deeper_counterexample :
  let lines := [lit "## A"; lit "### B"; lit "## C"] in
  let r := get_chapter_names lines 2 (Some (<[3 := 1]> {[2 := 1]})) 3 2
             (Some [lit "## 1 A"; lit "### 1.1 B"]) in
  chapter_of 2 (lit "## C") = Some (2, lit "C")
  /\ r.2 = Returned [lit "2 C"]
  /\ new_content r.1 = Some [lit "## 1 A"; lit "### 1.1 B"; lit "## 2 C"]
  /\ chapter_indexes r.1 = {[2 := 2]}
  /\ (get_chapter_names lines 0 None 0 2 (Some [])).2
     = Returned [lit "1 A"; lit "1.1 B"; lit "2 C"].
Proof. vm_compute. repeat split; reflexivity. Qed.

(** ** The table of content *)

Lemma parse_template_literal (ngroups : nat) (s : str) :
  BACKSLASH ∉ s -> parse_template ngroups TNormal s = Returned (map TLit s).
Proof.
  induction s as [|x s IH]; [done|]. intros Hnin. apply not_elem_of_cons in Hnin as [Hx Hs].
  cbn [parse_template]. unfold ascii_eqb. rewrite bool_decide_eq_false_2 by done.
  cbn [negb]. by rewrite IH.
Qed.

Lemma expand_template_literal (s : str) (m : rematch) :
  expand_template (map TLit s) m = s.
Proof.
  unfold expand_template. induction s as [|x s IH]; [done|]. cbn. by rewrite IH.
Qed.

Lemma sub_from_template_literal (p : pattern) (repl s : str) :
  forall count skip prev,
  sub_from p (expand_template (map TLit repl)) count skip prev s
  = sub_from p (fun _ => repl) count skip prev s.
Proof.
  induction s as [|x s IH]; intros count skip prev; destruct skip as [|skip];
    cbn [sub_from]; try done.
  - destruct (if count_left count then match_here p prev [] else None); [|done].
    by rewrite expand_template_literal.
  - destruct (if count_left count then match_here p prev (x :: s) else None) as [m|].
    + rewrite expand_template_literal. destruct (m_text m); by rewrite IH.
    + by rewrite IH.
Qed.

Lemma re_sub_literal (p : pattern) (repl s : str) (count : Z) :
  BACKSLASH ∉ repl ->
  re_sub p repl s count = Returned (sub_from p (fun _ => repl) (count_of_Z count) 0 None s).
Proof.
  intros H. unfold re_sub. rewrite parse_template_literal by done. cbn [obind].
  by rewrite sub_from_template_literal.
Qed.

Lemma split_on_nonempty (c : ascii) (s : str) : split_on c s <> [].
Proof.
  destruct s as [|x s]; [done|]. cbn [split_on].
  destruct (ascii_eqb x c); [done|]. by destruct (split_on c s).
Qed.

Lemma str_join_split_on (c : ascii) (s : str) : str_join [c] (split_on c s) = s.
Proof.
  induction s as [|x s IH]; [done|]. cbn [split_on]. unfold ascii_eqb.
  pose proof (split_on_nonempty c s) as Hne.
  destruct (split_on c s) as [|p ps] eqn:Hs; [done|].
  case_bool_decide as E.
  - subst x. cbn [str_join app] in *. by rewrite IH.
  - destruct ps as [|q ps]; cbn [str_join app] in *; by rewrite <- IH.
Qed.

Lemma rewrite_lines_no_chapter (min : Z) (lines names : list str) :
  chapters min lines = [] -> rewrite_lines min lines names = lines.
Proof.
  induction lines as [|line lines IH]; [done|]. rewrite chapters_cons.
  cbn [rewrite_lines]. destruct (chapter_of min line) as [[level name]|]; [done|].
  intros H. by rewrite IH.
Qed.

(** ** The marks that are replaced *)

Lemma rmatch_Lits (ml : bool) (p : str) (prev : option ascii) (s : str) :
  p <> [] ->
  rmatch ml (Lits p) prev s = if decide (p `prefix_of` s) then [(p, [])] else [].
Proof.
  revert prev s. induction p as [|c p IH]; intros prev s Hne; [done|].
  destruct p as [|c' p].
  - cbn [Lits rmatch]. destruct s as [|x s].
    + rewrite decide_False; [done|]. by intros [k Hk].
    + unfold ascii_eqb. case_bool_decide as E.
      * subst. rewrite decide_True; [done|]. by exists s.
      * rewrite decide_False; [done|]. intros [k Hk]. by injection Hk.
  - change (Lits (c :: c' :: p)) with (Seq (Chr c) (Lits (c' :: p))).
    cbn [rmatch]. destruct s as [|x s].
    + cbn. rewrite decide_False; [done|]. by intros [k Hk].
    + unfold ascii_eqb. case_bool_decide as E.
      * subst x. cbn [seq_results flat_map length drop]. rewrite drop_0, IH by done.
        rewrite app_nil_r.
        destruct (decide (c' :: p `prefix_of` s)) as [Hp|Hp].
        -- rewrite decide_True; [done | by apply prefix_cons].
        -- rewrite decide_False; [done|]. intros Hp'. by apply prefix_cons_inv_2 in Hp'.
      * cbn. rewrite decide_False; [done|]. intros Hp. by apply prefix_cons_inv_1 in Hp.
Qed.

Lemma match_here_mark (prev : option ascii) (s : str) :
  match_here RE_TOC_INIT prev s
  = if decide (TOC_MARK `prefix_of` s) then Some mark_match else None.
Proof.
  unfold match_here. cbn [RE_TOC_INIT p_regex p_multiline].
  rewrite rmatch_Lits by done. by case_decide.
Qed.

Lemma sub_from_count_0 (p : pattern) (repl : rematch -> str) (s : str) :
  forall prev, sub_from p repl (Some O) 0 prev s = s.
Proof. induction s as [|x s IH]; intros prev; [done|]. cbn. by rewrite IH. Qed.

Lemma occurs_in_cons (p : str) (x : ascii) (s : str) :
  occurs_in p s -> occurs_in p (x :: s).
Proof. intros (a & b & ->). by exists (x :: a), b. Qed.

(** The mark does not overlap itself: it starts nowhere in a text without
    mark that is followed by a mark. *)
Lemma mark_not_prefix (x : ascii) (seg tail : str) :
  ~ occurs_in TOC_MARK (x :: seg) ->
  ~ TOC_MARK `prefix_of` ((x :: seg) ++ TOC_MARK ++ tail).
Proof.
  intros Hocc [k Hk]. apply Hocc. unfold TOC_MARK, lit in *. cbn in Hk.
  destruct seg as [|b [|c [|d [|e seg]]]]; cbn in Hk.
  1-4: by simplify_eq.
  injection Hk as -> -> -> -> ->. by exists [], seg.
Qed.

Lemma sub_from_mark_segment (repl : rematch -> str) (n : nat) (seg tail : str) :
  forall prev,
  ~ occurs_in TOC_MARK seg ->
  sub_from RE_TOC_INIT repl (Some (S n)) 0 prev (seg ++ TOC_MARK ++ tail)
  = seg ++ repl mark_match
    ++ sub_from RE_TOC_INIT repl (Some n) 0 (Some "]"%char) tail.
Proof.
  induction seg as [|x seg IH]; intros prev Hocc.
  - cbn [app]. 
    change (TOC_MARK ++ tail)
      with ("["%char :: "T"%char :: "O"%char :: "C"%char :: "]"%char :: tail).
    cbn [sub_from count_left]. rewrite match_here_mark.
    rewrite decide_True by (by exists tail). reflexivity.
  - cbn [app sub_from count_left]. rewrite match_here_mark.
    rewrite decide_False by (by apply mark_not_prefix).
    f_equal. apply IH. intros H. by apply Hocc, occurs_in_cons.
Qed.

Lemma sub_from_marks (repl : rematch -> str) (segs : list str) (tail : str) :
  forall prev,
  Forall (fun seg => ~ occurs_in TOC_MARK seg) segs ->
  sub_from RE_TOC_INIT repl (Some (length segs)) 0 prev
    (concat (map (fun seg => seg ++ TOC_MARK) segs) ++ tail)
  = concat (map (fun seg => seg ++ repl mark_match) segs) ++ tail.
Proof.
  induction segs as [|seg segs IH]; intros prev Hall.
  - apply sub_from_count_0.
  - apply Forall_cons in Hall as [Hseg Hall]. cbn [map concat length].
    rewrite <- !app_assoc, sub_from_mark_segment by done. by rewrite IH.
Qed.

(** ** A second run *)

(** C2, at a document with two marks: the first run puts a table of content
    in the place of each mark; in the second run the pattern
    [RE_TOC_FINISHED], whose repetition is greedy, matches from the first
    [TOC_BEGIN] to the last [TOC_END], so the chapter between the two tables
    is deleted with them and the text written differs from the text of the
    first run. *)
Lemma second_run_on_two_marks :
  let content := lit "[TOC]" ++ [NL] ++ lit "## A" ++ [NL] ++ lit "[TOC]" in
  let toc := lit "$%TOC_BEGIN$" ++ [NL] ++ lit "## Table of content" ++ [NL]
             ++ lit "- [1 A](#1-a)" ++ [NL] ++ lit "$%TOC_END$" in
  let out1 := toc ++ [NL] ++ lit "## 1 A" ++ [NL] ++ toc in
  let out2 := lit "$%TOC_BEGIN$" ++ [NL] ++ lit "## Table of content" ++ [NL] ++ [NL]
              ++ lit "$%TOC_END$" in
  generate_file_toc content None = ([lit "1 A"], Returned out1)
  /\ collapse out1 = lit "[TOC]"
  /\ generate_file_toc out1 None = ([], Returned out2)
  /\ length out1 = 122%nat /\ length out2 = 44%nat.
Proof. vm_compute. repeat split; reflexivity. Qed.

(** With one mark the second run writes what the first run has written. *)
Lemma second_run_on_one_mark :
  let content := lit "[TOC]" ++ [NL] ++ lit "## A" ++ [NL] ++ lit "### 7.3 B" in
  let toc := lit "$%TOC_BEGIN$" ++ [NL] ++ lit "## Table of content" ++ [NL]
             ++ lit "- [1 A](#1-a)" ++ [NL] ++ lit "  - [1.1 B](#11-b)" ++ [NL]
             ++ lit "$%TOC_END$" in
  let out1 := toc ++ [NL] ++ lit "## 1 A" ++ [NL] ++ lit "### 1.1 B" in
  generate_file_toc content None = ([lit "1 A"; lit "1.1 B"], Returned out1)
  /\ generate_file_toc out1 None = ([lit "1 A"; lit "1.1 B"], Returned out1).
Proof. vm_compute. split; reflexivity. Qed.

(** ** The two anchored patterns on a text without line break *)

Lemma span_le (p : ascii -> bool) (s : str) : (span p s <= length s)%nat.
Proof. induction s as [|x s IH]; cbn; [lia|]. destruct (p x); cbn; lia. Qed.

Lemma take_span_Forall (p : ascii -> bool) (s : str) :
  Forall (fun x => p x = true) (take (span p s) s).
Proof.
  induction s as [|x s IH]; cbn; [constructor|].
  destruct (p x) eqn:E; cbn; [by constructor | constructor].
Qed.

Lemma span_drop_span (p : ascii -> bool) (s : str) : span p (drop (span p s) s) = O.
Proof.
  induction s as [|x s IH]; cbn; [done|]. destruct (p x) eqn:E; cbn; [done|]. by rewrite E.
Qed.

Lemma span_app_Forall (p : ascii -> bool) (a b : str) :
  Forall (fun x => p x = true) a -> span p (a ++ b) = (length a + span p b)%nat.
Proof.
  induction 1 as [|x a Hx Ha IH]; cbn; [done|]. by rewrite Hx, IH.
Qed.

Lemma span_0_cons (p : ascii -> bool) (x : ascii) (s : str) :
  p x = false -> span p (x :: s) = O.
Proof. intros H. cbn. by rewrite H. Qed.

Lemma star_results_ext (f g : option ascii -> str -> list (str * groups)) (n : nat) :
  (forall prev s, f prev s = g prev s) ->
  forall prev s, star_results f n prev s = star_results g n prev s.
Proof.
  intros Hfg. induction n as [|n IH]; intros prev s; cbn [star_results]; [done|].
  rewrite Hfg. unfold seq_results. f_equal. apply flat_map_ext. intros [c1 g1].
  by rewrite IH.
Qed.

Lemma star_results_cls_head (ml : bool) (p : ascii -> bool) (n : nat) :
  forall prev s, (length s <= n)%nat ->
  exists tail,
    star_results (rmatch ml (Cls p)) n prev s = (take (span p s) s, []) :: tail.
Proof.
  induction n as [|n IH]; intros prev s Hlen.
  - destruct s; [|cbn in Hlen; lia]. by exists [].
  - cbn [star_results]. destruct s as [|x s]; [by exists []|].
    change (rmatch ml (Cls p) prev (x :: s)) with (if p x then [([x], @nil (nat * str))] else []).
    cbn [span]. destruct (p x) eqn:E.
    + destruct (IH (prev_after prev [x]) s) as [tail Htail]; [cbn in Hlen; lia|].
      unfold nonempty_results. rewrite filter_cons, decide_True by done.
      rewrite filter_nil. cbn [seq_results flat_map length drop].
      rewrite ?drop_0, Htail. cbn. eauto.
    + unfold nonempty_results. rewrite filter_nil. cbn. eauto.
Qed.

Lemma rmatch_Chr_Cls (ml : bool) (c : ascii) (prev : option ascii) (s : str) :
  rmatch ml (Chr c) prev s = rmatch ml (Cls (fun x => ascii_eqb x c)) prev s.
Proof. by destruct s. Qed.

Lemma seq_results_head (xs : list (str * groups)) (prev : option ascii) (s : str)
    (k : option ascii -> str -> list (str * groups)) c1 g1 xs' c2 g2 ys :
  xs = (c1, g1) :: xs' ->
  k (prev_after prev c1) (drop (length c1) s) = (c2, g2) :: ys ->
  exists tail, seq_results xs prev s k = (c1 ++ c2, g2 ++ g1) :: tail.
Proof. intros -> Hk. unfold seq_results. cbn [flat_map]. rewrite Hk. cbn. eauto. Qed.

(** [p+] at the head of a text: the longest run first. *)
Lemma rmatch_Plus_head (ml : bool) (a : regex) (p : ascii -> bool) (prev : option ascii)
    (s : str) :
  (forall prev s, rmatch ml a prev s = rmatch ml (Cls p) prev s) ->
  (0 < span p s)%nat ->
  exists tail, rmatch ml (Plus a) prev s = (take (span p s) s, []) :: tail.
Proof.
  intros Ha Hspan. unfold Plus. cbn [rmatch]. rewrite Ha.
  destruct s as [|x s]; [cbn in Hspan; lia|]. cbn [span] in *.
  change (rmatch ml (Cls p) prev (x :: s)) with (if p x then [([x], @nil (nat * str))] else []).
  destruct (p x) eqn:E; [|lia].
  cbn [seq_results flat_map length drop]. rewrite ?drop_0.
  change (rmatch ml (Star a)) with (fun prev s => star_results (rmatch ml a) (length s) prev s).
  cbn beta. rewrite (star_results_ext _ (rmatch ml (Cls p))) by done.
  destruct (star_results_cls_head ml p (length s) (prev_after prev [x]) s)
    as [tail Htail]; [done|].
  rewrite Htail. cbn. eauto.
Qed.

Lemma span_is_dot_all (s : str) : NL ∉ s -> span is_dot s = length s.
Proof.
  induction s as [|x s IH]; [done|]. intros [Hx Hs]%not_elem_of_cons. cbn [span length].
  replace (is_dot x) with true; [by rewrite IH|].
  unfold is_dot, ascii_eqb. by rewrite bool_decide_eq_false_2.
Qed.

Lemma not_elem_of_drop {A} (x : A) (n : nat) (l : list A) : x ∉ l -> x ∉ drop n l.
Proof. intros H Hin. apply H. rewrite <- (take_drop n l). apply elem_of_app. by right. Qed.

Lemma rmatch_Seq (ml : bool) (r1 r2 : regex) (prev : option ascii) (s : str) :
  rmatch ml (Seq r1 r2) prev s
  = seq_results (rmatch ml r1 prev s) prev s (rmatch ml r2).
Proof. reflexivity. Qed.

Lemma rmatch_Grp (ml : bool) (n : nat) (r : regex) (prev : option ascii) (s : str) :
  rmatch ml (Grp n r) prev s = map (fun '(c, g) => (c, (n, c) :: g)) (rmatch ml r prev s).
Proof. reflexivity. Qed.

Lemma rmatch_Star (ml : bool) (r : regex) (prev : option ascii) (s : str) :
  rmatch ml (Star r) prev s = star_results (rmatch ml r) (length s) prev s.
Proof. reflexivity. Qed.

(** The match of a pattern of this shape at the start of a text without
    line break that has the parts. *)
Lemma prefixed_regex_head (a tail : regex) (p : ascii -> bool) (s h name : str) :
  (forall prev s, rmatch false a prev s = rmatch false (Cls p) prev s) ->
  (forall prev, exists t, rmatch false tail prev [] = ([], []) :: t) ->
  NL ∉ s ->
  prefixed_parts p s = Some (h, name) ->
  exists t, rmatch false (prefixed_regex a tail) None s
            = (s, [(2%nat, name); (1%nat, h)]) :: t.
Proof.
  intros Ha Htail Hnl. unfold prefixed_parts.
  set (k := span p s). set (r := drop k s). set (j := span is_space r).
  destruct (0 <? k)%nat eqn:Ek; [|done]. destruct (0 <? j)%nat eqn:Ej; [|done].
  cbn [andb]. intros [= <- <-].
  apply Nat.ltb_lt in Ek, Ej.
  assert (Hk : length (take k s) = k) by (rewrite length_take; pose proof (span_le p s); lia).
  assert (Hj : length (take j r) = j)
    by (rewrite length_take; pose proof (span_le is_space r); lia).
  set (prev1 := prev_after None (take k s)).
  set (prev2 := prev_after prev1 (take j r)).
  (* the name and the tail *)
  assert (H3 : exists t, rmatch false (Seq (Grp 2 (Star (Cls is_dot))) tail) prev2 (drop j r)
                         = (drop j r, [(2%nat, drop j r)]) :: t).
  { destruct (Htail (prev_after prev2 (drop j r))) as [t4 H4].
    destruct (star_results_cls_head false is_dot (length (drop j r)) prev2 (drop j r))
      as [t3 H3]; [done|].
    rewrite span_is_dot_all, firstn_all in H3
      by (apply not_elem_of_drop; unfold r; by apply not_elem_of_drop).
    rewrite rmatch_Seq, rmatch_Grp, rmatch_Star, H3. cbn [map].
    edestruct seq_results_head as [t Ht]; [reflexivity | | rewrite Ht].
    - rewrite drop_all. apply H4.
    - rewrite app_nil_r. cbn. eauto. }
  destruct H3 as [t3 H3].
  (* the blanks *)
  assert (H2 : exists t, rmatch false
                 (Seq (Plus (Cls is_space)) (Seq (Grp 2 (Star (Cls is_dot))) tail)) prev1 r
                 = (take j r ++ drop j r, [(2%nat, drop j r)]) :: t).
  { destruct (rmatch_Plus_head false (Cls is_space) is_space prev1 r) as [t2 H2];
      [done | done |].
    rewrite rmatch_Seq, H2.
    edestruct seq_results_head as [t Ht]; [reflexivity | | rewrite Ht].
    - fold j. rewrite Hj. apply H3.
    - cbn. eauto. }
  destruct H2 as [t2 H2]. rewrite take_drop in H2.
  (* the run of the class *)
  assert (H1 : exists t, rmatch false (Seq (Grp 1 (Plus a))
                 (Seq (Plus (Cls is_space)) (Seq (Grp 2 (Star (Cls is_dot))) tail))) None s
                 = (take k s ++ r, [(2%nat, drop j r); (1%nat, take k s)]) :: t).
  { destruct (rmatch_Plus_head false a p None s) as [t1 H1]; [done | done |].
    rewrite rmatch_Seq, rmatch_Grp, H1. cbn [map].
    edestruct seq_results_head as [t Ht]; [reflexivity | | rewrite Ht].
    - fold k. rewrite Hk. apply H2.
    - cbn. eauto. }
  destruct H1 as [t1 H1]. unfold r in H1 at 1. rewrite take_drop in H1.
  unfold prefixed_regex. rewrite rmatch_Seq.
  change (rmatch false Bol None s) with [(@nil ascii, @nil (nat * str))].
  edestruct seq_results_head as [t Ht]; [reflexivity | | rewrite Ht].
  - cbn [length drop prev_after last]. rewrite drop_0. apply H1.
  - cbn. eauto.
Qed.

(** A pattern that starts with [Bol] matches at the start of the text
    only. *)
Lemma match_here_anchored (p : pattern) (r : regex) (x : ascii) (s : str) :
  p_regex p = Seq Bol r -> p_multiline p = false -> match_here p (Some x) s = None.
Proof. intros Hr Hml. unfold match_here. by rewrite Hr, Hml. Qed.

Lemma finditer_from_anchored (p : pattern) (r : regex) (s : str) :
  p_regex p = Seq Bol r -> p_multiline p = false ->
  forall skip x, finditer_from p skip (Some x) s = [].
Proof.
  intros Hr Hml. induction s as [|y s IH]; intros skip x; destruct skip as [|skip];
    cbn [finditer_from]; rewrite ?(match_here_anchored p r) by done; eauto.
Qed.

Lemma finditer_anchored (p : pattern) (r : regex) (s : str) :
  p_regex p = Seq Bol r -> p_multiline p = false ->
  finditer p s = match match_here p None s with
                 | Some m => [m]
                 | None => []
                 end.
Proof.
  intros Hr Hml. unfold finditer. destruct s as [|x s]; cbn [finditer_from].
  - by destruct (match_here p None []).
  - destruct (match_here p None _); by rewrite (finditer_from_anchored p r).
Qed.

Lemma sub_from_anchored (p : pattern) (r : regex) (repl : rematch -> str)
    (count : option nat) (s : str) :
  p_regex p = Seq Bol r -> p_multiline p = false ->
  forall skip x, sub_from p repl count skip (Some x) s = drop skip s.
Proof.
  intros Hr Hml. induction s as [|y s IH]; intros skip x; destruct skip as [|skip];
    cbn [sub_from drop]; rewrite ?(match_here_anchored p r) by done;
    try done.
  - by destruct (count_left count).
  - destruct (count_left count); by rewrite IH.
Qed.

(** Inversion for the second anchored pattern. *)
Lemma RE_NUMBERED_HEADER_NAME_matches_inv (prev : option ascii) (s c : str) (g : groups) :
  matches false (p_regex RE_NUMBERED_HEADER_NAME) prev s c g ->
  exists h w d,
    c = h ++ w ++ d /\ g = [(2%nat, d); (1%nat, h)]
    /\ h <> [] /\ Forall (fun x => is_dot_or_digit x = true) h
    /\ w <> [] /\ Forall (fun x => is_space x = true) w
    /\ Forall (fun x => is_dot x = true) d
    /\ prev = None.
Proof.
  cbn [RE_NUMBERED_HEADER_NAME p_regex]. intros H. inv_matches.
  match goal with
  | |- context [(1%nat, [?x] ++ ?c1)] =>
      match goal with
      | |- context [([?y] ++ ?c2) ++ ?d ++ []] => exists (x :: c1), (y :: c2), d
      end
  end.
  cbn. rewrite ?app_nil_r.
  repeat split; try done; try by constructor.
  by destruct prev.
Qed.

(** A text that starts with a run of [p], then blanks, has the parts. *)
Lemma prefixed_parts_is_Some (p : ascii -> bool) (h w rest : str) :
  (forall x, p x = true -> is_space x = false) ->
  h <> [] -> Forall (fun x => p x = true) h ->
  w <> [] -> Forall (fun x => is_space x = true) w ->
  exists name, prefixed_parts p (h ++ w ++ rest) = Some (h, name).
Proof.
  intros Hdisj Hh Hph Hw Hsw. unfold prefixed_parts.
  assert (Hp0 : span p (w ++ rest) = O).
  { destruct w as [|x w]; [done|]. apply Forall_cons in Hsw as [Hx _].
    apply span_0_cons. destruct (p x) eqn:E; [|done]. apply Hdisj in E. congruence. }
  rewrite span_app_Forall, Hp0, Nat.add_0_r by done.
  rewrite drop_app_length, take_app_length.
  rewrite span_app_Forall by done.
  destruct h; [done|]. destruct w; [done|]. cbn. eauto.
Qed.

Lemma is_hash_not_space (x : ascii) : is_hash x = true -> is_space x = false.
Proof. unfold is_hash, ascii_eqb. case_bool_decide; [by subst | done]. Qed.

Lemma is_dot_or_digit_not_space (x : ascii) :
  is_dot_or_digit x = true -> is_space x = false.
Proof.
  destruct x as [b0 b1 b2 b3 b4 b5 b6 b7].
  destruct b0, b1, b2, b3, b4, b5, b6, b7; vm_compute; congruence.
Qed.

Lemma RE_HEADER_shape :
  p_regex RE_HEADER = prefixed_regex (Chr "#") (Seq (Star (Cls is_space)) Eol).
Proof. reflexivity. Qed.

Lemma RE_NUMBERED_HEADER_NAME_shape :
  p_regex RE_NUMBERED_HEADER_NAME = prefixed_regex (Cls is_dot_or_digit) Eol.
Proof. reflexivity. Qed.

(** How [RE_HEADER] reads a line without line break. *)
Lemma match_here_RE_HEADER (line : str) :
  NL ∉ line ->
  match_here RE_HEADER None line
  = match prefixed_parts is_hash line with
    | Some (h, name) => Some {| m_text := line; m_groups := [(2%nat, name); (1%nat, h)] |}
    | None => None
    end.
Proof.
  intros Hnl. unfold match_here.
  destruct (prefixed_parts is_hash line) as [[h name]|] eqn:Hparts.
  - destruct (prefixed_regex_head (Chr "#") (Seq (Star (Cls is_space)) Eol) is_hash
                line h name) as [t Ht]; [apply rmatch_Chr_Cls | by eexists | done | done |].
    cbn [RE_HEADER p_regex p_multiline]. fold (Plus (Chr "#")) (Plus (Cls is_space)).
    change (Seq Bol _) with (prefixed_regex (Chr "#") (Seq (Star (Cls is_space)) Eol)).
    by rewrite Ht.
  - destruct (rmatch _ _ _ _) as [|[c g] l] eqn:E; [done|]. exfalso.
    assert (Hin : (c, g) ∈ rmatch (p_multiline RE_HEADER) (p_regex RE_HEADER) None line)
      by (rewrite E; apply list_elem_of_here).
    apply rmatch_sound in Hin. pose proof (matches_prefix _ _ _ _ _ _ Hin) as Hline.
    apply RE_HEADER_matches_inv in Hin
      as (h & w & d & w2 & -> & _ & Hh & Hph & Hw & Hsw & _).
    destruct (prefixed_parts_is_Some is_hash h w
                (d ++ w2 ++ drop (length (h ++ w ++ d ++ w2)) line)) as [name Hname];
      [apply is_hash_not_space | done | | done | done |].
    + eapply Forall_impl; [apply Hph|]. intros x ->. done.
    + rewrite <- !app_assoc in Hline. rewrite <- Hline in Hname. congruence.
Qed.

(** How [RE_NUMBERED_HEADER_NAME] reads a name without line break. *)
Lemma match_here_RE_NUMBERED_HEADER_NAME (name : str) :
  NL ∉ name ->
  match_here RE_NUMBERED_HEADER_NAME None name
  = match prefixed_parts is_dot_or_digit name with
    | Some (h, rest) => Some {| m_text := name; m_groups := [(2%nat, rest); (1%nat, h)] |}
    | None => None
    end.
Proof.
  intros Hnl. unfold match_here.
  destruct (prefixed_parts is_dot_or_digit name) as [[h rest]|] eqn:Hparts.
  - destruct (prefixed_regex_head (Cls is_dot_or_digit) Eol is_dot_or_digit
                name h rest) as [t Ht]; [done | by eexists | done | done |].
    cbn [RE_NUMBERED_HEADER_NAME p_regex p_multiline].
    fold (Plus (Cls is_dot_or_digit)) (Plus (Cls is_space)).
    change (Seq Bol _) with (prefixed_regex (Cls is_dot_or_digit) Eol).
    by rewrite Ht.
  - destruct (rmatch _ _ _ _) as [|[c g] l] eqn:E; [done|]. exfalso.
    assert (Hin : (c, g) ∈ rmatch (p_multiline RE_NUMBERED_HEADER_NAME)
                               (p_regex RE_NUMBERED_HEADER_NAME) None name)
      by (rewrite E; apply list_elem_of_here).
    apply rmatch_sound in Hin. pose proof (matches_prefix _ _ _ _ _ _ Hin) as Hline.
    apply RE_NUMBERED_HEADER_NAME_matches_inv in Hin
      as (h & w & d & -> & _ & Hh & Hph & Hw & Hsw & _).
    destruct (prefixed_parts_is_Some is_dot_or_digit h w
                (d ++ drop (length (h ++ w ++ d)) name)) as [rest Hrest];
      [apply is_dot_or_digit_not_space | done | done | done | done |].
    rewrite <- !app_assoc in Hline. rewrite <- Hline in Hrest. congruence.
Qed.

(** The chapter a line without line break is. *)
Lemma chapter_of_no_newline (min : Z) (line : str) :
  NL ∉ line ->
  chapter_of min line
  = match prefixed_parts is_hash line with
    | Some (h, name) =>
        if Z.of_nat (length h) <? min then None else Some (Z.of_nat (length h), name)
    | None => None
    end.
Proof.
  intros Hnl. unfold chapter_of.
  rewrite (finditer_anchored RE_HEADER _ line RE_HEADER_shape eq_refl).
  rewrite match_here_RE_HEADER by done.
  by destruct (prefixed_parts is_hash line) as [[h name]|].
Qed.

(** The name without its number, for a name without line break. *)
Lemma clean_name_no_newline (name : str) :
  NL ∉ name ->
  clean_name name
  = match prefixed_parts is_dot_or_digit name with
    | Some (_, rest) => rest
    | None => name
    end.
Proof.
  intros Hnl. unfold clean_name. destruct name as [|x s].
  - cbn [sub_from count_left]. rewrite match_here_RE_NUMBERED_HEADER_NAME by done. done.
  - cbn [sub_from count_left]. rewrite match_here_RE_NUMBERED_HEADER_NAME by done.
    destruct (prefixed_parts is_dot_or_digit (x :: s)) as [[h rest]|].
    + cbn [m_text].
      rewrite (sub_from_anchored _ _ _ _ _ RE_NUMBERED_HEADER_NAME_shape eq_refl).
      rewrite drop_all, app_nil_r. unfold expand_template. cbn. by rewrite app_nil_r.
    + rewrite (sub_from_anchored _ _ _ _ _ RE_NUMBERED_HEADER_NAME_shape eq_refl).
      by rewrite drop_0.
Qed.

(** ** The collapse of a previous table makes no chapter *)

Lemma line_step_found (t : str) : foldl line_step ChapterFound t = ChapterFound.
Proof. induction t as [|x t IH]; [done|]. cbn. apply IH. Qed.

(** The state [InLine] is the one from which a chapter is found last. *)
Lemma line_step_InLine (t : str) :
  forall st, foldl line_step InLine t = ChapterFound ->
  foldl line_step st t = ChapterFound.
Proof.
  induction t as [|x t IH]; intros st; [done|]. cbn [foldl].
  destruct st as [|j|]; [intros _; apply line_step_found| |done].
  cbn [line_step]. unfold ascii_eqb. case_bool_decide as E.
  - subst x. change (is_hash NL) with false. cbn iota. done.
  - intros H. apply IH, H.
Qed.

(** A line without line break is a chapter when it starts with two hashes
    or more and a blank. *)
Lemma line_step_line (line : str) :
  NL ∉ line ->
  forall j,
  foldl line_step (AtHashes j) line = ChapterFound
  <-> (2 <= j + span is_hash line)%nat
      /\ (0 < span is_space (drop (span is_hash line) line))%nat.
Proof.
  induction line as [|x line IH]; intros Hnl j.
  - cbn. split; [done | lia].
  - apply not_elem_of_cons in Hnl as [Hx Hnl]. cbn [foldl line_step span].
    destruct (is_hash x) eqn:Eh.
    + rewrite IH by done. cbn [drop]. split; intros [? ?]; split; try done; lia.
    + unfold ascii_eqb. rewrite bool_decide_eq_false_2 by done.
      cbn [drop span]. rewrite Nat.add_0_r.
      destruct (is_space x) eqn:Es; cbn [andb].
      * destruct (2 <=? j)%nat eqn:Ej.
        -- rewrite line_step_found. apply Nat.leb_le in Ej. split; [intros _; lia | done].
        -- apply Nat.leb_gt in Ej. split; [|lia]. intros H. exfalso.
           assert (Hin : forall t, NL ∉ t -> foldl line_step InLine t = InLine).
           { clear. induction t as [|y t IH]; [done|]. intros [Hy Ht]%not_elem_of_cons.
             cbn. unfold ascii_eqb. rewrite bool_decide_eq_false_2 by done. by apply IH. }
           by rewrite Hin in H.
      * split; [|lia]. intros H. exfalso.
        assert (Hin : forall t, NL ∉ t -> foldl line_step InLine t = InLine).
        { clear. induction t as [|y t IH]; [done|]. intros [Hy Ht]%not_elem_of_cons.
          cbn. unfold ascii_eqb. rewrite bool_decide_eq_false_2 by done. by apply IH. }
        by rewrite Hin in H.
Qed.

Lemma line_step_chapter_of (line : str) :
  NL ∉ line ->
  foldl line_step (AtHashes 0) line = ChapterFound <-> is_Some (chapter_of 2 line).
Proof.
  intros Hnl. rewrite line_step_line, chapter_of_no_newline by done.
  unfold prefixed_parts. cbn [Nat.add].
  set (k := span is_hash line). set (j := span is_space (drop k line)).
  assert (Hk : length (take k line) = k)
    by (rewrite length_take; pose proof (span_le is_hash line); lia).
  clearbody j k.
  destruct (Nat.ltb_spec 0 k) as [Ek|Ek]; destruct (Nat.ltb_spec 0 j) as [Ej|Ej];
    cbn [andb].
  - rewrite Hk. destruct (Z.of_nat k <? 2) eqn:E.
    + apply Z.ltb_lt in E. split; [intros [? ?]; exfalso; lia | by intros [? ?]].
    + apply Z.ltb_ge in E. split; [eauto | lia].
  - split; [intros [? ?]; exfalso; lia | by intros [? ?]].
  - split; [intros [? ?]; exfalso; lia | by intros [? ?]].
  - split; [intros [? ?]; exfalso; lia | by intros [? ?]].
Qed.

Lemma split_on_app_no_sep (c : ascii) (pre t : str) :
  c ∉ pre ->
  split_on c (pre ++ t)
  = match split_on c t with
    | p :: ps => (pre ++ p) :: ps
    | [] => [pre]
    end.
Proof.
  induction pre as [|x pre IH]; intros Hnin.
  - cbn. pose proof (split_on_nonempty c t). by destruct (split_on c t).
  - apply not_elem_of_cons in Hnin as [Hx Hpre]. cbn [app split_on].
    unfold ascii_eqb. rewrite bool_decide_eq_false_2 by done. rewrite IH by done.
    by destruct (split_on c t).
Qed.

Lemma split_on_no_sep (c : ascii) (s : str) : c ∉ s -> split_on c s = [s].
Proof.
  intros H. pose proof (split_on_app_no_sep c s [] H) as Happ.
  rewrite app_nil_r in Happ. rewrite Happ. cbn. by rewrite app_nil_r.
Qed.

Lemma chapters_nil_cons (min : Z) (line : str) (lines : list str) :
  chapters min (line :: lines) = []
  <-> chapter_of min line = None /\ chapters min lines = [].
Proof.
  rewrite chapters_cons. destruct (chapter_of min line); [|tauto].
  split; [done | by intros [? ?]].
Qed.

(** A text has a line that is a chapter when reading it finds one. *)
Lemma line_step_chapters (t : str) :
  forall pre, NL ∉ pre ->
  foldl line_step (AtHashes 0) (pre ++ t) = ChapterFound
  <-> chapters 2 (split_on NL (pre ++ t)) <> [].
Proof.
  induction t as [|x t IH]; intros pre Hpre.
  - rewrite app_nil_r, line_step_chapter_of by done.
    rewrite split_on_no_sep by done.
    rewrite chapters_nil_cons, <- not_eq_None_Some. cbn. tauto.
  - destruct (decide (x = NL)) as [->|Hx].
    + rewrite split_on_app_no_sep by done. cbn [split_on]. unfold ascii_eqb.
      rewrite bool_decide_eq_true_2 by done. rewrite app_nil_r, chapters_nil_cons.
      rewrite foldl_app. cbn [foldl].
      pose proof (line_step_chapter_of pre Hpre) as Hline.
      specialize (IH [] ltac:(apply not_elem_of_nil)). cbn [app] in IH.
      destruct (foldl line_step (AtHashes 0) pre) as [|j|] eqn:E.
      * rewrite line_step_found. split; [|done]. intros _ [H _].
        destruct Hline as [Hline _]. specialize (Hline eq_refl). rewrite H in Hline.
        by destruct Hline.
      * replace (line_step (AtHashes j) NL) with (AtHashes 0) by done.
        rewrite IH. split; [tauto|]. intros H Hn. apply H. split; [|done].
        apply eq_None_not_Some. intros Hs. apply Hline in Hs. done.
      * replace (line_step InLine NL) with (AtHashes 0) by done.
        rewrite IH. split; [tauto|]. intros H Hn. apply H. split; [|done].
        apply eq_None_not_Some. intros Hs. apply Hline in Hs. done.
    + replace (pre ++ x :: t) with ((pre ++ [x]) ++ t) by (by rewrite <- app_assoc).
      apply IH. rewrite not_elem_of_app, not_elem_of_cons. split; [done|].
      split; [done | apply not_elem_of_nil].
Qed.

Lemma chapters_split_line_step (t : str) :
  chapters 2 (split_on NL t) = []
  <-> foldl line_step (AtHashes 0) t <> ChapterFound.
Proof.
  pose proof (line_step_chapters t [] ltac:(apply not_elem_of_nil)) as H. cbn [app] in H.
  rewrite H. destruct (chapters 2 (split_on NL t)); [tauto|].
  split; [done|]. intros Hn. by destruct Hn.
Qed.

Lemma replaced_no_chapter (t t' : str) :
  replaced t t' ->
  forall st, foldl line_step st t <> ChapterFound -> foldl line_step st t' <> ChapterFound.
Proof.
  induction 1 as [|x t t' _ IH|piece t t' _ IH]; intros st Hst; [done| |].
  - cbn [foldl] in *. by apply IH.
  - rewrite foldl_app in *.
    assert (Hin : foldl line_step InLine t <> ChapterFound).
    { intros H. apply Hst. by apply line_step_InLine. }
    assert (Hmark : foldl line_step st TOC_MARK = InLine).
    { destruct st as [|j|]; [by rewrite !line_step_found in Hst | by vm_compute..]. }
    rewrite Hmark. by apply IH.
Qed.

Lemma sub_from_replaced (p : pattern) (s : str) :
  forall count skip prev,
  replaced (drop skip s) (sub_from p (fun _ => TOC_MARK) count skip prev s).
Proof.
  induction s as [|x s IH]; intros count skip prev; destruct skip as [|skip];
    cbn [sub_from drop].
  - destruct (if count_left count then match_here p prev [] else None).
    + rewrite <- (app_nil_l []) at 1. apply replaced_piece. constructor.
    + constructor.
  - constructor.
  - assert (IH0 : forall count prev,
              replaced s (sub_from p (fun _ => TOC_MARK) count 0 prev s)).
    { intros count' prev'. specialize (IH count' 0%nat prev'). by rewrite drop_0 in IH. }
    destruct (if count_left count then match_here p prev (x :: s) else None) as [m|].
    + destruct (m_text m) as [|y t].
      * rewrite <- (app_nil_l (x :: s)) at 1. apply replaced_piece.
        apply replaced_copy, IH0.
      * rewrite <- (take_drop (length t) s) at 1.
        change (x :: take (length t) s ++ drop (length t) s)
          with ((x :: take (length t) s) ++ drop (length t) s).
        apply replaced_piece, IH.
    + apply replaced_copy, IH0.
  - apply IH.
Qed.

(** A document without chapter has none after the collapse of a previous
    table of content. *)
Lemma collapse_no_chapter (content : str) :
  chapters 2 (split_on NL content) = [] ->
  chapters 2 (split_on NL (collapse content)) = [].
Proof.
  rewrite !chapters_split_line_step. apply replaced_no_chapter.
  unfold collapse.
  pose proof (sub_from_replaced RE_TOC_FINISHED content None 0 None) as H.
  rewrite drop_0 in H.
  by rewrite sub_from_template_literal.
Qed.

(** C7: a document in which no line is a chapter (it has no header of level
    2 or more, or has none left once the table of content of a previous run
    is back to the mark) does not make the transformation fail:
    [get_chapter_names] returns the empty list and leaves the lines as they
    are, the table of content holds, between [TOC_BEGIN] and [TOC_END], only
    the heading line with the title and an empty line, no item, and the text
    written is the text with (at most 8 of) its marks replaced by this table.
    This is so for every such document with the default title, and with any
    title without backslash; with any title at all the run is what [sub]
    makes of the table as its replacement text. *)
Theorem document_without_chapters (content : str) :
  chapters 2 (split_on NL content) = []
  \/ chapters 2 (split_on NL (collapse content)) = [] ->
  let lines := split_on NL (collapse content) in
  let toc := fun title =>
    TOC_BEGIN ++ [NL] ++ lit "## " ++ title ++ [NL] ++ [NL] ++ TOC_END in
  get_chapter_names lines 0 None 0 2 (Some [])
  = ({| chapter_indexes := {[2 := 0]}; new_content := Some lines; stdout := [] |},
     Returned [])
  /\ (forall title, toc_content title [] = toc title)
  /\ generate_file_toc content None
     = ([], Returned (sub_from RE_TOC_INIT (fun _ => toc TOC_CHAPTER_NAME) (Some 8%nat)
                        0 None (collapse content)))
  /\ (forall title,
        BACKSLASH ∉ title ->
        generate_file_toc content (Some title)
        = ([], Returned (sub_from RE_TOC_INIT (fun _ => toc title) (Some 8%nat) 0 None
                           (collapse content))))
  /\ (forall title,
        generate_file_toc content (Some title)
        = ([], obind (parse_template 0 TNormal (toc title))
                 (fun template =>
                    Returned (sub_from RE_TOC_INIT (expand_template template) (Some 8%nat)
                                0 None (collapse content))))).
Proof.
  intros Hchs lines toc.
  assert (Hlines : chapters 2 lines = [])
    by (destruct Hchs as [H|H]; [by apply collapse_no_chapter | done]).
  assert (Hrun : forall title,
            generate_file_toc content title
            = ([], re_sub RE_TOC_INIT (toc (default TOC_CHAPTER_NAME title))
                     (collapse content) RE_MULTILINE)).
  { intros title. rewrite generate_file_toc_eq. cbn zeta. fold lines. rewrite Hlines.
    cbn [numbered_names dotted_indexes map fst indexes_trace zip_with printed_lines
         list_of_map obind].
    rewrite rewrite_lines_no_chapter by done. unfold lines.
    by rewrite str_join_split_on. }
  assert (Hliteral : forall title,
            BACKSLASH ∉ title ->
            re_sub RE_TOC_INIT (toc title) (collapse content) RE_MULTILINE
            = Returned (sub_from RE_TOC_INIT (fun _ => toc title) (Some 8%nat) 0 None
                          (collapse content))).
  { intros title Htitle. rewrite re_sub_literal; [done|].
    unfold toc. rewrite !not_elem_of_app. repeat split; try done; compute_done. }
  split; [|split; [done|split; [|split]]].
  - rewrite get_chapter_names_spec. cbn zeta. rewrite Hlines.
    cbn. by rewrite rewrite_lines_no_chapter.
  - rewrite Hrun. cbn [default]. rewrite Hliteral; [done | compute_done].
  - intros title Htitle. rewrite Hrun. cbn [default]. by rewrite Hliteral.
  - intros title. by rewrite Hrun.
Qed.

Lemma document_without_chapters_witness :
  let content := lit "# Title" ++ [NL] ++ lit "[TOC]" ++ [NL] ++ lit "some text" in
  chapters 2 (split_on NL content) = []
  /\ generate_file_toc content None
     = ([], Returned (lit "# Title" ++ [NL] ++ lit "$%TOC_BEGIN$" ++ [NL]
                      ++ lit "## Table of content" ++ [NL] ++ [NL] ++ lit "$%TOC_END$"
                      ++ [NL] ++ lit "some text")).
Proof.
  cbn zeta. split; [vm_compute; reflexivity|].
  refine (eq_trans (proj1 (proj2 (proj2 (document_without_chapters _ _)))) _).
  - left. vm_compute; reflexivity.
  - vm_compute; reflexivity.
Defined.

(** The title is a part of the replacement text of [sub], which reads a
    backslash in it as the start of an escape.  With the title [\1] and a
    document without chapter, [get_chapter_names] returns the empty list,
    and [sub] raises [re.error] for the reference to a group that
    [RE_TOC_INIT] does not have: nothing is written. *)
Lemma title_with_group_reference :
  let content := lit "# Title" ++ [NL] ++ lit "[TOC]" ++ [NL] ++ lit "some text" in
  let title := [BACKSLASH; "1"%char] in
  chapters 2 (split_on NL content) = []
  /\ collapse content = content
  /\ (get_chapter_names (split_on NL content) 0 None 0 2 (Some [])).2 = Returned []
  /\ toc_content title []
     = TOC_BEGIN ++ [NL] ++ lit "## " ++ title ++ [NL] ++ [NL] ++ TOC_END
  /\ generate_file_toc content (Some title) = ([], Raised ReError).
Proof. vm_compute. repeat split; reflexivity. Qed.

(** ** The marks of the renumbered text *)

Lemma renumbered_refl (t : str) : renumbered t t.
Proof. induction t; by constructor. Qed.

Lemma renumbered_app (a a' b b' : str) :
  renumbered a a' -> renumbered b b' -> renumbered (a ++ b) (a' ++ b').
Proof.
  induction 1 as [|x t t' _ IH|p p' t t' Hp Hp' Hn Hn' _ IH]; intros Hb; [done| |].
  - cbn. constructor. by apply IH.
  - rewrite <- !app_assoc. constructor; try done. by apply IH.
Qed.

(** Renumbering does not change where a text without numbering character
    starts. *)
Lemma renumbered_prefix (p : str) (t t' : str) :
  Forall (fun c => is_numbering_char c = false) p ->
  renumbered t t' -> (p `prefix_of` t <-> p `prefix_of` t').
Proof.
  intros Hp H. revert p Hp.
  induction H as [|x t t' _ IH|a a' t t' Ha Ha' Hn Hn' _ IH]; intros p Hp; [done| |].
  - destruct p as [|y p]; [split; intros _; apply prefix_nil|].
    apply Forall_cons in Hp as [_ Hp]. split; intros H.
    + pose proof (prefix_cons_inv_1 _ _ _ _ H) as ->. apply prefix_cons.
      apply IH; [done|]. by apply prefix_cons_inv_2 in H.
    + pose proof (prefix_cons_inv_1 _ _ _ _ H) as ->. apply prefix_cons.
      apply IH; [done|]. by apply prefix_cons_inv_2 in H.
  - destruct p as [|y p]; [split; intros _; apply prefix_nil|].
    apply Forall_cons in Hp as [Hy _].
    destruct a as [|x a]; [done|]. destruct a' as [|x' a']; [done|].
    apply Forall_cons in Hn as [Hx _]. apply Forall_cons in Hn' as [Hx' _].
    split; intros H; apply prefix_cons_inv_1 in H; congruence.
Qed.

Lemma TOC_MARK_no_numbering_char :
  Forall (fun c => is_numbering_char c = false) TOC_MARK.
Proof. repeat constructor. Qed.

Lemma occurrences_numbering_app (a t : str) :
  Forall (fun c => is_numbering_char c = true) a ->
  occurrences TOC_MARK (a ++ t) = occurrences TOC_MARK t.
Proof.
  induction 1 as [|x a Hx _ IH]; [done|]. cbn [app occurrences].
  rewrite decide_False, IH; [done|]. intros H. apply prefix_cons_inv_1 in H. by subst x.
Qed.

Lemma renumbered_occurrences (t t' : str) :
  renumbered t t' -> occurrences TOC_MARK t = occurrences TOC_MARK t'.
Proof.
  induction 1 as [|x t t' Ht IH|a a' t t' Ha Ha' Hn Hn' _ IH]; [done| |].
  - cbn [occurrences]. rewrite IH. f_equal.
    pose proof (renumbered_prefix TOC_MARK (x :: t) (x :: t') TOC_MARK_no_numbering_char
                  (renumbered_copy x t t' Ht)) as Hiff.
    repeat case_decide; tauto || done.
  - by rewrite !occurrences_numbering_app.
Qed.

Lemma occurs_in_cons_inv (p : str) (x : ascii) (s : str) :
  occurs_in p (x :: s) -> p `prefix_of` (x :: s) \/ occurs_in p s.
Proof.
  intros (a & b & H). destruct a as [|y a].
  - left. exists b. by rewrite H.
  - right. injection H as _ ->. by exists a, b.
Qed.

(** The first mark of a text that has one. *)
Lemma occurrences_first (s : str) :
  (0 < occurrences TOC_MARK s)%nat ->
  exists seg tail,
    s = seg ++ TOC_MARK ++ tail /\ ~ occurs_in TOC_MARK seg
    /\ occurrences TOC_MARK s = S (occurrences TOC_MARK tail).
Proof.
  induction s as [|x s IH]; cbn [occurrences]; [lia|].
  destruct (decide (TOC_MARK `prefix_of` x :: s)) as [[tail Htail]|Hnp].
  - intros _. exists [], tail. split; [done|]. split.
    + intros (a & b & H). by destruct a.
    + f_equal. cbn in Htail. injection Htail as -> ->.
      cbn [app]. repeat (cbn [occurrences]; rewrite decide_False;
                         [|intros H%prefix_cons_inv_1; done]). done.
  - cbn [Nat.add]. intros Hpos. destruct (IH Hpos) as (seg & tail & -> & Hseg & Hocc).
    exists (x :: seg), tail. split; [done|]. split; [|done].
    intros [Hp|Ho]%occurs_in_cons_inv; [|done].
    apply Hnp. destruct Hp as [k Hk]. exists (k ++ TOC_MARK ++ tail).
    change (x :: seg ++ TOC_MARK ++ tail) with ((x :: seg) ++ TOC_MARK ++ tail).
    rewrite Hk. by rewrite <- !app_assoc.
Qed.

(** The first [n] marks of a text that has [n] marks or more. *)
Lemma occurrences_split (n : nat) :
  forall s, (n <= occurrences TOC_MARK s)%nat ->
  exists segs rest,
    length segs = n /\ Forall (fun seg => ~ occurs_in TOC_MARK seg) segs
    /\ s = concat (map (fun seg => seg ++ TOC_MARK) segs) ++ rest
    /\ occurrences TOC_MARK s = (n + occurrences TOC_MARK rest)%nat.
Proof.
  induction n as [|n IH]; intros s Hn.
  - by exists [], s.
  - destruct (occurrences_first s) as (seg & tail & -> & Hseg & Hocc); [lia|].
    destruct (IH tail) as (segs & rest & Hlen & Hall & -> & Hocc'); [lia|].
    exists (seg :: segs), rest. split; [cbn; by rewrite Hlen|].
    split; [by constructor|]. split.
    + cbn [map concat]. by rewrite <- !app_assoc.
    + rewrite Hocc, Hocc'. lia.
Qed.

Lemma prefixed_parts_Some (p : ascii -> bool) (s h name : str) :
  prefixed_parts p s = Some (h, name) ->
  exists w, s = h ++ w ++ name /\ h <> [] /\ Forall (fun x => p x = true) h
            /\ w <> [] /\ Forall (fun x => is_space x = true) w.
Proof.
  unfold prefixed_parts. cbv zeta. set (k := span p s). set (r := drop k s).
  set (j := span is_space r).
  destruct (Nat.ltb_spec 0 k) as [Hk|Hk]; [|done].
  destruct (Nat.ltb_spec 0 j) as [Hj|Hj]; [|done]. cbn [andb]. intros [= <- <-].
  exists (take j r). split; [rewrite take_drop; subst r; by rewrite take_drop|].
  pose proof (span_le p s) as Hle1. pose proof (span_le is_space r) as Hle2. fold k in Hle1. fold j in Hle2.
  split; [intros H%(f_equal length); rewrite length_take in H; cbn in H; lia|].
  split; [apply take_span_Forall|].
  split; [intros H%(f_equal length); rewrite length_take in H; cbn in H; lia|].
  apply take_span_Forall.
Qed.

Lemma split_on_no_newline (c : ascii) (s : str) : Forall (fun l => c ∉ l) (split_on c s).
Proof.
  induction s as [|x s IH]; [repeat constructor; apply not_elem_of_nil|].
  cbn [split_on]. unfold ascii_eqb. case_bool_decide as E.
  - constructor; [apply not_elem_of_nil | done].
  - destruct (split_on c s) as [|l ls].
    + repeat constructor. rewrite not_elem_of_cons. split; [done | apply not_elem_of_nil].
    + apply Forall_cons in IH as [Hl Hls]. constructor; [|done].
      rewrite not_elem_of_cons. by split.
Qed.

Lemma string_of_uint_numbering (d : Decimal.uint) :
  Forall (fun c => is_numbering_char c = true) (lit (NilEmpty.string_of_uint d)).
Proof. induction d; cbn; by constructor. Qed.

Lemma str_of_Z_numbering (z : Z) :
  Forall (fun c => is_numbering_char c = true) (str_of_Z z).
Proof.
  unfold str_of_Z, NilZero.string_of_int.
  assert (H : forall d, Forall (fun c => is_numbering_char c = true)
                          (lit (NilZero.string_of_uint d))).
  { intros d. unfold NilZero.string_of_uint.
    destruct d; try apply string_of_uint_numbering. by repeat constructor. }
  destruct (Z.to_int z); [apply H|]. cbn. constructor; [done | apply H].
Qed.

Lemma str_join_numbering (l : list str) :
  Forall (Forall (fun c => is_numbering_char c = true)) l ->
  Forall (fun c => is_numbering_char c = true) (str_join (lit ".") l).
Proof.
  induction 1 as [|x l Hx Hl IH]; [constructor|]. cbn [str_join].
  destruct l as [|y l]; [done|]. rewrite !Forall_app. split; [done|]. split; [|done].
  by repeat constructor.
Qed.

Lemma dotted_index_numbering (m : gmap Z Z) :
  Forall (fun c => is_numbering_char c = true) (dotted_index m).
Proof.
  unfold dotted_index. apply str_join_numbering. apply Forall_map, Forall_true.
  intros x. apply str_of_Z_numbering.
Qed.

Lemma str_mul_hash_numbering (level : Z) :
  Forall (fun c => is_numbering_char c = true) (str_mul (lit "#") level).
Proof.
  unfold str_mul. induction (Z.to_nat level) as [|n IH]; [constructor|].
  cbn. by constructor.
Qed.

Lemma numbering_of_class (p : ascii -> bool) (s : str) :
  (forall x, p x = true -> is_numbering_char x = true) ->
  Forall (fun x => p x = true) s -> Forall (fun c => is_numbering_char c = true) s.
Proof. intros Hp H. by apply (Forall_impl _ _ _ H). Qed.

Lemma is_hash_numbering (x : ascii) : is_hash x = true -> is_numbering_char x = true.
Proof. unfold is_numbering_char. by intros ->. Qed.

Lemma is_space_numbering (x : ascii) : is_space x = true -> is_numbering_char x = true.
Proof. unfold is_numbering_char. intros ->. by rewrite orb_true_r. Qed.

Lemma is_dot_or_digit_numbering (x : ascii) :
  is_dot_or_digit x = true -> is_numbering_char x = true.
Proof. unfold is_numbering_char. intros ->. by rewrite !orb_true_r. Qed.

(** The line a chapter is rewritten to differs from the chapter by numbering
    characters only. *)
Lemma header_line_renumbered (line : str) (level : Z) (name index : str) :
  NL ∉ line -> chapter_of 2 line = Some (level, name) ->
  Forall (fun c => is_numbering_char c = true) index ->
  renumbered line (header_line level (index ++ lit " " ++ clean_name name)).
Proof.
  intros Hnl Hch Hindex. rewrite chapter_of_no_newline in Hch by done.
  destruct (prefixed_parts is_hash line) as [[h name']|] eqn:Hparts; [|done].
  destruct (Z.of_nat (length h) <? 2); [done|]. injection Hch as <- ->.
  apply prefixed_parts_Some in Hparts as (w & -> & Hh & Hph & Hw & Hpw).
  assert (Hname : NL ∉ name) by (rewrite !not_elem_of_app in Hnl; tauto).
  rewrite clean_name_no_newline by done. unfold header_line.
  set (hashes := str_mul (lit "#") (Z.of_nat (length h))).
  assert (Hhashes : Forall (fun c => is_numbering_char c = true) hashes)
    by apply str_mul_hash_numbering.
  apply (numbering_of_class _ _ is_hash_numbering) in Hph.
  apply (numbering_of_class _ _ is_space_numbering) in Hpw.
  destruct (prefixed_parts is_dot_or_digit name) as [[d rest]|] eqn:Hparts.
  - apply prefixed_parts_Some in Hparts as (w' & -> & Hd & Hpd & Hw' & Hpw').
    apply (numbering_of_class _ _ is_dot_or_digit_numbering) in Hpd.
    apply (numbering_of_class _ _ is_space_numbering) in Hpw'.
    replace (h ++ w ++ d ++ w' ++ rest) with ((h ++ w ++ d ++ w') ++ rest)
      by (by rewrite <- !app_assoc).
    replace (hashes ++ lit " " ++ index ++ lit " " ++ rest)
      with ((hashes ++ lit " " ++ index ++ lit " ") ++ rest)
      by (by rewrite <- !app_assoc).
    constructor; [by destruct h | by destruct hashes, index | | | apply renumbered_refl].
    + by rewrite !Forall_app.
    + rewrite !Forall_app. repeat split; try done; by repeat constructor.
  - replace (h ++ w ++ name) with ((h ++ w) ++ name) by (by rewrite <- !app_assoc).
    replace (hashes ++ lit " " ++ index ++ lit " " ++ name)
      with ((hashes ++ lit " " ++ index ++ lit " ") ++ name)
      by (by rewrite <- !app_assoc).
    constructor; [by destruct h | by destruct hashes, index | | | apply renumbered_refl].
    + by rewrite !Forall_app.
    + rewrite !Forall_app. repeat split; try done; by repeat constructor.
Qed.

Lemma rewrite_lines_renumbered (lines : list str) :
  forall indexes : list str,
  Forall (fun l => NL ∉ l) lines ->
  Forall (Forall (fun c => is_numbering_char c = true)) indexes ->
  length indexes = length (chapters 2 lines) ->
  Forall2 renumbered lines
    (rewrite_lines 2 lines
       (zip_with (fun index ch => index ++ lit " " ++ clean_name ch.2) indexes
          (chapters 2 lines))).
Proof.
  induction lines as [|line lines IH]; intros indexes Hnl Hindexes Hlen; [constructor|].
  apply Forall_cons in Hnl as [Hline Hnl]. cbn [rewrite_lines].
  rewrite chapters_cons in *.
  destruct (chapter_of 2 line) as [[level name]|] eqn:Hch.
  - destruct indexes as [|index indexes]; [done|].
    apply Forall_cons in Hindexes as [Hindex Hindexes]. cbn [zip_with snd].
    constructor; [by apply header_line_renumbered|].
    apply IH; [done | done | by injection Hlen].
  - constructor; [apply renumbered_refl | by apply IH].
Qed.

Lemma str_join_renumbered (sep : str) (ls ls' : list str) :
  Forall2 renumbered ls ls' -> renumbered (str_join sep ls) (str_join sep ls').
Proof.
  induction 1 as [|l l' ls ls' Hl Hls IH]; [constructor|]. cbn [str_join].
  destruct Hls as [|k k' ls ls' Hk Hls]; [done|].
  apply renumbered_app; [done|]. apply renumbered_app; [apply renumbered_refl | done].
Qed.

(** The text the table of content is put into has as many marks as the text
    read, after its table of a previous run has become a mark again. *)
Lemma new_content_occurrences (content : str) :
  let lines := split_on NL (collapse content) in
  let names := numbered_names 2 {[2 := 0]} (chapters 2 lines) in
  occurrences TOC_MARK (str_join [NL] (rewrite_lines 2 lines names))
  = occurrences TOC_MARK (collapse content).
Proof.
  cbn zeta. symmetry.
  rewrite <- (str_join_split_on NL (collapse content)) at 1.
  apply renumbered_occurrences, str_join_renumbered.
  unfold numbered_names. apply rewrite_lines_renumbered.
  - apply split_on_no_newline.
  - unfold dotted_indexes. apply Forall_map, Forall_true. intros m.
    apply dotted_index_numbering.
  - unfold dotted_indexes. rewrite length_map.
    rewrite (indexes_trace_length 2); [by rewrite length_map | | apply chapters_levels].
    apply (indexes_inv_initial 2).
Qed.

Lemma list_of_map_chapter_name_to_md_item (names : list str) :
  exists items, list_of_map chapter_name_to_md_item names = Returned items.
Proof.
  induction names as [|name names [items IH]]; [by eexists|]. cbn [list_of_map].
  rewrite IH. unfold chapter_name_to_md_item.
  destruct (finditer RE_NUMBERED_HEADER_NAME name); by eexists.
Qed.

(** ** The count of the substitution *)

(** C9: [generate_file_toc] passes [re.MULTILINE], which is 8, as the count
    of [sub], so 8 marks at most are replaced in a run.  For every document
    that holds more than 8 marks after the table of a previous run has
    become a mark again, the text the table of content is put into (that
    document, renumbered: it has the same marks) is 8 pieces without mark,
    each followed by a mark, and a rest with the marks after the eighth; if
    the table of content is a replacement template that [re] accepts, the
    text written is these pieces, each followed by the table of content, and
    the rest as it is, with its marks; else the run raises what [re] raises
    for the template. *)
Theorem toc_mark_replaced_8_times (content : str) (title : option str) :
  let lines := split_on NL (collapse content) in
  let names := numbered_names 2 {[2 := 0]} (chapters 2 lines) in
  let new_content := str_join [NL] (rewrite_lines 2 lines names) in
  (8 < occurrences TOC_MARK (collapse content))%nat ->
  count_of_Z RE_MULTILINE = Some 8%nat
  /\ exists (items segs : list str) (rest : str),
       list_of_map chapter_name_to_md_item names = Returned items
       /\ length segs = 8%nat
       /\ Forall (fun seg => ~ occurs_in TOC_MARK seg) segs
       /\ new_content = concat (map (fun seg => seg ++ TOC_MARK) segs) ++ rest
       /\ (8 + occurrences TOC_MARK rest = occurrences TOC_MARK (collapse content))%nat
       /\ (0 < occurrences TOC_MARK rest)%nat
       /\ (generate_file_toc content title).2
          = obind (parse_template 0 TNormal
                     (toc_content (default TOC_CHAPTER_NAME title) items))
              (fun template =>
                 Returned (concat (map (fun seg => seg ++ expand_template template mark_match)
                                       segs) ++ rest)).
Proof.
  intros lines names new_content Hmarks. split; [done|].
  destruct (list_of_map_chapter_name_to_md_item names) as [items Hitems].
  pose proof (new_content_occurrences content) as Hocc. cbn zeta in Hocc.
  fold lines names new_content in Hocc.
  destruct (occurrences_split 8 new_content) as (segs & rest & Hlen & Hsegs & Hnew & Hrest);
    [lia|].
  exists items, segs, rest. repeat split; try done; [lia..|].
  rewrite generate_file_toc_eq. cbn zeta. fold lines names new_content.
  rewrite Hitems. cbn [snd obind]. unfold re_sub. cbn [RE_TOC_INIT p_groups].
  destruct (parse_template 0 TNormal _) as [template|e|]; [|done..].
  cbn [obind]. f_equal.
  change (count_of_Z RE_MULTILINE) with (Some 8%nat). rewrite <- Hlen, Hnew.
  by apply sub_from_marks.
Qed.

Lemma toc_mark_replaced_8_times_witness :
  let content := concat (replicate 9 (lit "[TOC]")) ++ lit " and [TOC]" in
  let toc := lit "$%TOC_BEGIN$" ++ [NL] ++ lit "## Table of content" ++ [NL] ++ [NL]
             ++ lit "$%TOC_END$" in
  occurrences TOC_MARK (collapse content) = 10%nat
  /\ generate_file_toc content None
     = ([], Returned (concat (replicate 8 toc) ++ lit "[TOC] and [TOC]"))
  /\ exists (items segs : list str) (rest : str),
       length segs = 8%nat
       /\ (0 < occurrences TOC_MARK rest)%nat
       /\ (generate_file_toc content None).2
          = obind (parse_template 0 TNormal (toc_content TOC_CHAPTER_NAME items))
              (fun template =>
                 Returned (concat (map (fun seg => seg ++ expand_template template mark_match)
                                       segs) ++ rest)).
Proof.
  cbn zeta. split; [vm_compute; reflexivity|]. split; [vm_compute; reflexivity|].
  destruct (toc_mark_replaced_8_times
              (concat (replicate 9 (lit "[TOC]")) ++ lit " and [TOC]") None)
    as (_ & items & segs & rest & _ & Hlen & _ & _ & _ & Hrest & Hrun).
  - vm_compute. lia.
  - by exists items, segs, rest.
Defined.

(** ** The counters of the chapters *)

Lemma count_since_snoc (k level : Z) (seen : list Z) :
  count_since k (seen ++ [level])
  = if level <? k then 0 else if level =? k then count_since k seen + 1
    else count_since k seen.
Proof. unfold count_since. by rewrite foldl_app. Qed.

Lemma count_since_last_lt (k : Z) (seen : list Z) :
  (forall t, last seen = Some t -> t < k) -> count_since k seen = 0.
Proof.
  intros H. destruct seen as [|x seen _] using rev_ind; [done|].
  rewrite count_since_snoc. rewrite last_snoc in H.
  specialize (H x eq_refl). by rewrite (proj2 (Z.ltb_lt _ _) H).
Qed.

Lemma count_since_nonneg (k : Z) (seen : list Z) : 0 <= count_since k seen.
Proof.
  induction seen as [|x seen IH] using rev_ind; [done|].
  rewrite count_since_snoc. repeat case_match; lia.
Qed.

Lemma counters_of_contiguous (min : Z) (seen : list Z) (m : gmap Z Z) :
  counters_of min seen m -> contiguous min (default min (last seen)) m.
Proof.
  intros H k. rewrite (H k). case_decide; split; intros; try done; by destruct H1.
Qed.

Ltac counters_cases :=
  repeat case_decide; repeat case_match; subst;
  rewrite ?Z.ltb_lt, ?Z.ltb_ge, ?Z.eqb_eq, ?Z.eqb_neq in *; try lia; try done;
  cbn; f_equal; try lia;
  match goal with
  | H : forall k, _ -> count_since k _ = 0 |- _ => rewrite ?H by lia; try lia
  end.

(** One chapter more: the dictionary holds the counters of the levels with
    the level of this chapter. *)
Lemma step_indexes_counters (min level : Z) (seen : list Z) (m : gmap Z Z) :
  counters_of min seen m ->
  Forall (fun l => min <= l /\ 1 <= l) seen -> min <= level -> 1 <= level ->
  exists m', step_indexes (default (Z.max min 0) (last seen)) level m = Returned m'
             /\ counters_of min (seen ++ [level]) m'.
Proof.
  intros Hm Hseen Hmin Hpos.
  pose proof (counters_of_contiguous _ _ _ Hm) as Hc.
  set (top := default min (last seen)) in *.
  set (cur := default (Z.max min 0) (last seen)).
  assert (Htop : min <= top).
  { unfold top. destruct (last seen) as [t|] eqn:E; cbn; [|lia].
    apply last_Some in E as [l' ->]. rewrite Forall_app, Forall_singleton in Hseen.
    lia. }
  assert (Hcur : top = cur \/ (seen = [] /\ cur = Z.max min 0 /\ top = min)).
  { unfold top, cur. destruct seen as [|x l _] using rev_ind; [by right|].
    left. by rewrite last_snoc. }
  assert (Hlast : forall k, top < k -> count_since k seen = 0).
  { intros k Hk. apply count_since_last_lt.
    intros t Ht. unfold top in Hk. rewrite Ht in Hk. cbn in Hk. lia. }
  unfold step_indexes. fold cur.
  destruct (Z.ltb_spec level cur) as [Hlt|Hge]; [|destruct (Z.gtb_spec level cur) as [Hgt|Hle]].
  - assert (top = cur) as <- by lia.
    eexists. split; [done|]. intros k. rewrite last_snoc. cbn.
    rewrite lookup_increment_level, !lookup_close_levels, count_since_snoc, !Hm.
    fold top. counters_cases.
  - destruct (contiguous_open_levels min top level m) as (m' & -> & _ & Hm');
      [done | done | lia |].
    eexists. split; [done|]. intros k. rewrite last_snoc. cbn.
    rewrite lookup_increment_level, count_since_snoc, !Hm', !Hm. fold top.
    assert (top < level) by lia. counters_cases.
  - assert (level = cur) by lia. assert (top = cur) as Heq by lia.
    eexists. split; [done|]. intros k. rewrite last_snoc. cbn.
    rewrite lookup_increment_level, count_since_snoc, !Hm. fold top. counters_cases.
Qed.

Lemma dotted_index_counters (min : Z) (seen : list Z) (m : gmap Z Z) :
  counters_of min seen m -> dotted_index m = index_of min seen.
Proof.
  intros Hm. rewrite (dotted_index_contiguous min (default min (last seen)))
    by by apply counters_of_contiguous.
  unfold index_of. f_equal. apply map_ext_in. intros k Hk%list_elem_of_In.
  apply elem_of_seqZ in Hk. rewrite lookup_total_alt, Hm.
  by rewrite decide_True by lia.
Qed.

Lemma counters_of_initial (min : Z) : counters_of min [] {[min := 0]}.
Proof.
  intros k. cbn. case_decide.
  - assert (k = min) as -> by lia. by rewrite lookup_singleton_eq.
  - rewrite lookup_singleton_ne; [done | lia].
Qed.

(** The dictionaries of a pass hold the counters of the levels met so far. *)
Lemma indexes_trace_counters (min : Z) (levels : list Z) :
  forall (seen : list Z) (m : gmap Z Z),
  counters_of min seen m ->
  Forall (fun l => min <= l /\ 1 <= l) seen ->
  Forall (fun l => min <= l /\ 1 <= l) levels ->
  map dotted_index (indexes_trace (default (Z.max min 0) (last seen)) m levels)
  = numbering_from min seen levels
  /\ counters_of min (seen ++ levels)
       (default m (last (indexes_trace (default (Z.max min 0) (last seen)) m levels))).
Proof.
  induction levels as [|level levels IH]; intros seen m Hm Hseen Hlevels.
  - split; [done|]. by rewrite app_nil_r.
  - apply Forall_cons in Hlevels as [[Hmin Hpos] Hlevels].
    destruct (step_indexes_counters min level seen m) as (m' & Hstep & Hm'); [done..|].
    rewrite (indexes_trace_cons _ _ _ _ _ Hstep), last_cons_default.
    cbn [map numbering_from].
    destruct (IH (seen ++ [level]) m') as [IH1 IH2];
      [done | rewrite Forall_app, Forall_singleton; by split | done |].
    rewrite last_snoc in IH1, IH2. cbn [default] in IH1, IH2.
    rewrite <- app_assoc in IH2. split; [|done].
    f_equal; [by apply dotted_index_counters | done].
Qed.

(** X1: what the numbers are.  After a pass over any lines the dictionary
    has a counter for every level from [min_toc_level] to the level of the
    last chapter, and the counter of a level is the number of chapters of
    that level since the last chapter of a lower level; the name returned for
    a chapter starts with these counters, at the moment the chapter is met,
    with dots between them. *)
Theorem chapter_counters (lines : list str) (min : Z) :
  let levels := map fst (chapters min lines) in
  (forall nc k,
     chapter_indexes (get_chapter_names lines 0 None 0 min nc).1 !! k
     = if decide (min <= k <= default min (last levels))
       then Some (count_since k levels) else None)
  /\ (forall nc,
        (get_chapter_names lines 0 None 0 min (Some nc)).2
        = Returned (zip_with (fun index ch => index ++ lit " " ++ clean_name ch.2)
                             (numbering min levels) (chapters min lines)))
  /\ (forall seen level,
        index_of min (seen ++ [level])
        = str_join (lit ".")
            (map (fun k => str_of_Z (if level =? k then count_since k seen + 1
                                     else count_since k seen))
                 (seqZ min (level - min + 1))))
  /\ numbering 2 [2; 3; 3; 2; 4] = [lit "1"; lit "1.1"; lit "1.2"; lit "2"; lit "2.0.1"].
Proof.
  cbn zeta.
  destruct (indexes_trace_counters min (map fst (chapters min lines)) [] {[min := 0]})
    as [Hnames Hm]; [apply counters_of_initial | done | apply chapters_levels |].
  cbn [last default app] in Hnames, Hm. split; [|split; [|split; [|by vm_compute]]].
  - intros nc k. rewrite get_chapter_names_spec. cbn zeta. cbn [chapter_indexes fst].
    apply Hm.
  - intros nc. rewrite get_chapter_names_spec. cbn zeta. cbn [snd].
    unfold numbered_names, dotted_indexes. by rewrite Hnames.
  - intros seen level. unfold index_of. rewrite last_snoc. cbn. f_equal.
    apply map_ext_in. intros k Hk%list_elem_of_In. apply elem_of_seqZ in Hk.
    rewrite count_since_snoc. rewrite (proj2 (Z.ltb_ge _ _)) by lia. done.
Qed.

(** ** A pass over the lines of a pass *)

Lemma string_of_uint_digits (d : Decimal.uint) :
  Forall (fun c => is_digit c = true) (lit (NilEmpty.string_of_uint d)).
Proof. induction d; cbn; by constructor. Qed.

Lemma str_of_Z_digits (z : Z) :
  0 <= z -> str_of_Z z <> [] /\ Forall (fun c => is_digit c = true) (str_of_Z z).
Proof.
  intros Hz. unfold str_of_Z.
  assert (H : forall d, lit (NilZero.string_of_uint d) <> []
                        /\ Forall (fun c => is_digit c = true)
                                  (lit (NilZero.string_of_uint d))).
  { intros d. destruct d; cbn; (split; [done|]);
      repeat constructor; apply string_of_uint_digits. }
  destruct z as [|p|p]; [apply (H (Decimal.D0 Decimal.Nil)) | apply (H (Pos.to_uint p)) | lia].
Qed.

Lemma str_join_index_shape (l : list str) :
  l <> [] -> Forall index_shape l -> index_shape (str_join (lit ".") l).
Proof.
  intros Hl H. induction H as [|x l [Hx1 Hx2] Hl' IH]; [done|]. cbn [str_join].
  destruct l as [|y l]; [done|]. split; [by destruct x|].
  rewrite !Forall_app. split; [done|]. split; [by repeat constructor|].
  by apply IH.
Qed.

Lemma index_of_shape (min : Z) (seen : list Z) :
  Forall (fun l => min <= l /\ 1 <= l) seen -> index_shape (index_of min seen).
Proof.
  intros Hseen. unfold index_of.
  assert (Htop : min <= default min (last seen)).
  { destruct (last seen) as [t|] eqn:E; cbn; [|lia].
    apply last_Some in E as [l' ->]. rewrite Forall_app, Forall_singleton in Hseen. lia. }
  apply str_join_index_shape.
  - rewrite seqZ_cons by lia. done.
  - apply Forall_map, Forall_true. intros k.
    destruct (str_of_Z_digits (count_since k seen) (count_since_nonneg _ _)) as [H1 H2].
    split; [done|]. eapply Forall_impl; [exact H2|]. cbn. intros c Hc.
    unfold is_dot_or_digit. by rewrite Hc, orb_true_r.
Qed.

Lemma numbering_from_shape (min : Z) (levels : list Z) :
  forall seen,
  Forall (fun l => min <= l /\ 1 <= l) seen ->
  Forall (fun l => min <= l /\ 1 <= l) levels ->
  Forall index_shape (numbering_from min seen levels).
Proof.
  induction levels as [|level levels IH]; intros seen Hseen Hlevels; [constructor|].
  apply Forall_cons in Hlevels as [Hlevel Hlevels].
  assert (Forall (fun l => min <= l /\ 1 <= l) (seen ++ [level]))
    by (rewrite Forall_app, Forall_singleton; by split).
  cbn. constructor; [by apply index_of_shape | by apply IH].
Qed.

Lemma numbering_from_length (min : Z) (levels : list Z) :
  forall seen, length (numbering_from min seen levels) = length levels.
Proof. induction levels as [|level levels IH]; intros seen; cbn; [done|]. by rewrite IH. Qed.

(** The two parts that [prefixed_parts] finds. *)
Lemma prefixed_parts_exact (p : ascii -> bool) (h w rest : str) :
  (forall x, p x = true -> is_space x = false) ->
  h <> [] -> Forall (fun x => p x = true) h ->
  w <> [] -> Forall (fun x => is_space x = true) w ->
  span is_space rest = O ->
  prefixed_parts p (h ++ w ++ rest) = Some (h, rest).
Proof.
  intros Hp Hh Hph Hw Hpw Hrest. unfold prefixed_parts. cbv zeta.
  assert (Hspan : span p (h ++ w ++ rest) = length h).
  { rewrite span_app_Forall by done. destruct w as [|x w]; [done|].
    apply Forall_cons in Hpw as [Hx _]. cbn [app span].
    destruct (p x) eqn:E; [|lia]. apply Hp in E. congruence. }
  rewrite Hspan, drop_app_length, take_app_length.
  rewrite span_app_Forall, Hrest, Nat.add_0_r, drop_app_length by done.
  destruct h, w; done.
Qed.

Lemma prefixed_parts_no_blank (p : ascii -> bool) (s h rest : str) :
  prefixed_parts p s = Some (h, rest) -> span is_space rest = O.
Proof.
  unfold prefixed_parts. cbv zeta. case_match; [|done]. intros [= <- <-].
  apply span_drop_span.
Qed.

Lemma prefixed_parts_no_newline (p : ascii -> bool) (s h rest : str) :
  NL ∉ s -> prefixed_parts p s = Some (h, rest) -> NL ∉ rest.
Proof.
  intros Hnl (w & -> & _)%prefixed_parts_Some. rewrite !not_elem_of_app in Hnl. tauto.
Qed.

(** The name of a chapter has no line break and does not start with a
    blank, and so has the name without its number. *)
Lemma chapter_of_name (min level : Z) (line name : str) :
  NL ∉ line -> chapter_of min line = Some (level, name) ->
  (NL ∉ name) /\ span is_space name = O
  /\ (NL ∉ clean_name name) /\ span is_space (clean_name name) = O.
Proof.
  intros Hnl Hch. rewrite chapter_of_no_newline in Hch by done.
  destruct (prefixed_parts is_hash line) as [[h name']|] eqn:Hparts; [|done].
  case_match; [done|]. injection Hch as <- ->.
  pose proof (prefixed_parts_no_newline _ _ _ _ Hnl Hparts) as Hname.
  pose proof (prefixed_parts_no_blank _ _ _ _ Hparts) as Hblank.
  split; [done|]. split; [done|]. rewrite clean_name_no_newline by done.
  destruct (prefixed_parts is_dot_or_digit name) as [[d rest]|] eqn:Hparts'; [|done].
  split; [by eapply prefixed_parts_no_newline | by eapply prefixed_parts_no_blank].
Qed.

Lemma index_shape_no_newline (index : str) : index_shape index -> NL ∉ index.
Proof.
  intros [_ H] Hin. rewrite Forall_forall in H. specialize (H _ Hin). done.
Qed.

(** The name without its number of a numbered name is the name that was
    numbered. *)
Lemma clean_name_numbered (index name : str) :
  index_shape index -> NL ∉ name -> span is_space name = O ->
  clean_name (index ++ lit " " ++ name) = name.
Proof.
  intros Hindex Hnl Hblank. pose proof (index_shape_no_newline _ Hindex) as Hnl'.
  destruct Hindex as [H1 H2].
  rewrite clean_name_no_newline.
  - rewrite (prefixed_parts_exact _ index (lit " ") name); try done.
    + apply is_dot_or_digit_not_space.
    + by repeat constructor.
  - rewrite !not_elem_of_app. split; [done|]. split; [|done].
    compute_done.
Qed.

Lemma str_mul_hash (level : Z) :
  1 <= level ->
  str_mul (lit "#") level <> [] /\ Forall (fun x => is_hash x = true) (str_mul (lit "#") level)
  /\ Z.of_nat (length (str_mul (lit "#") level)) = level
  /\ (NL ∉ str_mul (lit "#") level).
Proof.
  intros Hlevel. unfold str_mul.
  assert (H : forall n, Forall (fun x => is_hash x = true) (concat (replicate n (lit "#")))
                        /\ length (concat (replicate n (lit "#"))) = n).
  { change (lit "#") with ["#"%char].
    induction n as [|n [IH1 IH2]]; [done|]. cbn [replicate concat app].
    split; [by constructor | cbn [length]; by f_equal]. }
  destruct (H (Z.to_nat level)) as [H1 H2]. split; [|split; [done|split]].
  - intros E. rewrite E in H2. cbn in H2. lia.
  - rewrite H2. lia.
  - intros Hin. rewrite Forall_forall in H1. by specialize (H1 _ Hin).
Qed.

(** A rewritten header is read back as it was written: the line of a
    chapter of level [level] and name [name] is a chapter of this level and
    this name. *)
Lemma chapter_of_header_line (min level : Z) (name : str) :
  1 <= level -> min <= level -> NL ∉ name -> span is_space name = O ->
  chapter_of min (header_line level name) = Some (level, name)
  /\ (NL ∉ header_line level name).
Proof.
  intros Hpos Hmin Hnl Hblank. destruct (str_mul_hash level Hpos) as (H1 & H2 & H3 & H4).
  assert (Hnl' : NL ∉ header_line level name).
  { unfold header_line. rewrite !not_elem_of_app. split; [done|]. split; [|done].
    compute_done. }
  split; [|done]. rewrite chapter_of_no_newline by done. unfold header_line.
  rewrite (prefixed_parts_exact _ _ (lit " ") name); try done.
  - rewrite H3. by rewrite (proj2 (Z.ltb_ge _ _)) by lia.
  - apply is_hash_not_space.
  - by repeat constructor.
Qed.

Lemma numbered_name_shape (index name : str) :
  index_shape index -> NL ∉ name ->
  (NL ∉ index ++ lit " " ++ name) /\ span is_space (index ++ lit " " ++ name) = O.
Proof.
  intros Hindex Hnl. pose proof (index_shape_no_newline _ Hindex) as Hnl'.
  destruct Hindex as [H1 H2]. split.
  - rewrite !not_elem_of_app. split; [done|]. split; [compute_done | done].
  - destruct index as [|x index]; [done|]. apply Forall_cons in H2 as [Hx _].
    cbn [app span]. by rewrite (is_dot_or_digit_not_space _ Hx).
Qed.

(** The lines of a pass, read again: the chapters are the same lines, with
    the same levels and with the numbered names as names, and numbering them
    with the same names leaves them as they are. *)
Lemma rewrite_lines_chapters (min : Z) (lines : list str) :
  forall indexes : list str,
  Forall (fun l => NL ∉ l) lines ->
  Forall index_shape indexes ->
  length indexes = length (chapters min lines) ->
  let names := zip_with (fun index ch => index ++ lit " " ++ clean_name ch.2) indexes
                 (chapters min lines) in
  let lines' := rewrite_lines min lines names in
  map fst (chapters min lines') = map fst (chapters min lines)
  /\ map snd (chapters min lines') = names
  /\ map (fun ch => clean_name ch.2) (chapters min lines')
     = map (fun ch => clean_name ch.2) (chapters min lines)
  /\ rewrite_lines min lines' names = lines'
  /\ Forall (fun l => NL ∉ l) lines'.
Proof.
  induction lines as [|line lines IH]; intros indexes Hnl Hindexes Hlen; cbn zeta;
    [destruct indexes; [by repeat split | done]|].
  apply Forall_cons in Hnl as [Hline Hnl]. cbn [rewrite_lines].
  rewrite chapters_cons in *.
  destruct (chapter_of min line) as [[level name]|] eqn:Hch.
  - destruct indexes as [|index indexes]; [done|].
    apply Forall_cons in Hindexes as [Hindex Hindexes]. cbn [zip_with snd].
    destruct (chapter_of_name _ _ _ _ Hline Hch) as (_ & _ & Hclean & Hblank).
    destruct (numbered_name_shape index (clean_name name) Hindex Hclean) as [Hnl' Hblank'].
    destruct (chapter_of_header_line min level (index ++ lit " " ++ clean_name name))
      as [Hch' Hnl'']; [by eapply chapter_of_level_pos | by eapply chapter_of_level | done..|].
    destruct (IH indexes) as (IH1 & IH2 & IH3 & IH4 & IH5); [done | done | by injection Hlen |].
    cbn [rewrite_lines]. rewrite chapters_cons, Hch'. cbn [map fst snd].
    rewrite IH1, IH2, IH3, IH4, clean_name_numbered by done.
    repeat split; try done. by constructor.
  - destruct (IH indexes) as (IH1 & IH2 & IH3 & IH4 & IH5); [done..|].
    cbn [rewrite_lines]. rewrite chapters_cons, Hch.
    repeat split; try done; [by f_equal | by constructor].
Qed.

Lemma numbered_names_ext (cur : Z) (m : gmap Z Z) (chs chs' : list (Z * str)) :
  map fst chs = map fst chs' ->
  map (fun ch => clean_name ch.2) chs = map (fun ch => clean_name ch.2) chs' ->
  numbered_names cur m chs = numbered_names cur m chs'.
Proof.
  intros Hfst Hsnd. unfold numbered_names. rewrite Hfst.
  generalize (dotted_indexes cur m (map fst chs')). clear Hfst.
  revert chs' Hsnd. induction chs as [|ch chs IH]; intros [|ch' chs'] Hsnd indexes;
    try done; [by destruct indexes..|].
  injection Hsnd as Hch Hsnd. destruct indexes as [|index indexes]; [done|].
  cbn [zip_with]. rewrite Hch. f_equal. by apply IH.
Qed.

Lemma numbered_names_numbering (min : Z) (lines : list str) :
  numbered_names (Z.max min 0) {[min := 0]} (chapters min lines)
  = zip_with (fun index ch => index ++ lit " " ++ clean_name ch.2)
      (numbering min (map fst (chapters min lines))) (chapters min lines).
Proof.
  destruct (indexes_trace_counters min (map fst (chapters min lines)) [] {[min := 0]})
    as [Hnames _]; [apply counters_of_initial | done | apply chapters_levels |].
  unfold numbered_names, dotted_indexes. cbn [last default] in Hnames. by rewrite Hnames.
Qed.

(** A second pass, over the lines of a pass: what it does. *)
Lemma second_pass (min : Z) (lines : list str) :
  Forall (fun l => NL ∉ l) lines ->
  let names := numbered_names (Z.max min 0) {[min := 0]} (chapters min lines) in
  let lines' := rewrite_lines min lines names in
  map fst (chapters min lines') = map fst (chapters min lines)
  /\ map snd (chapters min lines') = names
  /\ numbered_names (Z.max min 0) {[min := 0]} (chapters min lines') = names
  /\ rewrite_lines min lines' names = lines'
  /\ Forall (fun l => NL ∉ l) lines'.
Proof.
  intros Hnl. cbn zeta.
  destruct (rewrite_lines_chapters min lines (numbering min (map fst (chapters min lines))))
    as (H1 & H2 & H3 & H4 & H5);
    [done | apply numbering_from_shape; [done | apply chapters_levels]
     | unfold numbering; by rewrite numbering_from_length, length_map |].
  cbn zeta in *. rewrite <- numbered_names_numbering in H1, H2, H3, H4, H5.
  repeat split; try done.
  rewrite <- (numbered_names_ext _ _ _ _ H1 H3) at 2. done.
Qed.

(** X2: a pass over the lines that a pass has written changes nothing.  For
    lines without line break (the lines of a text that was split at its line
    breaks), the pass over the rewritten lines returns the same names, writes
    the same lines again and ends with the same counters: the number put
    before a name replaces the number of the first pass, and the level of a
    header is kept. *)
Theorem second_pass_changes_nothing (lines : list str) (min : Z) :
  Forall (fun l => NL ∉ l) lines ->
  let r1 := get_chapter_names lines 0 None 0 min (Some []) in
  let lines' := default [] (new_content r1.1) in
  let r2 := get_chapter_names lines' 0 None 0 min (Some []) in
  r2.2 = r1.2
  /\ new_content r2.1 = Some lines'
  /\ chapter_indexes r2.1 = chapter_indexes r1.1
  /\ map fst (chapters min lines') = map fst (chapters min lines)
  /\ length lines' = length lines.
Proof.
  intros Hnl. cbn zeta. rewrite !get_chapter_names_spec. cbn zeta.
  cbn [fst snd new_content chapter_indexes fmap option_fmap option_map default app].
  destruct (second_pass min lines Hnl) as (H1 & _ & H2 & H3 & H4). cbn zeta in *.
  unfold id. rewrite H1, H2, H3. repeat split; try done.
  apply rewrite_lines_length, numbered_names_length.
Qed.

Lemma second_pass_changes_nothing_witness :
  let lines := [lit "# Title"; lit "## 3 Intro"; lit "text"; lit "#### Deep"] in
  let lines' := [lit "# Title"; lit "## 1 Intro"; lit "text"; lit "#### 1.0.1 Deep"] in
  Forall (fun l => NL ∉ l) lines
  /\ new_content (get_chapter_names lines 0 None 0 2 (Some [])).1 = Some lines'
  /\ (get_chapter_names lines' 0 None 0 2 (Some [])).2
     = (get_chapter_names lines 0 None 0 2 (Some [])).2
  /\ new_content (get_chapter_names lines' 0 None 0 2 (Some [])).1 = Some lines'.
Proof.
  cbn zeta.
  assert (Hnl : Forall (fun l => NL ∉ l)
                  [lit "# Title"; lit "## 3 Intro"; lit "text"; lit "#### Deep"])
    by (repeat constructor; compute_done).
  assert (Hlines : new_content (get_chapter_names
                     [lit "# Title"; lit "## 3 Intro"; lit "text"; lit "#### Deep"]
                     0 None 0 2 (Some [])).1
                   = Some [lit "# Title"; lit "## 1 Intro"; lit "text";
                           lit "#### 1.0.1 Deep"])
    by (vm_compute; reflexivity).
  split; [done|]. split; [done|].
  pose proof (second_pass_changes_nothing _ 2 Hnl) as H. cbn zeta in H.
  rewrite Hlines in H. cbn [default] in H.
  destruct H as (H1 & H2 & _). by split.
Defined.

(** ** The table of content of a previous run *)

Lemma prev_after_cons (prev : option ascii) (x : ascii) (t : str) :
  prev_after prev (x :: t) = prev_after (Some x) t.
Proof.
  unfold prev_after. rewrite last_cons. by destruct (last t).
Qed.

(** The characters of a match are passed before the scan goes on. *)
Lemma sub_from_skip (p : pattern) (repl : rematch -> str) (count : option nat)
    (t rest : str) :
  forall prev,
  sub_from p repl count (length t) prev (t ++ rest)
  = sub_from p repl count 0 (prev_after prev t) rest.
Proof.
  induction t as [|x t IH]; intros prev; [done|].
  cbn [length app sub_from]. by rewrite IH, prev_after_cons.
Qed.

(** Where the pattern matches nowhere, nothing is replaced. *)
Lemma sub_from_no_match (p : pattern) (repl : rematch -> str) (s : str) :
  (forall j prev, match_here p prev (drop j s) = None) ->
  forall count prev, sub_from p repl count 0 prev s = s.
Proof.
  induction s as [|x s IH]; intros Hno count prev.
  - pose proof (Hno O prev) as H0. rewrite drop_0 in H0.
    cbn [sub_from]. rewrite H0. by destruct (count_left count).
  - pose proof (Hno O prev) as H0. rewrite drop_0 in H0.
    cbn [sub_from]. rewrite H0. replace (if count_left count then None else None)
      with (@None rematch) by by destruct (count_left count).
    f_equal. apply IH. intros j prev'. apply (Hno (S j)).
Qed.

Lemma sub_from_app_no_match (p : pattern) (repl : rematch -> str) (pre t : str) :
  (forall j prev, (j < length pre)%nat -> match_here p prev (drop j (pre ++ t)) = None) ->
  forall count prev,
  sub_from p repl count 0 prev (pre ++ t)
  = pre ++ sub_from p repl count 0 (prev_after prev pre) t.
Proof.
  induction pre as [|x pre IH]; intros Hno count prev; [done|].
  pose proof (Hno O prev) as H0. rewrite drop_0 in H0.
  cbn [app sub_from]. cbn [app] in H0. rewrite H0 by (cbn; lia).
  replace (if count_left count then None else None)
    with (@None rematch) by by destruct (count_left count).
  rewrite prev_after_cons. f_equal. apply IH.
  intros j prev' Hj. apply (Hno (S j)). cbn. lia.
Qed.

(** A match at the cursor is replaced and the scan goes on after it. *)
Lemma sub_from_match (p : pattern) (repl : rematch -> str) (m : rematch)
    (rest : str) (prev : option ascii) :
  m_text m <> [] ->
  match_here p prev (m_text m ++ rest) = Some m ->
  sub_from p repl None 0 prev (m_text m ++ rest)
  = repl m ++ sub_from p repl None 0 (prev_after prev (m_text m)) rest.
Proof.
  intros Hne Hm. destruct (m_text m) as [|x t] eqn:E; [done|].
  cbn [app sub_from count_left]. cbn [app] in Hm. rewrite Hm, E. cbn [count_pred].
  by rewrite sub_from_skip, prev_after_cons.
Qed.

(** [(?:\n|.)] is any character. *)
Lemma rmatch_any (ml : bool) (prev : option ascii) (s : str) :
  rmatch ml (Alt (Chr NL) (Cls is_dot)) prev s
  = match s with
    | x :: _ => [([x], [])]
    | [] => []
    end.
Proof.
  destruct s as [|x s]; [done|]. cbn [rmatch]. unfold is_dot, ascii_eqb.
  by case_bool_decide.
Qed.

(** The matches of [(?:\n|.)*] followed by a text [p]: the longest first. *)
Lemma rmatch_any_then_cons (ml : bool) (p : str) (prev : option ascii) (x : ascii)
    (s : str) :
  p <> [] ->
  rmatch ml (Seq (Star (Alt (Chr NL) (Cls is_dot))) (Lits p)) prev (x :: s)
  = map (fun '(c, g) => (x :: c, g))
        (rmatch ml (Seq (Star (Alt (Chr NL) (Cls is_dot))) (Lits p)) (Some x) s)
    ++ (if decide (p `prefix_of` x :: s) then [(p, [])] else []).
Proof.
  intros Hp. rewrite !rmatch_Seq, !rmatch_Star. cbn [length star_results].
  rewrite rmatch_any. unfold nonempty_results. cbn [filter list_filter].
  rewrite decide_True by done.
  unfold seq_results at 2. cbn [flat_map fst snd length drop]. rewrite ?drop_0, app_nil_r.
  unfold seq_results at 1. rewrite flat_map_app. cbn [flat_map length drop].
  rewrite ?drop_0, app_nil_r, rmatch_Lits by done. f_equal.
  - unfold seq_results. change (prev_after prev [x]) with (Some x).
    generalize (star_results (rmatch ml (Alt (Chr NL) (Cls is_dot))) (length s) (Some x) s).
    intros l. induction l as [|[c g] l IH]; [done|].
    cbn [map flat_map]. rewrite map_app, IH. f_equal.
    cbn [app length drop]. rewrite prev_after_cons, !map_map.
    apply map_ext. intros [c2 g2]. by rewrite app_nil_r.
  - by case_decide.
Qed.

Lemma rmatch_any_then_nil (ml : bool) (p : str) (prev : option ascii) :
  p <> [] -> rmatch ml (Seq (Star (Alt (Chr NL) (Cls is_dot))) (Lits p)) prev [] = [].
Proof.
  intros Hp. rewrite rmatch_Seq, rmatch_Star. cbn. rewrite rmatch_Lits by done.
  rewrite decide_False; [done|]. intros [k Hk]. by destruct p.
Qed.

(** No match where [p] starts nowhere. *)
Lemma rmatch_any_then_none (ml : bool) (p : str) (s : str) :
  p <> [] -> (forall j, ~ p `prefix_of` drop j s) ->
  forall prev, rmatch ml (Seq (Star (Alt (Chr NL) (Cls is_dot))) (Lits p)) prev s = [].
Proof.
  intros Hp. induction s as [|x s IH]; intros Hno prev.
  - by apply rmatch_any_then_nil.
  - rewrite rmatch_any_then_cons by done. rewrite IH by (intros j; apply (Hno (S j))).
    rewrite decide_False by apply (Hno O). done.
Qed.

(** The first match ends with the last [p] of the text. *)
Lemma rmatch_any_then_last (ml : bool) (p : str) (mid post : str) :
  p <> [] -> (forall j, ~ p `prefix_of` drop (S j) (p ++ post)) ->
  forall prev, exists tail,
  rmatch ml (Seq (Star (Alt (Chr NL) (Cls is_dot))) (Lits p)) prev (mid ++ p ++ post)
  = (mid ++ p, []) :: tail.
Proof.
  intros Hp Hlast. induction mid as [|x mid IH]; intros prev.
  - destruct (p ++ post) as [|e s] eqn:E; [by destruct p|]. cbn [app].
    rewrite rmatch_any_then_cons by done.
    rewrite rmatch_any_then_none; [|done|].
    + rewrite decide_True by (exists post; by rewrite E). cbn [map app]. by eexists.
    + intros j. apply (Hlast j).
  - cbn [app]. rewrite rmatch_any_then_cons by done.
    destruct (IH (Some x)) as [tail ->]. cbn [map app]. by eexists.
Qed.

Lemma occurrences_0 (p s : str) :
  p <> [] -> occurrences p s = O -> forall j, ~ p `prefix_of` drop j s.
Proof.
  intros Hp. induction s as [|x s IH]; intros H j.
  - rewrite drop_nil. intros [k Hk]. by destruct p.
  - cbn [occurrences] in H. case_decide as Hx; [lia|]. destruct j as [|j]; [done|].
    apply IH. lia.
Qed.

Lemma not_prefix_without_head (c : ascii) (p s : str) :
  c ∉ s -> forall j, ~ (c :: p) `prefix_of` drop j s.
Proof.
  intros Hc j [k Hk]. apply (not_elem_of_drop _ j) in Hc. rewrite Hk in Hc.
  apply Hc. by left.
Qed.

(** The pattern of a finished table at the cursor: no match where
    [TOC_BEGIN] does not start, or where no [TOC_END] follows it; else the
    match goes to the last [TOC_END]. *)
Lemma match_here_finished_no_begin (prev : option ascii) (s : str) :
  ~ TOC_BEGIN `prefix_of` s -> match_here RE_TOC_FINISHED prev s = None.
Proof.
  intros H. unfold match_here. cbn [RE_TOC_FINISHED p_regex p_multiline].
  rewrite rmatch_Seq, rmatch_Lits by done. by rewrite decide_False.
Qed.

Lemma match_here_finished_no_end (prev : option ascii) (t : str) :
  (forall j, ~ TOC_END `prefix_of` drop j t) ->
  match_here RE_TOC_FINISHED prev (TOC_BEGIN ++ t) = None.
Proof.
  intros H. unfold match_here. cbn [RE_TOC_FINISHED p_regex p_multiline].
  rewrite rmatch_Seq, rmatch_Lits by done. rewrite decide_True by by exists t.
  unfold seq_results. cbn [flat_map]. rewrite drop_app_length.
  by rewrite rmatch_any_then_none.
Qed.

Lemma match_here_finished (prev : option ascii) (mid post : str) :
  (forall j, ~ TOC_END `prefix_of` drop (S j) (TOC_END ++ post)) ->
  match_here RE_TOC_FINISHED prev (TOC_BEGIN ++ mid ++ TOC_END ++ post)
  = Some {| m_text := TOC_BEGIN ++ mid ++ TOC_END; m_groups := [] |}.
Proof.
  intros H. unfold match_here. cbn [RE_TOC_FINISHED p_regex p_multiline].
  rewrite rmatch_Seq, rmatch_Lits by done.
  rewrite decide_True by by exists (mid ++ TOC_END ++ post).
  unfold seq_results. cbn [flat_map]. rewrite drop_app_length.
  destruct (rmatch_any_then_last true TOC_END mid post) with (prev := prev_after prev TOC_BEGIN)
    as [tail ->]; [done | done |].
  cbn [map app]. by rewrite ?app_nil_r.
Qed.

Lemma TOC_END_is_last (post : str) :
  "$"%char ∉ post -> forall j, ~ TOC_END `prefix_of` drop (S j) (TOC_END ++ post).
Proof.
  intros Hpost j. unfold TOC_END at 2. unfold lit. cbn [list_ascii_of_string app].
  do 9 (destruct j as [|j]; [intros [k Hk]; cbn in Hk; try done|]).
  - apply Hpost. injection Hk as ->. cbn. rewrite !elem_of_cons. tauto.
  - cbn [drop]. by apply not_prefix_without_head.
Qed.

(** The text that [generate_file_toc] works on when the text read holds a
    table of content between characters that are no dollar sign. *)
Lemma collapse_block (pre mid post : str) :
  "$"%char ∉ pre -> "$"%char ∉ post ->
  collapse (pre ++ TOC_BEGIN ++ mid ++ TOC_END ++ post) = pre ++ TOC_MARK ++ post.
Proof.
  intros Hpre Hpost. unfold collapse. rewrite sub_from_template_literal.
  rewrite sub_from_app_no_match.
  - f_equal.
    replace (TOC_BEGIN ++ mid ++ TOC_END ++ post)
      with ((TOC_BEGIN ++ mid ++ TOC_END) ++ post) by (by rewrite <- !app_assoc).
    rewrite (sub_from_match _ _ {| m_text := TOC_BEGIN ++ mid ++ TOC_END; m_groups := [] |}).
    + f_equal. apply sub_from_no_match. intros j prev.
      apply match_here_finished_no_begin. by apply not_prefix_without_head.
    + done.
    + cbn [m_text]. rewrite <- !app_assoc.
      apply match_here_finished. by apply TOC_END_is_last.
  - intros j prev Hj. apply match_here_finished_no_begin.
    rewrite drop_app_le by lia. intros [k Hk].
    destruct (drop j pre) as [|x t] eqn:E.
    + apply (f_equal length) in E. rewrite length_drop in E. cbn in E. lia.
    + injection Hk as -> _. apply (not_elem_of_drop _ j) in Hpre. rewrite E in Hpre.
      apply Hpre. by left.
Qed.

Lemma collapse_no_block (content : str) :
  occurrences TOC_BEGIN content = O \/ occurrences TOC_END content = O ->
  collapse content = content.
Proof.
  intros H. unfold collapse. rewrite sub_from_template_literal.
  apply sub_from_no_match. intros j prev.
  destruct (decide (TOC_BEGIN `prefix_of` drop j content)) as [[t Ht]|Hno];
    [|by apply match_here_finished_no_begin].
  destruct H as [H|H].
  { destruct (occurrences_0 TOC_BEGIN content) with (j := j); [done | done | by exists t]. }
  rewrite Ht. apply match_here_finished_no_end. intros i.
  replace t with (drop (length TOC_BEGIN) (drop j content))
    by (by rewrite Ht, drop_app_length).
  rewrite !drop_drop. by apply occurrences_0.
Qed.

(** X3: a text in which [TOC_BEGIN] or [TOC_END] does not occur is read as
    it is: line 172 replaces nothing. *)
Theorem text_without_finished_table (content : str) :
  occurrences TOC_BEGIN content = O \/ occurrences TOC_END content = O ->
  re_sub RE_TOC_FINISHED TOC_MARK content 0 = Returned content.
Proof. intros H. by rewrite re_sub_collapse, collapse_no_block. Qed.

Lemma text_without_finished_table_witness :
  let content := lit "costs 5$, see $%TOC_BEGIN$ and [TOC]" in
  occurrences TOC_END content = O
  /\ re_sub RE_TOC_FINISHED TOC_MARK content 0 = Returned content.
Proof.
  cbn zeta. split; [by vm_compute|].
  apply text_without_finished_table. right. by vm_compute.
Defined.

(** X4: the pattern of a finished table takes all it can.  In a text that
    has [TOC_BEGIN] after a part without dollar sign and [TOC_END] before a
    part without dollar sign, line 172 puts one mark in the place of all
    that is between the two parts, whatever it is: when it holds the tables
    of two marks, the text between these tables is gone with them. *)
Theorem finished_table_is_greedy (pre mid post : str) :
  "$"%char ∉ pre -> "$"%char ∉ post ->
  re_sub RE_TOC_FINISHED TOC_MARK (pre ++ TOC_BEGIN ++ mid ++ TOC_END ++ post) 0
  = Returned (pre ++ TOC_MARK ++ post).
Proof. intros Hpre Hpost. by rewrite re_sub_collapse, collapse_block. Qed.

Lemma finished_table_is_greedy_witness :
  let pre := lit "# Manual" ++ [NL] in
  let mid := [NL] ++ lit "- [1 Use](#1-use)" ++ [NL] ++ TOC_END ++ [NL]
             ++ lit "## 1 Use" ++ [NL] ++ lit "text" ++ [NL] ++ TOC_BEGIN ++ [NL]
             ++ lit "- [1 Use](#1-use)" ++ [NL] in
  let post := [NL] ++ lit "the end" in
  ("$"%char ∉ pre) /\ ("$"%char ∉ post)
  /\ re_sub RE_TOC_FINISHED TOC_MARK (pre ++ TOC_BEGIN ++ mid ++ TOC_END ++ post) 0
     = Returned (lit "# Manual" ++ [NL] ++ lit "[TOC]" ++ [NL] ++ lit "the end").
Proof.
  cbn zeta. split; [compute_done|]. split; [compute_done|].
  apply (finished_table_is_greedy (lit "# Manual" ++ [NL]) _ ([NL] ++ lit "the end"));
    compute_done.
Defined.

(** ** A second run *)

Lemma split_on_str_join (c : ascii) (ls : list str) :
  ls <> [] -> Forall (fun l => c ∉ l) ls -> split_on c (str_join [c] ls) = ls.
Proof.
  intros Hne H. induction H as [|x ls Hx Hls IH]; [done|]. cbn [str_join].
  destruct ls as [|y ls]; [by apply split_on_no_sep|].
  rewrite split_on_app_no_sep by done. cbn [app split_on].
  unfold ascii_eqb at 1. rewrite bool_decide_true by done.
  rewrite app_nil_r. f_equal. by apply IH.
Qed.

Lemma elem_of_str_join (sep : str) (ls : list str) (l : str) (x : ascii) :
  l ∈ ls -> x ∈ l -> x ∈ str_join sep ls.
Proof.
  intros Hl Hx. induction ls as [|y ls IH]; [by apply elem_of_nil in Hl|].
  cbn [str_join]. apply elem_of_cons in Hl as [->|Hl].
  - destruct ls; [done|]. rewrite elem_of_app. by left.
  - destruct ls as [|z ls]; [by apply elem_of_nil in Hl|].
    rewrite !elem_of_app. right. right. by apply IH.
Qed.

Lemma str_join_elem_of (sep : str) (ls : list str) (x : ascii) :
  x ∈ str_join sep ls -> x ∈ sep \/ exists l, l ∈ ls /\ x ∈ l.
Proof.
  induction ls as [|y ls IH]; cbn [str_join]; [by intros ?%elem_of_nil|].
  destruct ls as [|z ls].
  - intros Hx. right. exists y. split; [by left | done].
  - rewrite !elem_of_app. intros [Hx|[Hx|Hx]].
    + right. exists y. split; [by left | done].
    + by left.
    + destruct (IH Hx) as [?|(l & Hl & Hxl)]; [by left|].
      right. exists l. split; [by right | done].
Qed.

(** A character of the renumbered text that is no numbering character is
    a character of the text. *)
Lemma renumbered_elem_of (t t' : str) (x : ascii) :
  renumbered t t' -> is_numbering_char x = false -> x ∈ t' -> x ∈ t.
Proof.
  intros H Hx. induction H as [|y t t' _ IH|a a' t t' _ _ Ha Ha' _ IH].
  - done.
  - rewrite !elem_of_cons. intros [->|H]; [by left | right; by apply IH].
  - rewrite !elem_of_app. intros [H|H]; [|right; by apply IH].
    rewrite Forall_forall in Ha'. apply Ha' in H. congruence.
Qed.

Lemma occurrences_without_head (c : ascii) (p s : str) :
  c ∉ s -> occurrences (c :: p) s = O.
Proof.
  induction s as [|x s IH]; [done|]. rewrite not_elem_of_cons. intros [Hx Hs].
  cbn [occurrences]. rewrite IH by done.
  rewrite decide_False; [done|]. intros H%prefix_cons_inv_1. done.
Qed.

(** The name of a chapter is a part of its line. *)
Lemma chapter_of_elem_of (min level : Z) (line name : str) (x : ascii) :
  NL ∉ line -> chapter_of min line = Some (level, name) -> x ∈ name -> x ∈ line.
Proof.
  intros Hnl Hch Hx. rewrite chapter_of_no_newline in Hch by done.
  destruct (prefixed_parts is_hash line) as [[h name']|] eqn:Hparts; [|done].
  case_match; [done|]. injection Hch as <- ->.
  apply prefixed_parts_Some in Hparts as (w & -> & _). rewrite !elem_of_app. tauto.
Qed.

Lemma chapters_elem_of (min : Z) (lines : list str) (name : str) (x : ascii) :
  Forall (fun l => NL ∉ l) lines ->
  name ∈ map snd (chapters min lines) -> x ∈ name ->
  exists line, line ∈ lines /\ x ∈ line.
Proof.
  intros Hnl Hname Hx. induction Hnl as [|line lines Hline Hlines IH];
    [by apply elem_of_nil in Hname|].
  rewrite chapters_cons in Hname.
  destruct (chapter_of min line) as [[level name']|] eqn:Hch.
  - cbn [map snd] in Hname. apply elem_of_cons in Hname as [->|Hname].
    + exists line. split; [by left | by eapply chapter_of_elem_of].
    + destruct (IH Hname) as (l & Hl & Hxl). exists l. split; [by right | done].
  - destruct (IH Hname) as (l & Hl & Hxl). exists l. split; [by right | done].
Qed.

Lemma lower_char_backslash (x : ascii) : lower_char x = BACKSLASH -> x = BACKSLASH.
Proof. destruct x as [[] [] [] [] [] [] [] []]; vm_compute; congruence. Qed.

Lemma str_replace_elem_of (old : ascii) (new s : str) (x : ascii) :
  x ∈ str_replace old new s -> x ∈ new \/ x ∈ s.
Proof.
  unfold str_replace. induction s as [|y s IH]; cbn [flat_map]; [by intros ?%elem_of_nil|].
  rewrite elem_of_app, elem_of_cons. intros [H|H].
  - destruct (ascii_eqb y old); [by left|]. apply list_elem_of_singleton in H. tauto.
  - destruct (IH H); tauto.
Qed.

Lemma chapter_link_backslash (name : str) : BACKSLASH ∉ name -> BACKSLASH ∉ chapter_link name.
Proof.
  intros Hname Hin. unfold chapter_link, str_lower in Hin.
  apply list_elem_of_fmap in Hin as (y & Hy & Hin). symmetry in Hy.
  apply lower_char_backslash in Hy as ->.
  repeat (apply str_replace_elem_of in Hin as [Hin|Hin];
          [revert Hin; compute_done || (by intros ?%elem_of_nil)|]).
  done.
Qed.

Lemma chapter_name_to_md_item_backslash (name item : str) :
  BACKSLASH ∉ name -> chapter_name_to_md_item name = Returned item -> BACKSLASH ∉ item.
Proof.
  intros Hname. unfold chapter_name_to_md_item.
  destruct (finditer RE_NUMBERED_HEADER_NAME name) as [|mach _]; [done|].
  intros Heq.
  assert (item = str_mul (lit "  ") (str_count "." (group mach 1)) ++ lit "- [" ++ name
                 ++ lit "](#" ++ chapter_link name ++ lit ")") as -> by congruence.
  rewrite !not_elem_of_app.
  split; [|split; [compute_done|split; [done|split; [compute_done|split;
          [by apply chapter_link_backslash | compute_done]]]]].
  unfold str_mul. induction (Z.to_nat _) as [|n IH]; [apply not_elem_of_nil|].
  cbn [replicate concat]. rewrite not_elem_of_app. split; [compute_done | done].
Qed.

Lemma list_of_map_backslash (names items : list str) :
  Forall (fun name => BACKSLASH ∉ name) names ->
  list_of_map chapter_name_to_md_item names = Returned items ->
  Forall (fun item => BACKSLASH ∉ item) items.
Proof.
  intros H. revert items. induction H as [|name names Hname Hnames IH]; intros items.
  - by intros [= <-].
  - cbn [list_of_map].
    destruct (chapter_name_to_md_item name) as [item|[]|] eqn:E; try done;
      [|by intros [= <-]].
    destruct (list_of_map chapter_name_to_md_item names) as [items'| |]; try done.
    intros [= <-]. constructor; [by eapply chapter_name_to_md_item_backslash | by apply IH].
Qed.

Lemma toc_content_backslash (title : str) (items : list str) :
  BACKSLASH ∉ title -> Forall (fun item => BACKSLASH ∉ item) items ->
  BACKSLASH ∉ toc_content title items.
Proof.
  intros Htitle Hitems. unfold toc_content. rewrite !not_elem_of_app.
  repeat split; try done; try compute_done.
  intros [H|(l & Hl & Hx)]%str_join_elem_of; [revert H; compute_done|].
  rewrite Forall_forall in Hitems. by apply (Hitems l).
Qed.

(** The text the table of content is put into is the text read, after the
    table of a previous run has become a mark again, with its headers
    renumbered. *)
Lemma new_content_renumbered (text : str) :
  let lines := split_on NL text in
  let names := numbered_names 2 {[2 := 0]} (chapters 2 lines) in
  renumbered text (str_join [NL] (rewrite_lines 2 lines names)).
Proof.
  cbn zeta. rewrite <- (str_join_split_on NL text) at 1.
  apply str_join_renumbered. unfold numbered_names. apply rewrite_lines_renumbered.
  - apply split_on_no_newline.
  - unfold dotted_indexes. apply Forall_map, Forall_true. intros m.
    apply dotted_index_numbering.
  - unfold dotted_indexes. rewrite length_map.
    rewrite (indexes_trace_length 2); [by rewrite length_map | | apply chapters_levels].
    apply (indexes_inv_initial 2).
Qed.

(** The marks of a text with one mark at most are all replaced. *)
Lemma sub_from_one_mark (toc text : str) :
  (occurrences TOC_MARK text <= 1)%nat ->
  let out := sub_from RE_TOC_INIT (fun _ => toc) (Some 8%nat) 0 None text in
  (out = text /\ occurrences TOC_MARK text = O)
  \/ exists seg tail,
       text = seg ++ TOC_MARK ++ tail /\ out = seg ++ toc ++ tail
       /\ occurrences TOC_MARK text = 1%nat.
Proof.
  intros Hocc. cbn zeta.
  assert (Hno : forall t, occurrences TOC_MARK t = O ->
                forall count prev, sub_from RE_TOC_INIT (fun _ => toc) count 0 prev t = t).
  { intros t Ht count prev. apply sub_from_no_match. intros j prev'.
    rewrite match_here_mark. rewrite decide_False; [done|]. by apply occurrences_0. }
  destruct (occurrences TOC_MARK text) as [|n] eqn:E.
  - left. split; [|done]. by apply Hno.
  - right. destruct (occurrences_first text) as (seg & tail & -> & Hseg & Htail); [lia|].
    exists seg, tail. split; [done|]. split; [|lia].
    rewrite sub_from_mark_segment by done. rewrite Hno; [done | lia].
Qed.

(** What is written when neither the title nor the text has a backslash. *)
Lemma generate_file_toc_literal (content : str) (title : option str) :
  BACKSLASH ∉ default TOC_CHAPTER_NAME title ->
  BACKSLASH ∉ collapse content ->
  let lines := split_on NL (collapse content) in
  let names := numbered_names 2 {[2 := 0]} (chapters 2 lines) in
  let new := str_join [NL] (rewrite_lines 2 lines names) in
  exists items,
    list_of_map chapter_name_to_md_item names = Returned items
    /\ (generate_file_toc content title).2
       = Returned (sub_from RE_TOC_INIT
                     (fun _ => toc_content (default TOC_CHAPTER_NAME title) items)
                     (Some 8%nat) 0 None new).
Proof.
  intros Htitle Hcontent lines names new.
  destruct (list_of_map_chapter_name_to_md_item names) as [items Hitems].
  exists items. split; [done|].
  rewrite generate_file_toc_eq. cbn zeta. fold lines names new. rewrite Hitems.
  cbn [snd obind]. rewrite re_sub_literal; [done|].
  apply toc_content_backslash; [done|]. apply (list_of_map_backslash names); [|done].
  assert (Hnl : Forall (fun l => NL ∉ l) lines) by apply split_on_no_newline.
  destruct (second_pass 2 lines Hnl) as (_ & Hsnd & _ & _ & Hnl'). cbn zeta in *.
  change (Z.max 2 0) with 2 in *. fold names in Hsnd, Hnl'.
  apply Forall_forall. intros name Hname Hin. rewrite <- Hsnd in Hname.
  destruct (chapters_elem_of 2 _ name BACKSLASH Hnl' Hname Hin) as (line & Hline & Hx).
  apply Hcontent.
  apply (renumbered_elem_of _ new); [apply new_content_renumbered | done |].
  by eapply elem_of_str_join.
Qed.

(** The text of a second run: the table of content becomes the mark again,
    so the text that is split into lines is the text the first run has put
    its table into. *)
Lemma collapse_first_run (toc_chapter_name : str) (items : list str) (new : str) :
  "$"%char ∉ new -> (occurrences TOC_MARK new <= 1)%nat ->
  collapse (sub_from RE_TOC_INIT (fun _ => toc_content toc_chapter_name items)
              (Some 8%nat) 0 None new)
  = new.
Proof.
  intros Hnew Hocc.
  destruct (sub_from_one_mark (toc_content toc_chapter_name items) new Hocc)
    as [[-> _]|(seg & tail & Hnew' & -> & _)].
  - apply collapse_no_block. left. by apply (occurrences_without_head "$").
  - rewrite Hnew' in *. rewrite !not_elem_of_app in Hnew.
    assert (exists body, toc_content toc_chapter_name items = TOC_BEGIN ++ body ++ TOC_END)
      as [body ->].
    { eexists ([NL] ++ lit "## " ++ toc_chapter_name ++ [NL] ++ str_join [NL] items ++ [NL]).
      unfold toc_content. by rewrite <- !app_assoc. }
    replace (seg ++ (TOC_BEGIN ++ body ++ TOC_END) ++ tail)
      with (seg ++ TOC_BEGIN ++ body ++ TOC_END ++ tail) by (by rewrite <- !app_assoc).
    apply collapse_block; tauto.
Qed.

(** The two runs, in the model, where a pass returns whatever the number
    of its chapters is. *)
Lemma generate_file_toc_twice (content : str) (title : option str) :
  "$"%char ∉ content -> BACKSLASH ∉ content ->
  BACKSLASH ∉ default TOC_CHAPTER_NAME title ->
  (occurrences TOC_MARK content <= 1)%nat ->
  exists out,
    (generate_file_toc content title).2 = Returned out
    /\ (generate_file_toc out title).2 = Returned out.
Proof.
  intros Hdollar Hback Htitle Hocc.
  assert (Hcollapse : collapse content = content)
    by (apply collapse_no_block; left; by apply (occurrences_without_head "$")).
  set (lines := split_on NL content).
  set (names := numbered_names 2 {[2 := 0]} (chapters 2 lines)).
  set (lines' := rewrite_lines 2 lines names).
  set (new := str_join [NL] lines').
  assert (Hnl : Forall (fun l => NL ∉ l) lines) by apply split_on_no_newline.
  destruct (second_pass 2 lines Hnl) as (_ & _ & Hnames & Hlines & Hnl'). cbn zeta in *.
  change (Z.max 2 0) with 2 in *. fold names lines' in Hnames, Hlines, Hnl'.
  pose proof (new_content_renumbered content) as Hren. cbn zeta in Hren.
  fold lines names lines' new in Hren.
  assert (Hnew_dollar : "$"%char ∉ new)
    by (intros H; by apply Hdollar, (renumbered_elem_of _ new)).
  assert (Hnew_back : BACKSLASH ∉ new)
    by (intros H; by apply Hback, (renumbered_elem_of _ new)).
  assert (Hnew_occ : (occurrences TOC_MARK new <= 1)%nat)
    by (by rewrite <- (renumbered_occurrences _ _ Hren)).
  destruct (generate_file_toc_literal content title) as (items & Hitems & Hrun);
    [done | by rewrite Hcollapse |].
  cbn zeta in *. rewrite Hcollapse in Hitems, Hrun.
  fold lines names lines' new in Hitems, Hrun.
  set (toc := toc_content (default TOC_CHAPTER_NAME title) items) in *.
  set (out := sub_from RE_TOC_INIT (fun _ => toc) (Some 8%nat) 0 None new) in *.
  exists out. split; [done|].
  assert (Hout : collapse out = new) by (by apply collapse_first_run).
  assert (Hsplit : split_on NL new = lines').
  { apply split_on_str_join; [|done]. intros E. apply (f_equal length) in E.
    unfold lines' in E. rewrite rewrite_lines_length in E
      by apply (numbered_names_length 2).
    pose proof (split_on_nonempty NL content). fold lines in H. by destruct lines. }
  destruct (generate_file_toc_literal out title) as (items' & Hitems' & Hrun');
    [done | by rewrite Hout |].
  cbn zeta in *. rewrite Hout, Hsplit, Hnames in Hitems'.
  rewrite Hout, Hsplit, Hnames, Hlines in Hrun'.
  rewrite Hrun'. assert (items' = items) as -> by congruence. done.
Qed.

(** X5: a second run writes what the first run has written, for a text with
    one mark at most and without dollar sign and backslash, and a title
    without backslash: when the first run returns a text, the run on this
    text returns it again.  The text written by the first run is read, its
    table of content becomes the mark again, the headers get the numbers they
    have, and the same table is put in the place of the mark. *)
Theorem second_run_writes_the_same (content : str) (title : option str) (out : str) :
  "$"%char ∉ content -> BACKSLASH ∉ content ->
  BACKSLASH ∉ default TOC_CHAPTER_NAME title ->
  (occurrences TOC_MARK content <= 1)%nat ->
  (generate_file_toc content title).2 = Returned out ->
  (generate_file_toc out title).2 = Returned out.
Proof.
  intros Hdollar Hback Htitle Hocc Hrun.
  destruct (generate_file_toc_twice content title) as (out' & Hrun1 & Hrun2); [done..|].
  rewrite Hrun in Hrun1. by injection Hrun1 as ->.
Qed.

Lemma second_run_writes_the_same_witness :
  let content := lit "# Manual" ++ [NL] ++ lit "[TOC]" ++ [NL] ++ lit "## 4. Use"
                 ++ [NL] ++ lit "#### Notes" in
  let toc := lit "$%TOC_BEGIN$" ++ [NL] ++ lit "## Table of content" ++ [NL]
             ++ lit "- [1 Use](#1-use)" ++ [NL]
             ++ lit "    - [1.0.1 Notes](#101-notes)" ++ [NL] ++ lit "$%TOC_END$" in
  let out := lit "# Manual" ++ [NL] ++ toc ++ [NL] ++ lit "## 1 Use"
             ++ [NL] ++ lit "#### 1.0.1 Notes" in
  ("$"%char ∉ content) /\ (BACKSLASH ∉ content)
  /\ (occurrences TOC_MARK content <= 1)%nat
  /\ (generate_file_toc content None).2 = Returned out
  /\ (generate_file_toc out None).2 = Returned out.
Proof.
  cbn zeta. split; [compute_done|]. split; [compute_done|]. split; [vm_compute; lia|].
  assert (Hrun : (generate_file_toc
                    (lit "# Manual" ++ [NL] ++ lit "[TOC]" ++ [NL] ++ lit "## 4. Use"
                     ++ [NL] ++ lit "#### Notes") None).2
                 = Returned (lit "# Manual" ++ [NL]
                     ++ (lit "$%TOC_BEGIN$" ++ [NL] ++ lit "## Table of content" ++ [NL]
                         ++ lit "- [1 Use](#1-use)" ++ [NL]
                         ++ lit "    - [1.0.1 Notes](#101-notes)" ++ [NL]
                         ++ lit "$%TOC_END$")
                     ++ [NL] ++ lit "## 1 Use" ++ [NL] ++ lit "#### 1.0.1 Notes"))
    by (vm_compute; reflexivity).
  split; [exact Hrun|].
  apply (second_run_writes_the_same
           (lit "# Manual" ++ [NL] ++ lit "[TOC]" ++ [NL] ++ lit "## 4. Use"
            ++ [NL] ++ lit "#### Notes") None);
    [compute_done | compute_done | compute_done | vm_compute; lia | exact Hrun].
Defined.

(** ** Eight marks or fewer *)

Lemma sub_from_all_marks (repl : rematch -> str) (segs : list str) (rest : str) :
  forall (n : nat) prev,
  Forall (fun seg => ~ occurs_in TOC_MARK seg) segs ->
  occurrences TOC_MARK rest = O -> (length segs <= n)%nat ->
  sub_from RE_TOC_INIT repl (Some n) 0 prev
    (concat (map (fun seg => seg ++ TOC_MARK) segs) ++ rest)
  = concat (map (fun seg => seg ++ repl mark_match) segs) ++ rest.
Proof.
  induction segs as [|seg segs IH]; intros n prev Hall Hrest Hn.
  - apply sub_from_no_match. intros j prev'. rewrite match_here_mark.
    rewrite decide_False; [done|]. by apply occurrences_0.
  - apply Forall_cons in Hall as [Hseg Hall]. destruct n as [|n]; [cbn in Hn; lia|].
    cbn [map concat]. rewrite <- !app_assoc, sub_from_mark_segment by done.
    rewrite IH; [done | done | done | cbn in Hn; lia].
Qed.

(** X6: every mark is replaced when there are 8 or fewer.  For every
    document with 8 marks at most after the table of a previous run has
    become a mark again, the text the table of content is put into is pieces
    without mark, each followed by a mark, and a rest without mark; if the
    table of content is a replacement template that [re] accepts, the text
    written is these pieces, each followed by the table of content, and the
    rest: no mark is left; else the run raises what [re] raises for the
    template. *)
Theorem toc_marks_all_replaced (content : str) (title : option str) :
  let lines := split_on NL (collapse content) in
  let names := numbered_names 2 {[2 := 0]} (chapters 2 lines) in
  let new_content := str_join [NL] (rewrite_lines 2 lines names) in
  (occurrences TOC_MARK (collapse content) <= 8)%nat ->
  exists (items segs : list str) (rest : str),
    list_of_map chapter_name_to_md_item names = Returned items
    /\ length segs = occurrences TOC_MARK (collapse content)
    /\ Forall (fun seg => ~ occurs_in TOC_MARK seg) segs
    /\ new_content = concat (map (fun seg => seg ++ TOC_MARK) segs) ++ rest
    /\ occurrences TOC_MARK rest = O
    /\ (generate_file_toc content title).2
       = obind (parse_template 0 TNormal
                  (toc_content (default TOC_CHAPTER_NAME title) items))
           (fun template =>
              Returned (concat (map (fun seg => seg ++ expand_template template mark_match)
                                    segs) ++ rest)).
Proof.
  intros lines names new_content Hmarks.
  destruct (list_of_map_chapter_name_to_md_item names) as [items Hitems].
  pose proof (new_content_occurrences content) as Hocc. cbn zeta in Hocc.
  fold lines names new_content in Hocc.
  destruct (occurrences_split (occurrences TOC_MARK new_content) new_content)
    as (segs & rest & Hlen & Hsegs & Hnew & Hrest); [lia|].
  exists items, segs, rest. repeat split; try done; [lia..|].
  rewrite generate_file_toc_eq. cbn zeta. fold lines names new_content.
  rewrite Hitems. cbn [snd obind]. unfold re_sub. cbn [RE_TOC_INIT p_groups].
  destruct (parse_template 0 TNormal _) as [template|e|]; [|done..].
  cbn [obind]. f_equal.
  change (count_of_Z RE_MULTILINE) with (Some 8%nat). rewrite Hnew at 1.
  apply sub_from_all_marks; [done | lia | lia].
Qed.

Lemma toc_marks_all_replaced_witness :
  let content := lit "[TOC]" ++ [NL] ++ lit "## A" ++ [NL] ++ lit "[TOC]" in
  let toc := lit "$%TOC_BEGIN$" ++ [NL] ++ lit "## Table of content" ++ [NL]
             ++ lit "- [1 A](#1-a)" ++ [NL] ++ lit "$%TOC_END$" in
  occurrences TOC_MARK (collapse content) = 2%nat
  /\ (generate_file_toc content None).2
     = Returned (toc ++ [NL] ++ lit "## 1 A" ++ [NL] ++ toc)
  /\ exists (items segs : list str) (rest : str),
       length segs = 2%nat
       /\ occurrences TOC_MARK rest = O
       /\ (generate_file_toc content None).2
          = obind (parse_template 0 TNormal (toc_content TOC_CHAPTER_NAME items))
              (fun template =>
                 Returned (concat (map (fun seg => seg ++ expand_template template mark_match)
                                       segs) ++ rest)).
Proof.
  cbn zeta. split; [vm_compute; reflexivity|]. split; [vm_compute; reflexivity|].
  destruct (toc_marks_all_replaced
              (lit "[TOC]" ++ [NL] ++ lit "## A" ++ [NL] ++ lit "[TOC]") None)
    as (items & segs & rest & _ & Hlen & _ & _ & Hrest & Hrun).
  - vm_compute. lia.
  - by exists items, segs, rest.
Defined.

(** ** The syntax of a header *)

Lemma hashes_str_mul (h : str) :
  Forall (fun x => is_hash x = true) h -> h = str_mul (lit "#") (Z.of_nat (length h)).
Proof.
  unfold str_mul. rewrite Nat2Z.id. change (lit "#") with ["#"%char].
  induction 1 as [|x h Hx _ IH]; [done|]. cbn [length replicate concat app].
  unfold is_hash, ascii_eqb in Hx. apply bool_decide_eq_true in Hx as ->. by f_equal.
Qed.

(** X7: what a header is.  A line without line break is a chapter of level
    [level] and name [name] exactly when it is [level] hash signs, [level]
    being 1 or more and [min_toc_level] or more, then one blank or more,
    then [name], which starts with no blank: the blanks at the end of the
    line belong to the name, a line that starts with a blank is no header,
    nor is a line without a blank after its hash signs, and there is no upper
    limit to the level. *)
Theorem header_syntax (min level : Z) (line name : str) :
  NL ∉ line ->
  chapter_of min line = Some (level, name)
  <-> exists w,
        line = str_mul (lit "#") level ++ w ++ name
        /\ 1 <= level /\ min <= level
        /\ w <> [] /\ Forall (fun x => is_space x = true) w
        /\ span is_space name = O.
Proof.
  intros Hnl. split.
  - intros Hch. pose proof (chapter_of_level _ _ _ _ Hch) as Hmin.
    pose proof (chapter_of_level_pos _ _ _ _ Hch) as Hpos.
    rewrite chapter_of_no_newline in Hch by done.
    destruct (prefixed_parts is_hash line) as [[h name']|] eqn:Hparts; [|done].
    case_match; [done|]. injection Hch as <- ->.
    pose proof (prefixed_parts_no_blank _ _ _ _ Hparts) as Hblank.
    apply prefixed_parts_Some in Hparts as (w & -> & Hh & Hph & Hw & Hpw).
    exists w. by rewrite <- hashes_str_mul.
  - intros (w & -> & Hpos & Hmin & Hw & Hpw & Hblank).
    destruct (str_mul_hash level Hpos) as (H1 & H2 & H3 & H4).
    rewrite chapter_of_no_newline by done.
    rewrite (prefixed_parts_exact _ _ w name); try done; [|apply is_hash_not_space].
    rewrite H3. by rewrite (proj2 (Z.ltb_ge _ _)) by lia.
Qed.

Lemma header_syntax_witness :
  (NL ∉ lit "#######   7.1 The  name  ")
  /\ (chapter_of 2 (lit "#######   7.1 The  name  ") = Some (7, lit "7.1 The  name  ")
      <-> exists w,
            lit "#######   7.1 The  name  " = str_mul (lit "#") 7 ++ w ++ lit "7.1 The  name  "
            /\ 1 <= 7 /\ 2 <= 7
            /\ w <> [] /\ Forall (fun x => is_space x = true) w
            /\ span is_space (lit "7.1 The  name  ") = O)
  /\ chapter_of 2 (lit "#######   7.1 The  name  ") = Some (7, lit "7.1 The  name  ")
  /\ chapter_of 2 (lit "##Name") = None
  /\ chapter_of 2 (lit " ## Name") = None
  /\ chapter_of 2 (lit "# Name") = None.
Proof.
  split; [compute_done|]. split; [apply header_syntax; compute_done|].
  by vm_compute.
Defined.

(** ** The number before a name *)

Lemma elem_of_sorted (l : list Z) (x : Z) : x ∈ sorted l <-> x ∈ l.
Proof. unfold sorted. by rewrite merge_sort_Permutation. Qed.

Lemma dotted_index_shape (m : gmap Z Z) :
  m <> ∅ -> (forall k v, m !! k = Some v -> 0 <= v) -> index_shape (dotted_index m).
Proof.
  intros Hne Hpos. unfold dotted_index. apply str_join_index_shape.
  - intros E. apply map_eq_nil in E. apply Hne, keys_empty_inv.
    apply Permutation_nil_r. rewrite <- E. unfold sorted.
    by rewrite merge_sort_Permutation.
  - apply Forall_map, Forall_forall. intros k Hk.
    apply (proj1 (elem_of_sorted _ _)) in Hk. apply elem_of_keys in Hk as [v Hv]. rewrite lookup_total_alt, Hv. cbn.
    destruct (str_of_Z_digits v (Hpos _ _ Hv)) as [H1 H2].
    split; [done|]. eapply Forall_impl; [exact H2|]. cbn. intros c Hc.
    unfold is_dot_or_digit. by rewrite Hc, orb_true_r.
Qed.

Lemma clean_name_shape (name : str) :
  NL ∉ name -> span is_space name = O ->
  (NL ∉ clean_name name) /\ span is_space (clean_name name) = O.
Proof.
  intros Hnl Hblank. rewrite clean_name_no_newline by done.
  destruct (prefixed_parts is_dot_or_digit name) as [[d rest]|] eqn:Hparts; [|done].
  split; [by eapply prefixed_parts_no_newline | by eapply prefixed_parts_no_blank].
Qed.

(** X8: the number of a name is replaced, not added to.  For a name without
    line break that starts with no blank, and a dictionary that is not empty
    and has no negative counter, the name that [get_new_chapter_name] returns
    is the index, a blank and the name without its number; numbered again,
    with any dictionary, it gives what the name itself gives: the number it
    got is taken off first. *)
Theorem get_new_chapter_name_again (name : str) (m m' : gmap Z Z) :
  NL ∉ name -> span is_space name = O ->
  m <> ∅ -> (forall k v, m !! k = Some v -> 0 <= v) ->
  exists numbered,
    get_new_chapter_name name m = Returned numbered
    /\ numbered = dotted_index m ++ lit " " ++ clean_name name
    /\ clean_name numbered = clean_name name
    /\ get_new_chapter_name numbered m' = get_new_chapter_name name m'.
Proof.
  intros Hnl Hblank Hne Hpos. eexists. split; [apply get_new_chapter_name_eq|].
  destruct (clean_name_shape name Hnl Hblank) as [Hnl' Hblank'].
  rewrite !get_new_chapter_name_eq.
  rewrite clean_name_numbered; [| by apply dotted_index_shape | done | done].
  done.
Qed.

Lemma get_new_chapter_name_again_witness :
  let m := <[3 := 2]> {[2 := 1]} : gmap Z Z in
  let m' := {[2 := 4]} : gmap Z Z in
  get_new_chapter_name (lit "7.1 3.2 Scope") m = Returned (lit "1.2 3.2 Scope")
  /\ get_new_chapter_name (lit "1.2 3.2 Scope") m' = Returned (lit "4 3.2 Scope")
  /\ get_new_chapter_name (lit "7.1 3.2 Scope") m' = Returned (lit "4 3.2 Scope").
Proof.
  cbn zeta.
  destruct (get_new_chapter_name_again (lit "7.1 3.2 Scope") (<[3 := 2]> {[2 := 1]})
              {[2 := 4]}) as (numbered & H1 & H2 & H3 & H4).
  - compute_done.
  - done.
  - apply insert_non_empty.
  - intros k v. rewrite lookup_insert_Some, lookup_singleton_Some. lia.
  - assert (numbered = lit "1.2 3.2 Scope") as ->
      by (rewrite H2; by vm_compute).
    split; [done|]. split; [by vm_compute|]. rewrite <- H4. by vm_compute.
Defined.

(** ** The items of the table of content *)

Lemma str_count_app (c : ascii) (a b : str) :
  str_count c (a ++ b) = str_count c a + str_count c b.
Proof. unfold str_count. rewrite filter_app, length_app. lia. Qed.

Lemma str_count_digits (s : str) :
  Forall (fun c => is_digit c = true) s -> str_count "." s = 0.
Proof.
  unfold str_count. induction 1 as [|x s Hx _ IH]; [done|].
  rewrite filter_cons_False; [done|]. intros ->. done.
Qed.

(** The dots of an index: one less than its counters. *)
Lemma str_count_index (l : list Z) :
  l <> [] -> Forall (fun z => 0 <= z) l ->
  str_count "." (str_join (lit ".") (map str_of_Z l)) = Z.of_nat (length l) - 1.
Proof.
  intros Hne H. induction H as [|z l Hz Hl IH]; [done|].
  destruct l as [|z' l].
  - cbn. apply str_count_digits. by apply str_of_Z_digits.
  - change (str_join (lit ".") (map str_of_Z (z :: z' :: l)))
      with (str_of_Z z ++ lit "." ++ str_join (lit ".") (map str_of_Z (z' :: l))).
    rewrite !str_count_app, IH by done.
    rewrite (str_count_digits (str_of_Z z)) by by apply str_of_Z_digits.
    change (str_count "." (lit ".")) with 1. cbn [length]. lia.
Qed.

Lemma index_of_dots (min : Z) (seen : list Z) :
  Forall (fun l => min <= l /\ 1 <= l) seen ->
  str_count "." (index_of min seen) = default min (last seen) - min.
Proof.
  intros Hseen. unfold index_of.
  assert (Htop : min <= default min (last seen)).
  { destruct (last seen) as [t|] eqn:E; cbn; [|lia].
    apply last_Some in E as [l' ->]. rewrite Forall_app, Forall_singleton in Hseen. lia. }
  rewrite <- (map_map (fun k => count_since k seen) str_of_Z).
  rewrite str_count_index.
  - rewrite length_map, length_seqZ. lia.
  - rewrite seqZ_cons by lia. done.
  - apply Forall_map, Forall_true. intros k. apply count_since_nonneg.
Qed.

(** The item of a name that starts with an index. *)
Lemma chapter_name_to_md_item_numbered (index name : str) :
  index_shape index -> NL ∉ name ->
  let chapter_name := index ++ lit " " ++ name in
  chapter_name_to_md_item chapter_name
  = Returned (str_mul (lit "  ") (str_count "." index) ++ lit "- [" ++ chapter_name
              ++ lit "](#" ++ chapter_link chapter_name ++ lit ")").
Proof.
  intros Hindex Hnl. cbn zeta.
  destruct (numbered_name_shape index name Hindex Hnl) as [Hnl' _].
  destruct Hindex as [H1 H2]. unfold chapter_name_to_md_item.
  rewrite (finditer_anchored _ _ _ RE_NUMBERED_HEADER_NAME_shape eq_refl).
  rewrite match_here_RE_NUMBERED_HEADER_NAME by done.
  destruct (prefixed_parts_is_Some is_dot_or_digit index (lit " ") name) as [rest ->];
    [apply is_dot_or_digit_not_space | done | done | done | by repeat constructor |].
  done.
Qed.

(** X9: the indentation of an item.  The name of a chapter of level
    [level], numbered after chapters of the levels [seen], gives an item that
    is indented by two blanks for every level above [min_toc_level], with the
    name as text of the link. *)
Theorem item_indentation (min level : Z) (seen : list Z) (name : str) :
  Forall (fun l => min <= l /\ 1 <= l) seen -> min <= level -> 1 <= level ->
  NL ∉ name ->
  let chapter_name := index_of min (seen ++ [level]) ++ lit " " ++ name in
  chapter_name_to_md_item chapter_name
  = Returned (str_mul (lit "  ") (level - min) ++ lit "- [" ++ chapter_name
              ++ lit "](#" ++ chapter_link chapter_name ++ lit ")").
Proof.
  intros Hseen Hmin Hpos Hnl. cbn zeta.
  assert (Hall : Forall (fun l => min <= l /\ 1 <= l) (seen ++ [level]))
    by (rewrite Forall_app, Forall_singleton; by split).
  rewrite chapter_name_to_md_item_numbered; [|by apply index_of_shape | done].
  rewrite index_of_dots by done. by rewrite last_snoc.
Qed.

Lemma item_indentation_witness :
  chapter_name_to_md_item (index_of 2 ([2; 3] ++ [4]) ++ lit " " ++ lit "Deep")
  = Returned (lit "    - [1.1.1 Deep](#111-deep)").
Proof.
  rewrite (item_indentation 2 4 [2; 3] (lit "Deep")); [by vm_compute | | lia | lia | compute_done].
  repeat constructor; lia.
Defined.

(** A name that does not start with a digit or a dot has no number. *)
Lemma finditer_unnumbered (name : str) :
  (forall x t, name = x :: t -> is_dot_or_digit x = false) ->
  finditer RE_NUMBERED_HEADER_NAME name = [].
Proof.
  intros Hname.
  rewrite (finditer_anchored _ _ _ RE_NUMBERED_HEADER_NAME_shape eq_refl).
  destruct (match_here RE_NUMBERED_HEADER_NAME None name) as [m|] eqn:E; [|done].
  apply match_here_matches in E. pose proof (matches_prefix _ _ _ _ _ _ E) as Hprefix.
  apply RE_NUMBERED_HEADER_NAME_matches_inv in E
    as (h & w & d & Hc & _ & Hh & Hph & _).
  rewrite Hc in Hprefix. destruct h as [|x h]; [done|].
  apply Forall_cons in Hph as [Hx _]. rewrite (Hname x _ Hprefix) in Hx. done.
Qed.

Lemma list_of_map_stop {A B} (f : A -> outcome B) (l1 l2 : list A) (x : A) :
  f x = Raised StopIteration -> list_of_map f (l1 ++ x :: l2) = list_of_map f l1.
Proof.
  intros Hx. induction l1 as [|y l1 IH]; cbn [app list_of_map].
  - by rewrite Hx.
  - by rewrite IH.
Qed.

(** X10: a name without number ends the table of content.  For a name that
    does not start with a digit or a dot, as the names are that
    [get_chapter_names] returns when no list for the new lines is passed,
    [chapter_name_to_md_item] raises [StopIteration]; raised inside [map],
    this ends the iteration: the items are those of the names before it, and
    nothing is raised. *)
Theorem item_of_name_without_number (name : str) :
  (forall x t, name = x :: t -> is_dot_or_digit x = false) ->
  chapter_name_to_md_item name = Raised StopIteration
  /\ forall names1 names2,
       list_of_map chapter_name_to_md_item (names1 ++ name :: names2)
       = list_of_map chapter_name_to_md_item names1.
Proof.
  intros Hname.
  assert (H : chapter_name_to_md_item name = Raised StopIteration)
    by (unfold chapter_name_to_md_item; by rewrite finditer_unnumbered).
  split; [done|]. intros names1 names2. by apply list_of_map_stop.
Qed.

Lemma item_of_name_without_number_witness :
  chapter_name_to_md_item (lit "Intro") = Raised StopIteration
  /\ list_of_map chapter_name_to_md_item [lit "1 Use"; lit "Intro"; lit "2 More"]
     = Returned [lit "- [1 Use](#1-use)"].
Proof.
  destruct (item_of_name_without_number (lit "Intro")) as [H1 H2].
  - intros x t [= <- <-]. done.
  - split; [done|].
    change [lit "1 Use"; lit "Intro"; lit "2 More"]
      with ([lit "1 Use"] ++ lit "Intro" :: [lit "2 More"]).
    rewrite H2. by vm_compute.
Defined.

(** ** The first line of a pass *)

(** X11: [skip_n] leaves out the first [n] elements: all of them come back
    when [n] is zero or negative, none when [n] is the length or more, and
    skipping twice is skipping the sum. *)
Theorem skip_n_spec {T} (l : list T) (n : Z) :
  skip_n l n = drop (Z.to_nat n) l
  /\ (n <= 0 -> skip_n l n = l)
  /\ (Z.of_nat (length l) <= n -> skip_n l n = [])
  /\ (forall k, 0 <= n -> 0 <= k -> skip_n (skip_n l n) k = skip_n l (n + k))
  /\ (forall i x, 0 <= n -> skip_n l n !! i = Some x <-> l !! (Z.to_nat n + i)%nat = Some x).
Proof.
  split; [apply skip_n_drop|]. split; [|split; [|split]].
  - intros Hn. rewrite skip_n_drop. by replace (Z.to_nat n) with O by lia.
  - intros Hn. rewrite skip_n_drop. apply drop_ge. lia.
  - intros k Hn Hk. rewrite !skip_n_drop, drop_drop. f_equal. lia.
  - intros i x Hn. by rewrite skip_n_drop, lookup_drop.
Qed.

(** X12: a pass that starts at line [start_line_index] is a pass over the
    lines from this one on; it returns no name and changes nothing when the
    index is the number of lines or more. *)
Theorem start_line_index_drops (lines : list str) (start cur min : Z)
    (ci : option (gmap Z Z)) (nc : option (list str)) :
  0 <= start ->
  get_chapter_names lines start ci cur min nc
  = get_chapter_names (drop (Z.to_nat start) lines) 0 ci cur min nc
  /\ (Z.of_nat (length lines) <= start ->
      get_chapter_names lines start ci cur min nc
      = ({| chapter_indexes := default {[min := 0]} ci; new_content := nc; stdout := [] |},
         Returned [])).
Proof.
  intros Hstart. unfold get_chapter_names.
  rewrite !get_chapter_names_in_scan by lia. cbn [Z.to_nat drop]. split; [done|].
  intros Hlen. rewrite drop_ge by lia. done.
Qed.

Lemma start_line_index_drops_witness :
  let lines := [lit "## A"; lit "text"; lit "### B"; lit "## C"] in
  get_chapter_names lines 2 None 0 2 (Some [])
  = get_chapter_names [lit "### B"; lit "## C"] 0 None 0 2 (Some [])
  /\ (get_chapter_names lines 2 None 0 2 (Some [])).2
     = Returned [lit "0.1 B"; lit "1 C"]
  /\ (get_chapter_names lines 4 None 0 2 (Some [])).2 = Returned [].
Proof.
  cbn zeta.
  destruct (start_line_index_drops [lit "## A"; lit "text"; lit "### B"; lit "## C"]
              2 0 2 None (Some [])) as [H _]; [lia|].
  split; [exact H|]. vm_compute. by split.
Defined.

(** X13: without a list for the new lines the names come back as they are
    in the headers, with the numbers they have there; what is printed and
    the counters are those of a pass with such a list. *)
Theorem names_without_new_content (lines : list str) (min : Z) (nc : list str) :
  let r := get_chapter_names lines 0 None 0 min None in
  let r' := get_chapter_names lines 0 None 0 min (Some nc) in
  r.2 = Returned (map snd (chapters min lines))
  /\ new_content r.1 = None
  /\ stdout r.1 = stdout r'.1
  /\ chapter_indexes r.1 = chapter_indexes r'.1
  /\ (forall line level name,
        NL ∉ line -> chapter_of min line = Some (level, name) ->
        exists w, line = str_mul (lit "#") level ++ w ++ name).
Proof.
  cbn zeta. rewrite !get_chapter_names_spec. cbn zeta. repeat split.
  intros line level name Hnl Hch.
  rewrite chapter_of_no_newline in Hch by done.
  destruct (prefixed_parts is_hash line) as [[h name']|] eqn:Hparts; [|done].
  case_match; [done|]. injection Hch as <- ->.
  apply prefixed_parts_Some in Hparts as (w & -> & Hh & Hph & Hw & Hpw).
  exists w. by rewrite <- hashes_str_mul.
Qed.

(** ** What a pass prints *)

Lemma printed_lines_names (chs : list (Z * str)) :
  forall (cur : Z) (names : list str),
  length names = length chs ->
  names `sublist_of` printed_lines cur chs names
  /\ length (printed_lines cur chs names)
     = (length names + level_skips cur (map fst chs))%nat
  /\ (level_skips cur (map fst chs) = O -> printed_lines cur chs names = names).
Proof.
  induction chs as [|[level chapter_name] chs IH]; intros cur [|name names] Hlen; try done.
  cbn [printed_lines map fst level_skips].
  destruct (IH level names) as (IH1 & IH2 & IH3); [by injection Hlen|].
  split; [|split].
  - apply sublist_inserts_l. cbn [app]. by apply sublist_skip.
  - rewrite length_app. cbn [app length]. rewrite IH2.
    destruct ((level >? cur) && (level - cur >? 1)); cbn [length]; lia.
  - destruct ((level >? cur) && (level - cur >? 1)); [lia|].
    cbn [Nat.add app]. intros H. by rewrite IH3.
Qed.

Lemma printed_lines_eq (chs : list (Z * str)) :
  forall (cur : Z) (names : list str),
  printed_lines cur chs names
  = concat (zip_with
              (fun '(prev, (level, header)) name =>
                 (if level - prev >? 1
                  then [lit "WARN: level (" ++ str_of_Z level ++ lit ") of chapter "
                        ++ [DQUOTE] ++ header ++ [DQUOTE]
                        ++ lit " is larger than expected (" ++ str_of_Z (prev + 1)
                        ++ lit ")"]
                  else []) ++ [name])
              (zip (cur :: map fst chs) chs) names).
Proof.
  induction chs as [|[level header] chs IH]; intros cur names; [done|].
  destruct names as [|name names]; [done|].
  cbn [printed_lines map fst zip zip_with concat]. rewrite IH.
  replace ((level >? cur) && (level - cur >? 1)) with (level - cur >? 1)
    by (destruct (Z.gtb_spec (level - cur) 1), (Z.gtb_spec level cur); cbn; lia || done).
  unfold warning. by rewrite <- !app_assoc.
Qed.

(** X14: what a pass prints.  For every chapter, in the order of the
    chapters, it prints the numbered name that it returns for the chapter,
    and before this name, when the level of the chapter is more than one
    above the level of the chapter before it (above [max(min_toc_level, 0)]
    for the first chapter), the warning of lines 106-107 with the level, the
    name of the header as it is in the line and the level that was expected;
    it prints nothing else. *)
Theorem printed_names (lines : list str) (min : Z) (nc : list str) :
  let r := get_chapter_names lines 0 None 0 min (Some nc) in
  let chs := chapters min lines in
  let before := Z.max min 0 :: map fst chs in
  let skips := level_skips (Z.max min 0) (map fst chs) in
  exists names,
    r.2 = Returned names
    /\ length names = length chs
    /\ stdout r.1
       = concat (zip_with
                   (fun '(prev, (level, header)) name =>
                      (if level - prev >? 1
                       then [lit "WARN: level (" ++ str_of_Z level ++ lit ") of chapter "
                             ++ [DQUOTE] ++ header ++ [DQUOTE]
                             ++ lit " is larger than expected (" ++ str_of_Z (prev + 1)
                             ++ lit ")"]
                       else []) ++ [name])
                   (zip before chs) names)
    /\ names `sublist_of` stdout r.1
    /\ length (stdout r.1) = (length names + skips)%nat
    /\ (skips = O -> stdout r.1 = names).
Proof.
  cbn zeta. rewrite get_chapter_names_spec. cbn zeta. eexists. split; [done|].
  cbn [fst stdout]. split; [apply numbered_names_length|].
  split; [apply printed_lines_eq|]. apply printed_lines_names, numbered_names_length.
Qed.

(** ** A dictionary without entry *)

Lemma scan_lines_no_chapter (cur min : Z) (pre rest : list str) :
  forall w, Forall (fun x => chapter_of min x = None) pre ->
  scan_lines cur min (pre ++ rest) w
  = scan_lines cur min rest (foldl (fun w x => world_after_line x w) w pre).
Proof.
  induction pre as [|x pre IH]; intros w Hpre; [done|].
  apply Forall_cons in Hpre as [Hx Hpre]. cbn [app scan_lines foldl]. rewrite Hx.
  by apply IH.
Qed.



(** X15: an empty dictionary makes a deeper header raise, and nothing else
    does.  Line 88 keeps a dictionary that is passed, empty or not; when the
    first chapter of the lines is of a level above
    [max(min_toc_level, current_chapter_level)], line 109 takes the maximum
    of no key and the call raises [ValueError]. *)
Theorem empty_dictionary_raises (pre rest : list str) (line name : str)
    (level cur min : Z) (nc : option (list str)) :
  Forall (fun x => chapter_of min x = None) pre ->
  chapter_of min line = Some (level, name) ->
  Z.max min cur < level ->
  (get_chapter_names (pre ++ line :: rest) 0 (Some ∅) cur min nc).2 = Raised ValueError.
Proof.
  intros Hpre Hch Hlevel. unfold get_chapter_names.
  rewrite !get_chapter_names_in_scan by lia.
  change (drop (Z.to_nat 0) (pre ++ line :: rest)) with (pre ++ line :: rest).
  cbn [default]. unfold id.
  rewrite !scan_lines_no_chapter by done. cbn [scan_lines]. rewrite Hch.
  assert (Hw : forall w, chapter_indexes (foldl (fun w x => world_after_line x w) w pre)
                         = chapter_indexes w).
  { intros w. revert w. clear Hpre. induction pre as [|x pre IH]; intros w; [done|].
    cbn [foldl]. by rewrite IH. }
  rewrite !Hw. cbn [chapter_indexes].
  unfold step_indexes. rewrite (proj2 (Z.ltb_ge _ _)) by lia.
  rewrite (proj2 (Z.gtb_gt _ _)) by lia. by rewrite open_levels_empty.
Qed.

Lemma empty_dictionary_raises_witness :
  (get_chapter_names ([lit "text"] ++ lit "### A" :: [lit "## B"]) 0 (Some ∅) 0 2 None).2
  = Raised ValueError
  /\ (get_chapter_names [lit "text"; lit "## A"; lit "### B"] 0 (Some ∅) 0 2 None).2
     = Returned [lit "A"; lit "B"].
Proof.
  split; [|by vm_compute].
  apply (empty_dictionary_raises [lit "text"] [lit "## B"] (lit "### A") (lit "A") 3 0 2 None).
  - by repeat constructor.
  - by vm_compute.
  - lia.
Defined.



(** ** The anchor of an item *)

Lemma chapter_link_eq (chapter_name : str) :
  chapter_link chapter_name
  = str_lower (map (fun c => if ascii_eqb c " " then "-"%char else c)
                   (filter (fun c => c ∉ lit "./#-&") chapter_name)).
Proof.
  unfold chapter_link.
  rewrite !str_replace_nil, (str_replace_char " " "-"). f_equal. f_equal.
  rewrite !list_filter_filter.
  induction chapter_name as [|c s IH]; [done|].
  rewrite !filter_cons, IH.
  assert (Hiff : c ∉ lit "./#-&" <->
                 c <> "&"%char /\ c <> "-"%char /\ c <> "#"%char /\ c <> "/"%char
                 /\ c <> "."%char).
  { unfold lit. cbn. rewrite !not_elem_of_cons. pose proof (not_elem_of_nil c). tauto. }
  repeat case_decide; tauto.
Qed.

(** Lower case makes none of the characters that an anchor has not, and no
    capital letter. *)
Lemma lower_char_anchor (y : ascii) :
  bool_decide (y ∈ lit "./#& ") = false ->
  bool_decide (lower_char y ∈ lit "./#& ") = false
  /\ ((65 <=? code (lower_char y)) && (code (lower_char y) <=? 90))%N = false.
Proof. destruct y as [[] [] [] [] [] [] [] []]; vm_compute; done. Qed.

(** X17: the characters of an anchor.  The anchor of a name has no dot,
    slash, hash sign, ampersand or blank and no capital letter of A to Z;
    names that differ in dots, slashes, hash signs, hyphens and ampersands
    only have the same anchor, as the names of the chapters 1.1 and 11 have
    when the titles are the same. *)
Theorem anchor_characters (name : str) :
  Forall (fun x => (x ∉ lit "./#& ")
                   /\ ((65 <=? code x) && (code x <=? 90))%N = false)
         (chapter_link name)
  /\ (forall name',
        filter (fun c => c ∉ lit "./#-&") name = filter (fun c => c ∉ lit "./#-&") name' ->
        chapter_link name = chapter_link name')
  /\ chapter_link (lit "1.1 Use") = chapter_link (lit "11 Use").
Proof.
  split; [|split; [|by vm_compute]].
  - rewrite chapter_link_eq. unfold str_lower. rewrite Forall_forall. intros x Hx.
    apply list_elem_of_fmap in Hx as (y & -> & Hy).
    apply list_elem_of_fmap in Hy as (c & -> & Hc).
    apply list_elem_of_filter in Hc as [Hc _].
    destruct (lower_char_anchor (if ascii_eqb c " " then "-"%char else c)) as [H1 H2].
    + apply bool_decide_eq_false. unfold ascii_eqb. intros Hin. apply Hc.
      revert Hin. case_bool_decide as E; unfold lit; cbn; rewrite !elem_of_cons;
        intros H; pose proof (not_elem_of_nil c);
        pose proof (not_elem_of_nil "-"%char); intuition congruence.
    + split; [by apply bool_decide_eq_false in H1 | done].
  - intros name' H. by rewrite !chapter_link_eq, H.
Qed.

(** ** A run without backslash *)

Lemma replaced_elem_of (t t' : str) (x : ascii) :
  replaced t t' -> x ∈ t' -> x ∈ t \/ x ∈ TOC_MARK.
Proof.
  induction 1 as [|y t t' _ IH|piece t t' _ IH].
  - by intros ?%elem_of_nil.
  - rewrite !elem_of_cons. intros [->|H]; [left; by left|]. destruct (IH H); tauto.
  - rewrite !elem_of_app. intros [H|H]; [by right|]. destruct (IH H); tauto.
Qed.

Lemma collapse_backslash (content : str) :
  BACKSLASH ∉ content -> BACKSLASH ∉ collapse content.
Proof.
  intros Hcontent Hin. unfold collapse in Hin. rewrite sub_from_template_literal in Hin.
  pose proof (sub_from_replaced RE_TOC_FINISHED content None 0 None) as H.
  rewrite drop_0 in H. destruct (replaced_elem_of _ _ _ H Hin) as [H'|H']; [done|].
  revert H'. compute_done.
Qed.

Lemma zip_with_names_shape (min : Z) (lines : list str) :
  Forall (fun l => NL ∉ l) lines ->
  forall indexes, Forall index_shape indexes ->
  Forall (fun name => exists index rest,
            index_shape index /\ (NL ∉ rest) /\ name = index ++ lit " " ++ rest)
         (zip_with (fun index ch => index ++ lit " " ++ clean_name ch.2) indexes
                   (chapters min lines)).
Proof.
  induction 1 as [|line ls Hline Hls IH]; intros indexes Hshape.
  - destruct indexes; constructor.
  - rewrite chapters_cons. destruct (chapter_of min line) as [[level name]|] eqn:Hch;
      [|by apply IH].
    destruct indexes as [|index indexes]; [constructor|].
    apply Forall_cons in Hshape as [Hindex Hshape]. cbn [zip_with]. constructor.
    + exists index, (clean_name name). split; [done|]. split; [|done].
      by destruct (chapter_of_name _ _ _ _ Hline Hch) as (_ & _ & ? & _).
    + by apply IH.
Qed.

(** Every numbered name has an item. *)
Lemma list_of_map_numbered_names (content : str) :
  let lines := split_on NL (collapse content) in
  let names := numbered_names 2 {[2 := 0]} (chapters 2 lines) in
  forall items,
  list_of_map chapter_name_to_md_item names = Returned items ->
  length items = length names.
Proof.
  intros lines names.
  assert (Hnames : Forall (fun name => exists index rest,
                             index_shape index /\ (NL ∉ rest)
                             /\ name = index ++ lit " " ++ rest) names).
  { unfold names. change 2 with (Z.max 2 0) at 1. rewrite numbered_names_numbering.
    apply zip_with_names_shape; [apply split_on_no_newline|].
    apply numbering_from_shape; [done | apply chapters_levels]. }
  clear -Hnames.
  induction Hnames as [|name names (index & rest & Hindex & Hnl & ->) _ IH]; intros items.
  - by intros [= <-].
  - cbn [list_of_map]. rewrite chapter_name_to_md_item_numbered by done.
    destruct (list_of_map chapter_name_to_md_item names) as [items'| |] eqn:E; try done.
    intros [= <-]. cbn [length]. f_equal. by apply IH.
Qed.

(** X18: without backslash the table of content is put in as it is.  When
    neither the text read nor the title has a backslash, every name of a
    chapter has an item and the table of content is a replacement text
    without escape: line 185 raises no [re.error] and puts the table, as it
    is, in the place of the marks, 8 at most, of the renumbered text; this is
    the text written when the run returns. *)
Theorem run_without_backslash (content : str) (title : option str) :
  BACKSLASH ∉ content -> BACKSLASH ∉ default TOC_CHAPTER_NAME title ->
  let lines := split_on NL (collapse content) in
  let names := numbered_names 2 {[2 := 0]} (chapters 2 lines) in
  let new_content := str_join [NL] (rewrite_lines 2 lines names) in
  exists items,
    list_of_map chapter_name_to_md_item names = Returned items
    /\ length items = length names
    /\ (BACKSLASH ∉ toc_content (default TOC_CHAPTER_NAME title) items)
    /\ re_sub RE_TOC_INIT (toc_content (default TOC_CHAPTER_NAME title) items)
         new_content RE_MULTILINE
       = Returned (sub_from RE_TOC_INIT
                     (fun _ => toc_content (default TOC_CHAPTER_NAME title) items)
                     (Some 8%nat) 0 None new_content)
    /\ forall out,
         (generate_file_toc content title).2 = Returned out ->
         out = sub_from RE_TOC_INIT
                 (fun _ => toc_content (default TOC_CHAPTER_NAME title) items)
                 (Some 8%nat) 0 None new_content.
Proof.
  intros Hcontent Htitle lines names new_content.
  destruct (generate_file_toc_literal content title Htitle (collapse_backslash _ Hcontent))
    as (items & Hitems & Hrun).
  fold lines names new_content in Hitems, Hrun.
  exists items. split; [done|].
  split; [by apply (list_of_map_numbered_names content)|].
  assert (Htoc : BACKSLASH ∉ toc_content (default TOC_CHAPTER_NAME title) items).
  { apply toc_content_backslash; [done|].
    apply (list_of_map_backslash names); [|done].
    assert (Hnl : Forall (fun l => NL ∉ l) lines) by apply split_on_no_newline.
    destruct (second_pass 2 lines Hnl) as (_ & Hsnd & _ & _ & Hnl'). cbn zeta in *.
    change (Z.max 2 0) with 2 in *. fold names in Hsnd, Hnl'.
    apply Forall_forall. intros name Hname Hin. rewrite <- Hsnd in Hname.
    destruct (chapters_elem_of 2 _ name BACKSLASH Hnl' Hname Hin) as (line & Hline & Hx).
    apply (collapse_backslash _ Hcontent).
    apply (renumbered_elem_of _ new_content); [apply new_content_renumbered | done |].
    by eapply elem_of_str_join. }
  split; [done|]. split; [by apply re_sub_literal|].
  intros out Hout. rewrite Hrun in Hout. by injection Hout as <-.
Qed.

Lemma run_without_backslash_witness :
  let content := lit "[TOC]" ++ [NL] ++ lit "## A" in
  let out := lit "$%TOC_BEGIN$" ++ [NL] ++ lit "## Table of content" ++ [NL]
             ++ lit "- [1 A](#1-a)" ++ [NL] ++ lit "$%TOC_END$" ++ [NL] ++ lit "## 1 A" in
  (BACKSLASH ∉ content)
  /\ (generate_file_toc content None).2 = Returned out
  /\ exists items,
       list_of_map chapter_name_to_md_item [lit "1 A"] = Returned items
       /\ out = sub_from RE_TOC_INIT (fun _ => toc_content TOC_CHAPTER_NAME items)
                  (Some 8%nat) 0 None (lit "[TOC]" ++ [NL] ++ lit "## 1 A").
Proof.
  cbn zeta. split; [compute_done|]. split; [by vm_compute|].
  destruct (run_without_backslash (lit "[TOC]" ++ [NL] ++ lit "## A") None)
    as (items & Hitems & _ & _ & _ & Hout); [compute_done | compute_done |].
  exists items. split; [exact Hitems|].
  etransitivity; [apply Hout; vm_compute; reflexivity|].
  f_equal; by vm_compute.
Defined.

(** ** One header in a line *)

(** X19: a line has one header at most.  [RE_HEADER] is compiled without
    [re.MULTILINE], so it matches at the start of the line only: the loop
    over its matches has one round at most, whatever the line is, and a match
    is found by the first chapter only. *)
Theorem one_header_in_a_line (line : str) :
  (length (finditer RE_HEADER line) <= 1)%nat
  /\ finditer RE_HEADER line
     = match match_here RE_HEADER None line with
       | Some mach => [mach]
       | None => []
       end
  /\ forall x t, match_here RE_HEADER (Some x) t = None
                 /\ finditer_from RE_HEADER 0 (Some x) t = [].
Proof.
  pose proof (finditer_anchored RE_HEADER _ line RE_HEADER_shape eq_refl) as H.
  split; [|split; [done|]].
  - rewrite H. destruct (match_here RE_HEADER None line); cbn; lia.
  - intros x t. split.
    + apply (match_here_anchored _ _ _ _ RE_HEADER_shape eq_refl).
    + apply (finditer_from_anchored _ _ _ RE_HEADER_shape eq_refl).
Qed.

(** ** Every chapter has its own index *)

Lemma str_of_Z_inj (z1 z2 : Z) : str_of_Z z1 = str_of_Z z2 -> z1 = z2.
Proof.
  unfold str_of_Z, lit. intros H.
  apply (f_equal string_of_list_ascii) in H.
  rewrite !string_of_list_ascii_of_string in H.
  assert (Hok : forall z, Z.to_int z <> Decimal.Pos Decimal.Nil
                          /\ Z.to_int z <> Decimal.Neg Decimal.Nil).
  { intros [|p|p]; cbn; (split; [|done || (intros [= E]; by apply DecimalPos.Unsigned.to_uint_nonnil in E)]);
      done || (intros [= E]; by apply DecimalPos.Unsigned.to_uint_nonnil in E). }
  apply (f_equal NilZero.int_of_string) in H.
  rewrite !NilZero.isi in H by apply Hok.
  injection H as H. by apply DecimalZ.to_int_inj.
Qed.

Lemma str_of_Z_no_dot (z : Z) : 0 <= z -> "."%char ∉ str_of_Z z.
Proof.
  intros Hz Hin. destruct (str_of_Z_digits z Hz) as [_ H].
  rewrite Forall_forall in H. by specialize (H _ Hin).
Qed.

(** An index is the index of one list of counters. *)
Lemma str_join_counters_inj (l1 l2 : list Z) :
  l1 <> [] -> l2 <> [] -> Forall (fun z => 0 <= z) l1 -> Forall (fun z => 0 <= z) l2 ->
  str_join (lit ".") (map str_of_Z l1) = str_join (lit ".") (map str_of_Z l2) -> l1 = l2.
Proof.
  intros Hne1 Hne2 H1 H2 E.
  apply (f_equal (split_on ".")) in E. change (lit ".") with ["."%char] in E.
  rewrite !split_on_str_join in E.
  - revert l2 E Hne2 H2. clear Hne1 H1. induction l1 as [|z1 l1 IH]; intros [|z2 l2] E; try done.
    injection E as Hz E. intros _ _. apply str_of_Z_inj in Hz as ->. f_equal.
    revert E. clear. revert l2. induction l1 as [|a l1 IH]; intros [|b l2] E; try done.
    injection E as Ha E. apply str_of_Z_inj in Ha as ->. f_equal. by apply IH.
  - by destruct l2.
  - apply Forall_map. eapply Forall_impl; [exact H2|]. apply str_of_Z_no_dot.
  - by destruct l1.
  - apply Forall_map. eapply Forall_impl; [exact H1|]. apply str_of_Z_no_dot.
Qed.

(** Chapters of the level [k] or more do not set the counter of [k] back. *)
Lemma count_since_app (k : Z) (seen ext : list Z) :
  Forall (fun l => k <= l) ext ->
  count_since k (seen ++ ext)
  = count_since k seen + Z.of_nat (length (filter (fun l => l = k) ext)).
Proof.
  induction ext as [|l ext IH] using rev_ind; intros Hext.
  - rewrite app_nil_r. cbn. lia.
  - rewrite Forall_app, Forall_singleton in Hext. destruct Hext as [Hext Hl].
    rewrite app_assoc, count_since_snoc, IH, filter_app, length_app by done.
    rewrite (proj2 (Z.ltb_ge _ _)) by lia. cbn [filter list_filter].
    destruct (Z.eqb_spec l k) as [->|Hne].
    + rewrite decide_True by done. cbn [length]. lia.
    + rewrite decide_False by done. cbn [length]. lia.
Qed.

Lemma list_minimum (l : list Z) :
  l <> [] -> exists k, k ∈ l /\ Forall (fun x => k <= x) l.
Proof.
  induction l as [|x l IH]; [done|]. intros _. destruct l as [|y l].
  - exists x. split; [by left | by repeat constructor].
  - destruct IH as (k & Hk & Hall); [done|].
    destruct (Z.le_gt_cases x k) as [Hle|Hgt].
    + exists x. split; [by left|]. constructor; [cbn; lia|].
      eapply Forall_impl; [exact Hall|]. cbn. lia.
    + exists k. split; [by right|]. constructor; [cbn; lia | done].
Qed.

(** The index after more chapters is another index. *)
Lemma index_of_app_ne (min : Z) (seen ext : list Z) :
  Forall (fun l => min <= l /\ 1 <= l) seen -> seen <> [] ->
  Forall (fun l => min <= l /\ 1 <= l) ext -> ext <> [] ->
  index_of min seen <> index_of min (seen ++ ext).
Proof.
  intros Hseen Hne Hext Hne' E. unfold index_of in E.
  assert (Htop : forall s, Forall (fun l => min <= l /\ 1 <= l) s ->
                 min <= default min (last s)).
  { intros s Hs. destruct (last s) as [t|] eqn:Et; cbn; [|lia].
    apply last_Some in Et as [l' ->]. rewrite Forall_app, Forall_singleton in Hs. lia. }
  assert (Hall : Forall (fun l => min <= l /\ 1 <= l) (seen ++ ext))
    by (by apply Forall_app).
  pose proof (Htop _ Hseen) as Ht1. pose proof (Htop _ Hall) as Ht2.
  assert (Hmap : forall s n, map (fun k => str_of_Z (count_since k s)) n
                             = map str_of_Z (map (fun k => count_since k s) n))
    by (intros; by rewrite map_map).
  rewrite (Hmap seen), (Hmap (seen ++ ext)) in E.
  apply str_join_counters_inj in E.
  - destruct (list_minimum ext Hne') as (k & Hk & Hmin).
    assert (Hlast : default min (last (seen ++ ext)) = default min (last ext)).
    { rewrite last_app. destruct (last ext) eqn:El; [done|].
      apply last_None in El. done. }
    assert (Hlen : default min (last seen) = default min (last (seen ++ ext))).
    { apply (f_equal length) in E. rewrite !length_map, !length_seqZ in E. lia. }
    assert (Hkmin : min <= k).
    { rewrite Forall_forall in Hext. by destruct (Hext _ Hk). }
    assert (Hktop : k <= default min (last ext)).
    { destruct (last ext) as [t|] eqn:El; [|by apply last_None in El].
      cbn. rewrite Forall_forall in Hmin. apply Hmin.
      apply last_Some in El as [l' ->]. rewrite elem_of_app. right. by left. }
    rewrite <- Hlen in E.
    assert (Hcount : count_since k seen = count_since k (seen ++ ext)).
    { assert (Hin : k ∈ seqZ min (default min (last seen) - min + 1))
        by (apply elem_of_seqZ; lia).
      apply list_elem_of_lookup in Hin as [i Hi].
      apply (f_equal (fun l => l !! i)) in E.
      rewrite !list_lookup_fmap, Hi in E. by injection E. }
    rewrite count_since_app in Hcount by done.
    assert (0 < length (filter (fun l => l = k) ext))%nat; [|lia].
    assert (k ∈ filter (fun l => l = k) ext) as Hf by (by apply list_elem_of_filter).
    destruct (filter (fun l => l = k) ext) as [|a b]; [by apply elem_of_nil in Hf|].
    cbn. lia.
  - rewrite seqZ_cons by lia. done.
  - rewrite seqZ_cons by lia. done.
  - apply Forall_map, Forall_true. intros k. apply count_since_nonneg.
  - apply Forall_map, Forall_true. intros k. apply count_since_nonneg.
Qed.

Lemma elem_of_numbering_from (min : Z) (levels : list Z) :
  forall (seen : list Z) (index : str),
  index ∈ numbering_from min seen levels ->
  exists ext, ext <> [] /\ ext `prefix_of` levels /\ index = index_of min (seen ++ ext).
Proof.
  induction levels as [|level levels IH]; intros seen index; [by intros ?%elem_of_nil|].
  cbn [numbering_from]. intros [->|Hin]%elem_of_cons.
  - exists [level]. split; [done|]. split; [by exists levels | done].
  - destruct (IH _ _ Hin) as (ext & Hne & Hpre & ->).
    exists (level :: ext). split; [done|]. split; [by apply prefix_cons|].
    by rewrite <- app_assoc.
Qed.

Lemma numbering_from_NoDup (min : Z) (levels : list Z) :
  forall seen,
  Forall (fun l => min <= l /\ 1 <= l) seen ->
  Forall (fun l => min <= l /\ 1 <= l) levels ->
  NoDup (numbering_from min seen levels).
Proof.
  induction levels as [|level levels IH]; intros seen Hseen Hlevels; [constructor|].
  apply Forall_cons in Hlevels as [Hlevel Hlevels].
  assert (Hall : Forall (fun l => min <= l /\ 1 <= l) (seen ++ [level]))
    by (rewrite Forall_app, Forall_singleton; by split).
  cbn [numbering_from]. constructor; [|by apply IH].
  intros (ext & Hne & [rest ->] & E)%elem_of_numbering_from.
  rewrite Forall_app in Hlevels. destruct Hlevels as [Hext _].
  revert E. apply index_of_app_ne; try done. by destruct seen.
Qed.

Lemma numbered_name_index (index1 index2 name1 name2 : str) :
  index_shape index1 -> index_shape index2 ->
  index1 ++ lit " " ++ name1 = index2 ++ lit " " ++ name2 -> index1 = index2.
Proof.
  intros [_ H1] [_ H2]. revert index2 H2.
  induction H1 as [|x i1 Hx _ IH]; intros i2 H2 E.
  - destruct H2 as [|y i2 Hy _]; [done|]. cbn in E. injection E as <- _. done.
  - destruct H2 as [|y i2 Hy H2]; cbn in E.
    + injection E as -> _. done.
    + injection E as -> E. f_equal. by apply IH.
Qed.

Lemma zip_with_NoDup {A B C} (f : A -> B -> C) (l : list A) :
  NoDup l ->
  (forall a1 a2 b1 b2, a1 ∈ l -> a2 ∈ l -> f a1 b1 = f a2 b2 -> a1 = a2) ->
  forall k, NoDup (zip_with f l k).
Proof.
  induction 1 as [|a l Ha Hl IH]; intros Hf k; [constructor|].
  destruct k as [|b k]; [constructor|]. cbn [zip_with]. constructor.
  - intros (a' & b' & E & Ha' & _)%elem_of_zip_with. apply Ha.
    rewrite (Hf a a' b b'); [done | by left | by right | done].
  - apply IH. intros a1 a2 b1 b2 H1 H2. apply Hf; by right.
Qed.

(** X20: every chapter has its own index.  Whatever the levels of the
    chapters are, no two chapters of a pass get the same index, and so no two
    names that are returned are the same. *)
Theorem indexes_are_distinct (lines : list str) (min : Z) (nc : list str) :
  NoDup (numbering min (map fst (chapters min lines)))
  /\ exists names,
       (get_chapter_names lines 0 None 0 min (Some nc)).2 = Returned names
       /\ NoDup names
       /\ names = zip_with (fun index ch => index ++ lit " " ++ clean_name ch.2)
                    (numbering min (map fst (chapters min lines))) (chapters min lines).
Proof.
  assert (Hshape : Forall index_shape (numbering min (map fst (chapters min lines))))
    by (apply numbering_from_shape; [done | apply chapters_levels]).
  assert (Hnodup : NoDup (numbering min (map fst (chapters min lines))))
    by (apply numbering_from_NoDup; [done | apply chapters_levels]).
  split; [done|]. rewrite get_chapter_names_spec. cbn zeta. eexists. split; [done|].
  cbn [bool_decide]. rewrite numbered_names_numbering. split; [|done].
  apply zip_with_NoDup; [done|]. intros i1 i2 ch1 ch2 Hi1 Hi2.
  rewrite Forall_forall in Hshape. apply numbered_name_index; by apply Hshape.
Qed.

